(** * tiny-bundler: resource pipeline and dev loop

    A shallow embedding of [src/bundler.ts].  The file has four parts:

    - [JS], [Path] and [Wyhash]: the pieces of the ECMAScript, Node and
      Bun runtime the bundler calls ([String.prototype.replaceAll],
      [split], [Number], [URLSearchParams], [path.join], [path.parse],
      [Bun.hash], ...), written after their specifications;
    - the build ([bundle] and the closures declared inside it, with the
      report it prints), over a record of external collaborators (sharp,
      tailwind, lightningcss, rolldown, prettier, the file system that
      holds the sources);
    - the dev loop ([dev]) as a transition function between its suspension
      points;
    - the properties of the specification, stated on these definitions. *)

From Stdlib Require Import ZArith NArith QArith Qabs Lia Ascii.
From Stdlib Require String.
From stdpp Require Import base option list strings gmap pretty.

Local Open Scope stdpp_scope.

(** ** Runtime model: strings *)

Module JS.

(** Strings are sequences of 8-bit code units (the UTF-8 bytes of the
    text); for ASCII text these are the UTF-16 code units JavaScript
    sees. *)

Fixpoint drop (n : nat) (s : string) : string :=
  match n, s with
  | O, _ => s
  | S n', String _ s' => drop n' s'
  | S _, EmptyString => EmptyString
  end.

Fixpoint take (n : nat) (s : string) : string :=
  match n, s with
  | O, _ => EmptyString
  | S n', String c s' => String c (take n' s')
  | S _, EmptyString => EmptyString
  end.

Fixpoint dropWhile (f : ascii -> bool) (s : string) : string :=
  match s with
  | String c rest => if f c then dropWhile f rest else s
  | EmptyString => EmptyString
  end.

Fixpoint takeWhile (f : ascii -> bool) (s : string) : string :=
  match s with
  | String c rest => if f c then String c (takeWhile f rest) else EmptyString
  | EmptyString => EmptyString
  end.

(** [s.startsWith(p)] *)
Definition startsWith (s p : string) : bool := String.prefix p s.

(** [s.slice(n)] for a non-negative [n] *)
Definition sliceFrom (s : string) (n : nat) : string := drop n s.

(** [s.slice(a, b)] for [0 <= a <= b] *)
Definition slice (s : string) (a b : nat) : string := take (b - a) (drop a s).

(** [s.includes(t)] *)
Fixpoint includes (s t : string) : bool :=
  String.prefix t s ||
  match s with
  | EmptyString => false
  | String _ s' => includes s' t
  end.

(** [s.split(sep)] for a one-character separator: never the empty list. *)
Fixpoint split (sep : ascii) (s : string) : list string :=
  match s with
  | EmptyString => [EmptyString]
  | String c s' =>
      if Ascii.eqb c sep then EmptyString :: split sep s'
      else match split sep s' with
           | [] => [String c EmptyString]
           | p :: ps => String c p :: ps
           end
  end.

Definition lowerChar (c : ascii) : ascii :=
  let n := nat_of_ascii c in
  if (65 <=? n)%nat && (n <=? 90)%nat then ascii_of_nat (n + 32) else c.

(** [s.toLowerCase()], on the ASCII letters *)
Fixpoint toLowerCase (s : string) : string :=
  match s with
  | EmptyString => EmptyString
  | String c s' => String (lowerChar c) (toLowerCase s')
  end.

(** [GetSubstitution] of ECMA-262 for a string pattern (no captures):
    [$$], [$&], [$`] and [$'] are expanded in the replacement, every other
    [$] stands for itself. *)
Fixpoint getSubstitution (matched before after tmpl : string) : string :=
  match tmpl with
  | EmptyString => EmptyString
  | String c rest =>
      if Ascii.eqb c "$" then
        match rest with
        | EmptyString => String c EmptyString
        | String d rest' =>
            if Ascii.eqb d "$" then String "$" (getSubstitution matched before after rest')
            else if Ascii.eqb d "&" then matched +:+ getSubstitution matched before after rest'
            else if Ascii.eqb d "`" then before +:+ getSubstitution matched before after rest'
            else if Ascii.eqb d "'" then after +:+ getSubstitution matched before after rest'
            else String c (getSubstitution matched before after rest)
        end
      else String c (getSubstitution matched before after rest)
  end.

(** The scan of [replaceAll] for a non-empty search string: [skip] counts
    the code units of the current match still to be dropped, [before] is
    the text already passed (for [$`]). *)
Fixpoint replaceAllFrom (k v : string) (skip : nat) (before s : string) : string :=
  match s with
  | EmptyString => EmptyString
  | String c s' =>
      match skip with
      | S n => replaceAllFrom k v n (before +:+ String c EmptyString) s'
      | O =>
          if String.prefix k s
          then getSubstitution k before (drop (String.length k) s) v
                 +:+ replaceAllFrom k v (String.length k - 1) (before +:+ String c EmptyString) s'
          else String c (replaceAllFrom k v O (before +:+ String c EmptyString) s')
      end
  end.

(** [replaceAll] with the empty search string: a replacement before every
    code unit and one at the end. *)
Fixpoint replaceAllEmpty (v : string) (before s : string) : string :=
  getSubstitution EmptyString before s v +:+
  match s with
  | EmptyString => EmptyString
  | String c s' => String c (replaceAllEmpty v (before +:+ String c EmptyString) s')
  end.

(** [s.replaceAll(k, v)] for strings [k] and [v] *)
Definition replaceAll (s k v : string) : string :=
  match k with
  | EmptyString => replaceAllEmpty v EmptyString s
  | _ => replaceAllFrom k v O EmptyString s
  end.

Fixpoint replaceFrom (k v : string) (before s : string) : string :=
  if String.prefix k s
  then getSubstitution k before (drop (String.length k) s) v +:+ drop (String.length k) s
  else match s with
       | EmptyString => EmptyString
       | String c s' => String c (replaceFrom k v (before +:+ String c EmptyString) s')
       end.

(** [s.replace(k, v)] for strings [k] and [v]: the first occurrence only *)
Definition replace (s k v : string) : string := replaceFrom k v EmptyString s.

(** [n.toString(36)] for a non-negative BigInt *)
Definition digit36 (d : N) : ascii :=
  if (d <? 10)%N then ascii_of_N (48 + d) else ascii_of_N (87 + d).

Fixpoint toString36From (fuel : nat) (n : N) (acc : string) : string :=
  match fuel with
  | O => acc
  | S f =>
      let acc' := String (digit36 (n mod 36)) acc in
      if (n <? 36)%N then acc' else toString36From f (n / 36) acc'
  end.

Definition toString36 (n : N) : string :=
  toString36From (S (N.to_nat (N.log2 n))) n EmptyString.

(** *** [URLSearchParams]

    The [application/x-www-form-urlencoded] parser of the URL standard: a
    leading [?] is dropped, the rest is cut at every [&], empty pieces are
    skipped, each piece is cut at its first [=], [+] becomes a space and
    percent escapes are decoded. *)

Definition hexVal (c : ascii) : option nat :=
  let n := nat_of_ascii c in
  if (48 <=? n)%nat && (n <=? 57)%nat then Some (n - 48)
  else if (65 <=? n)%nat && (n <=? 70)%nat then Some (n - 55)
  else if (97 <=? n)%nat && (n <=? 102)%nat then Some (n - 87)
  else None.

Fixpoint percentDecode (s : string) : string :=
  match s with
  | EmptyString => EmptyString
  | String c rest =>
      match rest with
      | String h1 (String h2 rest') =>
          match Ascii.eqb c "%", hexVal h1, hexVal h2 with
          | true, Some a, Some b => String (ascii_of_nat (16 * a + b)) (percentDecode rest')
          | _, _, _ => String c (percentDecode rest)
          end
      | _ => String c (percentDecode rest)
      end
  end.

Fixpoint plusToSpace (s : string) : string :=
  match s with
  | EmptyString => EmptyString
  | String c rest => String (if Ascii.eqb c "+" then " "%char else c) (plusToSpace rest)
  end.

(** A piece [name=value] cut at its first [=]. *)
Fixpoint cutAtEquals (s : string) : string * string :=
  match s with
  | EmptyString => (EmptyString, EmptyString)
  | String c rest =>
      if Ascii.eqb c "=" then (EmptyString, rest)
      else let '(n, v) := cutAtEquals rest in (String c n, v)
  end.

Definition parseUrlencoded (q : string) : list (string * string) :=
  let q' := match q with String c rest => if Ascii.eqb c "?" then rest else q | _ => q end in
  map (fun piece =>
         let '(n, v) := cutAtEquals piece in
         (percentDecode (plusToSpace n), percentDecode (plusToSpace v)))
      (filter (fun piece => piece <> EmptyString) (split "&" q')).

(** [new URLSearchParams(init)], [init] a string or [undefined] *)
Definition URLSearchParams (init : option string) : list (string * string) :=
  match init with
  | None => []
  | Some q => parseUrlencoded q
  end.

(** [params.get(name)]: the first value, [None] for [null] *)
Fixpoint get (params : list (string * string)) (name : string) : option string :=
  match params with
  | [] => None
  | (n, v) :: rest => if String.eqb n name then Some v else get rest name
  end.

(** [params.has(name)] *)
Definition has (params : list (string * string)) (name : string) : bool :=
  match get params name with Some _ => true | None => false end.

(** *** [Number(value)]

    Numbers are kept as exact rationals: the double nearest to the decimal
    is not computed, only whether it is zero (underflow), infinite
    (overflow) or [NaN], which is all the bundler tests. *)

Inductive number : Type :=
| NaN
| Finite (q : Q)
| Infinity (negative : bool).

Definition isNaN (x : number) : bool :=
  match x with NaN => true | _ => false end.

(** [ToBoolean] on a number: [NaN] and the zeros are falsy. *)
Definition truthy (x : number) : bool :=
  match x with
  | NaN => false
  | Finite q => negb (Qnum q =? 0)%Z
  | Infinity _ => true
  end.

(** [StrWhiteSpaceChar] of ECMA-262 ([WhiteSpace] and [LineTerminator]) by
    the bytes of its UTF-8 encoding: U+0009 to U+000D and U+0020 on one
    byte; U+00A0 on two; U+1680, U+2000 to U+200A, U+2028, U+2029, U+202F,
    U+205F, U+3000 and U+FEFF on three. *)
Definition isSpace (c : ascii) : bool :=
  let n := nat_of_ascii c in
  ((9 <=? n)%nat && (n <=? 13)%nat) || (n =? 32)%nat.

Definition isSpace2 (c1 c2 : ascii) : bool :=
  (nat_of_ascii c1 =? 194)%nat && (nat_of_ascii c2 =? 160)%nat.

Definition isSpace3 (c1 c2 c3 : ascii) : bool :=
  let a := nat_of_ascii c1 in
  let b := nat_of_ascii c2 in
  let c := nat_of_ascii c3 in
  ((a =? 225)%nat && (b =? 154)%nat && (c =? 128)%nat)
  || ((a =? 226)%nat && (b =? 128)%nat &&
      (((128 <=? c)%nat && (c <=? 138)%nat) || (c =? 168)%nat || (c =? 169)%nat
       || (c =? 175)%nat))
  || ((a =? 226)%nat && (b =? 129)%nat && (c =? 159)%nat)
  || ((a =? 227)%nat && (b =? 128)%nat && (c =? 128)%nat)
  || ((a =? 239)%nat && (b =? 187)%nat && (c =? 191)%nat).

(** [s] without the white space it begins with. *)
Fixpoint trimStart (s : string) : string :=
  match s with
  | String c1 r1 =>
      if isSpace c1 then trimStart r1
      else
        match r1 with
        | String c2 r2 =>
            if isSpace2 c1 c2 then trimStart r2
            else
              match r2 with
              | String c3 r3 => if isSpace3 c1 c2 c3 then trimStart r3 else s
              | EmptyString => s
              end
        | EmptyString => s
        end
  | EmptyString => EmptyString
  end.

(** [s] without the white space it ends with: cut where only white space
    follows. *)
Fixpoint trimEnd (s : string) : string :=
  match s with
  | String c rest =>
      if String.eqb (trimStart s) EmptyString then EmptyString else String c (trimEnd rest)
  | EmptyString => EmptyString
  end.

Fixpoint revOnto (s acc : string) : string :=
  match s with
  | EmptyString => acc
  | String c rest => revOnto rest (String c acc)
  end.

Definition rev (s : string) : string := revOnto s EmptyString.

Definition trim (s : string) : string := trimEnd (trimStart s).

Definition digitVal (radix : nat) (c : ascii) : option nat :=
  match hexVal c with
  | Some d => if (d <? radix)%nat then Some d else None
  | None => None
  end.

(** The digits of [s] in [radix] read as a number: [None] when [s] is
    empty or holds another character. *)
Fixpoint digitsFrom (radix : nat) (s : string) (acc : Z) (seen : bool) : option Z :=
  match s with
  | EmptyString => if seen then Some acc else None
  | String c rest =>
      match digitVal radix c with
      | Some d => digitsFrom radix rest (acc * Z.of_nat radix + Z.of_nat d)%Z true
      | None => None
      end
  end.

(** The longest prefix of decimal digits and the rest. *)
Fixpoint spanDigits (s : string) : string * string :=
  match s with
  | String c rest =>
      match digitVal 10 c with
      | Some _ => let '(d, r) := spanDigits rest in (String c d, r)
      | None => (EmptyString, s)
      end
  | EmptyString => (EmptyString, EmptyString)
  end.

Definition digitsOrZero (s : string) : Z :=
  match digitsFrom 10 s 0%Z false with Some z => z | None => 0%Z end.

(** [mantissa * 10 ^ exponent] as a rational *)
Definition scale10 (mantissa exponent : Z) : Q :=
  match exponent with
  | Z0 => Qmake mantissa 1
  | Zpos e => Qmake (mantissa * Z.pow_pos 10 e) 1
  | Zneg e => Qmake mantissa (Pos.pow 10 e)
  end.

(** What the double nearest to [q] is: a zero below half the least
    subnormal, an infinity from [2^1024 - 2^970] on. *)
Definition roundToDouble (q : Q) : number :=
  let a := Qabs q in
  if Qle_bool a (Qmake 1 (Pos.pow 2 1075)) then Finite 0
  else if Qle_bool (Qmake (2 ^ 1024 - 2 ^ 970) 1) a then Infinity (Qnum q <? 0)%Z
  else Finite q.

(** [StrUnsignedDecimalLiteral] other than [Infinity]: digits, an optional
    fraction, an optional exponent, and nothing after them. *)
Definition unsignedDecimal (s : string) : option Q :=
  let '(ip, r1) := spanDigits s in
  let '(fp, r2) :=
    match r1 with
    | String c r => if Ascii.eqb c "." then spanDigits r else (EmptyString, r1)
    | EmptyString => (EmptyString, r1)
    end in
  if String.eqb ip EmptyString && String.eqb fp EmptyString then None
  else
    let mantissa := digitsOrZero (ip +:+ fp) in
    let shift := Z.of_nat (String.length fp) in
    match r2 with
    | EmptyString => Some (scale10 mantissa (- shift))
    | String c r =>
        if Ascii.eqb c "e" || Ascii.eqb c "E" then
          let '(neg, ds) :=
            match r with
            | String sg r' =>
                if Ascii.eqb sg "-" then (true, r')
                else if Ascii.eqb sg "+" then (false, r') else (false, r)
            | EmptyString => (false, r)
            end in
          match digitsFrom 10 ds 0%Z false with
          | Some e => Some (scale10 mantissa ((if neg then - e else e) - shift))
          | None => None
          end
        else None
    end.

Definition signedDecimal (s : string) : number :=
  let '(neg, body) :=
    match s with
    | String c r =>
        if Ascii.eqb c "-" then (true, r)
        else if Ascii.eqb c "+" then (false, r) else (false, s)
    | EmptyString => (false, s)
    end in
  if String.eqb body "Infinity" then Infinity neg
  else match unsignedDecimal body with
       | Some q => roundToDouble (if neg then Qopp q else q)
       | None => NaN
       end.

(** [StringToNumber]: white space is trimmed, the empty string is [0],
    [0x], [0o] and [0b] literals take no sign. *)
Definition stringToNumber (s : string) : number :=
  let t := trim s in
  match t with
  | EmptyString => Finite 0
  | String c0 (String c1 r) =>
      let radix :=
        if negb (Ascii.eqb c0 "0") then None
        else if Ascii.eqb c1 "x" || Ascii.eqb c1 "X" then Some 16%nat
        else if Ascii.eqb c1 "o" || Ascii.eqb c1 "O" then Some 8%nat
        else if Ascii.eqb c1 "b" || Ascii.eqb c1 "B" then Some 2%nat
        else None in
      match radix with
      | Some b =>
          match digitsFrom b r 0%Z false with
          | Some z => roundToDouble (Qmake z 1)
          | None => NaN
          end
      | None => signedDecimal t
      end
  | _ => signedDecimal t
  end.

(** [Number(v)] for [v] a string or [null] *)
Definition Number (v : option string) : number :=
  match v with
  | None => Finite 0
  | Some s => stringToNumber s
  end.

End JS.

(** ** Runtime model: [node:path] (POSIX) *)

Module Path.

(** One step of [normalizeString]: the segments kept so far, last first. *)
Definition pushSegment (allowAboveRoot : bool) (kept : list string) (seg : string) : list string :=
  if String.eqb seg "" || String.eqb seg "." then kept
  else if String.eqb seg ".." then
    match kept with
    | top :: below =>
        if String.eqb top ".." then (if allowAboveRoot then seg :: kept else kept)
        else below
    | [] => if allowAboveRoot then [seg] else []
    end
  else seg :: kept.

Definition normalizeString (p : string) (allowAboveRoot : bool) : string :=
  String.concat "/" (reverse (fold_left (pushSegment allowAboveRoot) (JS.split "/" p) [])).

Definition lastChar (s : string) : option ascii :=
  match JS.rev s with
  | String c _ => Some c
  | EmptyString => None
  end.

Definition isSlash (c : ascii) : bool := Ascii.eqb c "/".

(** [path.normalize(p)] *)
Definition normalize (p : string) : string :=
  match p with
  | EmptyString => "."
  | String c0 _ =>
      let isAbsolute := isSlash c0 in
      let trailingSeparator := match lastChar p with Some c => isSlash c | None => false end in
      let body := normalizeString p (negb isAbsolute) in
      match body with
      | EmptyString => if isAbsolute then "/" else if trailingSeparator then "./" else "."
      | _ =>
          let body' := if trailingSeparator then body +:+ "/" else body in
          if isAbsolute then "/" +:+ body' else body'
      end
  end.

(** [path.join(...args)] *)
Definition join (args : list string) : string :=
  match filter (fun a => a <> EmptyString) args with
  | [] => "."
  | parts => normalize (String.concat "/" parts)
  end.

(** The last segment of [p], trailing separators ignored. *)
Definition basename (p : string) : string :=
  JS.rev (JS.takeWhile (fun c => negb (isSlash c)) (JS.dropWhile isSlash (JS.rev p))).

(** Where [base] is cut into name and extension: at its last dot, unless
    there is none, it is the first character, or [base] is [".."]. *)
Definition splitExt (base : string) : string * string :=
  let r := JS.rev base in
  let extRev := JS.takeWhile (fun c => negb (Ascii.eqb c ".")) r in
  match JS.drop (String.length extRev) r with
  | EmptyString => (base, EmptyString)
  | String _ (* the dot *) nameRev =>
      if String.eqb nameRev "" || String.eqb base ".." then (base, EmptyString)
      else (JS.rev nameRev, String "." (JS.rev extRev))
  end.

(** [path.extname(p)] *)
Definition extname (p : string) : string := snd (splitExt (basename p)).

(** [path.parse(p)], the two fields the bundler reads *)
Record ParsedPath := { name : string; ext : string }.

Definition parse (p : string) : ParsedPath :=
  let '(n, e) := splitExt (basename p) in {| name := n; ext := e |}.

(** [path.dirname(p)] *)
Definition dirname (p : string) : string :=
  match p with
  | EmptyString => "."
  | String c0 rest =>
      let hasRoot := isSlash c0 in
      let r1 := JS.dropWhile isSlash (JS.rev rest) in
      match JS.dropWhile (fun c => negb (isSlash c)) r1 with
      | EmptyString => if hasRoot then "/" else "."
      | String _ (* the separator *) before =>
          match before with
          | EmptyString => if hasRoot then "//" else String c0 EmptyString
          | _ => String c0 (JS.rev before)
          end
      end
  end.

End Path.

(** ** Runtime model: [Bun.hash]

    [Bun.hash(input)] is Wyhash as Zig's standard library has it
    ([std.hash.Wyhash.hash]), with seed 0, on the bytes of a buffer or on
    the UTF-8 bytes of a string; the result is a 64-bit BigInt. *)

Module Wyhash.

Local Open Scope N_scope.

Definition secret0 : N := 0xa0761d6478bd642f.
Definition secret1 : N := 0xe7037ed1a0b428db.
Definition secret2 : N := 0x8ebc6af09c88c6e3.
Definition secret3 : N := 0x589965cc75374cc3.

Definition wrap64 (x : N) : N := x mod 2 ^ 64.

(** [mum]: the low and the high half of the 128-bit product. *)
Definition mum (a b : N) : N * N :=
  let x := a * b in (wrap64 x, wrap64 (x / 2 ^ 64)).

Definition mix (a b : N) : N :=
  let '(lo, hi) := mum a b in N.lxor lo hi.

(** [read(n, data[off..])]: [n] bytes, little endian. *)
Definition read (n off : nat) (data : list Byte.byte) : N :=
  fold_right (fun b acc => Byte.to_N b + 256 * acc) 0 (take n (drop off data)).

Definition byteAt (i : nat) (data : list Byte.byte) : N :=
  match data !! i with Some b => Byte.to_N b | None => 0 end.

(** [smallKey]: the two words of an input of at most 16 bytes. *)
Definition smallKey (input : list Byte.byte) : N * N :=
  let len := length input in
  if (4 <=? len)%nat then
    let end_ := (len - 4)%nat in
    let quarter := (Nat.shiftl (Nat.shiftr len 3) 2)%nat in
    (N.lor (N.shiftl (read 4 0 input) 32) (read 4 quarter input),
     N.lor (N.shiftl (read 4 end_ input) 32) (read 4 (end_ - quarter) input))
  else if (0 <? len)%nat then
    (N.lor (N.lor (N.shiftl (byteAt 0 input) 16) (N.shiftl (byteAt (Nat.shiftr len 1) input) 8))
           (byteAt (len - 1) input),
     0)
  else (0, 0).

(** [round]: one block of 48 bytes into the three lanes of the state. *)
Definition round (state : N * N * N) (block : list Byte.byte) : N * N * N :=
  let '(s0, s1, s2) := state in
  (mix (N.lxor (read 8 0 block) secret1) (N.lxor (read 8 8 block) s0),
   mix (N.lxor (read 8 16 block) secret2) (N.lxor (read 8 24 block) s1),
   mix (N.lxor (read 8 32 block) secret3) (N.lxor (read 8 40 block) s2)).

(** [while (i + 48 < input.len) : (i += 48) round(input[i..][0..48])], on
    what is left of the input. *)
Fixpoint rounds (fuel : nat) (state : N * N * N) (input : list Byte.byte)
    : (N * N * N) * list Byte.byte :=
  match fuel with
  | O => (state, input)
  | S fuel' =>
      if (48 <? length input)%nat
      then rounds fuel' (round state (take 48 input)) (drop 48 input)
      else (state, input)
  end.

(** The loop of [final1]: 16 bytes at a time into the first lane, while
    more than 16 are left. *)
Fixpoint tail16 (fuel : nat) (s0 : N) (input : list Byte.byte) : N :=
  match fuel with
  | O => s0
  | S fuel' =>
      if (16 <? length input)%nat
      then tail16 fuel'
             (mix (N.lxor (read 8 0 input) secret1) (N.lxor (read 8 8 input) s0))
             (drop 16 input)
      else s0
  end.

(** [Wyhash.hash(seed, input)] *)
Definition hash (seed : N) (input : list Byte.byte) : N :=
  let len := length input in
  let s := N.lxor seed (mix (N.lxor seed secret0) secret1) in
  let '(s0, a, b) :=
    if (len <=? 16)%nat then
      let '(a, b) := smallKey input in (s, a, b)
    else
      let '(state, rest) :=
        if (48 <=? len)%nat then
          let '((s0, s1, s2), rest) := rounds len (s, s, s) input in
          ((N.lxor s0 (N.lxor s1 s2), s1, s2), rest)
        else ((s, s, s), input) in
      let '(s0, _, _) := state in
      (tail16 len s0 rest, read 8 (len - 16) input, read 8 (len - 8) input) in
  let '(a', b') := mum (N.lxor a secret1) (N.lxor b s0) in
  mix (N.lxor (N.lxor a' secret0) (N.of_nat len)) (N.lxor b' secret1).

End Wyhash.

(** [Bun.hash(input)] *)
Definition Bun_hash_wyhash (input : list Byte.byte) : N := Wyhash.hash 0 input.

(** ** The build: data, collaborators, state *)

(** [BundlerConfig] *)
Inductive BackendLanguage : Type := rust.

Record BundlerConfig : Type := {
  assetsDir : string;
  autoReload : bool;
  backendDir : string;
  backendLanguage : option BackendLanguage;
  bundleDir : string;
  frontendAlias : string;
  frontendDir : string;
  templateDir : string;
  tempDir : string;
}.

(** What [processFile] hashes and writes: a buffer (always truthy) or a
    string (falsy when empty). *)
Inductive data : Type :=
| Buffer (bytes : list Byte.byte)
| Text (text : string).

Definition bytesOf (d : data) : list Byte.byte :=
  match d with
  | Buffer b => b
  | Text s => String.list_byte_of_string s
  end.

(** [if (data)] for [data] of type buffer, string or [undefined] *)
Definition dataTruthy (d : option data) : bool :=
  match d with
  | Some (Buffer _) => true
  | Some (Text s) => negb (String.eqb s "")
  | None => false
  end.

(** An entry of rolldown's [result.output]. *)
Record OutputItem : Type := {
  isChunk : bool;
  isEntry : bool;
  facadeModuleId : option string;
  fileName : string;
  code : string;
}.

(** The process environment and the external collaborators.  A collaborator
    that can throw returns [None] when it does.  Source files are read
    through this record: a build writes under [bundleDir] and its inputs
    are taken not to change while it runs. *)
Class Env : Type := {
  cwd : string;
  config : BundlerConfig;
  command : string;
  isProduction : bool;
  moduleDir : string;
  now : N;
  existsSync : string -> bool;
  Bun_hash : list Byte.byte -> N;
  readBytes : string -> option (list Byte.byte);
  readText : string -> option string;
  sharp_resize : list Byte.byte -> JS.number -> option (list Byte.byte);
  tailwind : string -> string -> option string;
  transformCss : string -> string -> bool -> option string;
  rolldown_next : list string -> list (string * string) -> option (string * string);
  rolldown_write : list string -> list (string * string) -> bool -> option (list OutputItem);
  scanTemplates : list string;
  Bun_build : string -> option (option string);
  importDefault : string -> option (option string);
  prettier_format : string -> option string;
}.

(** Where a substitution pass runs. *)
Inductive blob : Type :=
| CssText (resourcePath : string)
| ScriptText (id : string)
| Markup (name : string).

(** What a build does, in the order it does it. *)
Inductive event : Type :=
| EvResolve (resourceAlias : string)
| EvRead (path : string)
| EvResize (path : string) (width : JS.number)
| EvCompileCss (path : string)
| EvBundle (inputs : list string) (inline : bool)
| EvHash (resourceAlias hash : string)
| EvSet (key value : string)
| EvWrite (path : string) (content : data)
| EvRemove (path : string)
| EvSubstitute (where_ : blob) (table : list (string * string)).

(** The mutable state of a build: the [replacers] map (in insertion
    order), the files on disk, and the trace. *)
Record BuildState : Type := {
  replacers : list (string * string);
  disk : list (string * data);
  log : list event;
}.

Inductive outcome (A : Type) : Type :=
| Done (a : A) (st : BuildState)
| Thrown (st : BuildState)
| OutOfFuel.

Arguments Done {A} a st.
Arguments Thrown {A} st.
Arguments OutOfFuel {A}.

Definition M (A : Type) : Type := BuildState -> outcome A.

Definition ret {A} (a : A) : M A := fun st => Done a st.

Definition bind {A B} (m : M A) (k : A -> M B) : M B :=
  fun st =>
    match m st with
    | Done a st' => k a st'
    | Thrown st' => Thrown st'
    | OutOfFuel => OutOfFuel
    end.

Notation "'let*' x ':=' m 'in' k" := (bind m (fun x => k))
  (at level 10, x name, m at level 100, k at level 200).
Notation "m ';;' k" := (bind m (fun _ => k))
  (at level 100, k at level 200, right associativity).

Definition throw {A} : M A := fun st => Thrown st.

Definition outOfFuel {A} : M A := fun _ => OutOfFuel.

(** A collaborator's answer, thrown when it is [None]. *)
Definition try {A} (r : option A) : M A :=
  match r with
  | Some a => ret a
  | None => throw
  end.

Definition emit (e : event) : M unit :=
  fun st => Done tt {| replacers := replacers st; disk := disk st; log := log st ++ [e] |}.

Definition getReplacers : M (list (string * string)) := fun st => Done (replacers st) st.

(** [for (const x of xs) body(x)] *)
Fixpoint forEach {A} (xs : list A) (body : A -> M unit) : M unit :=
  match xs with
  | [] => ret tt
  | x :: rest => body x ;; forEach rest body
  end.

(** *** [Map<string, string>] in insertion order *)

Fixpoint mapGet (m : list (string * string)) (k : string) : option string :=
  match m with
  | [] => None
  | (k', v) :: rest => if String.eqb k' k then Some v else mapGet rest k
  end.

Definition mapHas (m : list (string * string)) (k : string) : bool :=
  match mapGet m k with Some _ => true | None => false end.

(** [m.set(k, v)]: a present key keeps its place, a new one goes last. *)
Fixpoint mapSet (m : list (string * string)) (k v : string) : list (string * string) :=
  match m with
  | [] => [(k, v)]
  | (k', v') :: rest => if String.eqb k' k then (k, v) :: rest else (k', v') :: mapSet rest k v
  end.

Definition keys (m : list (string * string)) : list string := map fst m.

(** *** The disk *)

(** [p] is [root] or lies below it. *)
Definition under (root p : string) : bool :=
  String.eqb p root || String.prefix (root +:+ "/") p.

Definition diskGet (d : list (string * data)) (p : string) : option data :=
  snd <$> List.find (fun e => String.eqb (fst e) p) d.

Definition diskWrite (d : list (string * data)) (p : string) (c : data) : list (string * data) :=
  (p, c) :: List.filter (fun e => negb (String.eqb (fst e) p)) d.

Definition diskRemove (d : list (string * data)) (root : string) : list (string * data) :=
  List.filter (fun e => negb (under root (fst e))) d.

(** ** The build: [bundle] and its closures *)

Section Build.
Context {E : Env}.

(** [isAutoReload] *)
Definition isAutoReload : bool := autoReload config && String.eqb command "dev".

(** [frontendAlias.find] and [frontendAlias.replacement] *)
Definition aliasFind : string := frontendAlias config.
Definition aliasReplacement : string := Path.join [cwd; frontendDir config].

(** *** [resourceRegex]: a quote, the alias, a slash, one or more characters
    other than the quotes and the asterisk, a quote.

    The source puts the alias into the pattern as it is.  The alias is
    read here character by character, which is how the RegExp reads it
    when it holds none of the syntax characters of a pattern
    ([plainPattern]); what is proved of the references found is proved
    under that condition. *)

Definition isSyntaxChar (c : ascii) : bool :=
  existsb (Ascii.eqb c)
    ["^"; "$"; "\"; "."; "*"; "+"; "?"; "("; ")"; "["; "]"; "{"; "}"; "|"]%char.

Fixpoint plainPattern (pattern : string) : bool :=
  match pattern with
  | EmptyString => true
  | String c rest => negb (isSyntaxChar c) && plainPattern rest
  end.

Definition quote : ascii := ascii_of_nat 34.

Definition isQuote (c : ascii) : bool := Ascii.eqb c quote || Ascii.eqb c "'".

Definition isTokenChar (c : ascii) : bool := negb (isQuote c || Ascii.eqb c "*").

(** A match at the head of [s]: the whole match and its group 1. *)
Definition matchHere (s : string) : option (string * string) :=
  match s with
  | String q rest =>
      if isQuote q && String.prefix (aliasFind +:+ "/") rest then
        let body := JS.drop (String.length aliasFind + 1) rest in
        let run := JS.takeWhile isTokenChar body in
        match run, JS.drop (String.length run) body with
        | String _ _, String q2 _ =>
            if isQuote q2
            then Some (String q (aliasFind +:+ "/" +:+ run +:+ String q2 ""),
                       aliasFind +:+ "/" +:+ run)
            else None
        | _, _ => None
        end
      else None
  | EmptyString => None
  end.

Fixpoint matchAllFrom (skip : nat) (s : string) : list (string * string) :=
  match s with
  | EmptyString => []
  | String _ s' =>
      match skip with
      | S n => matchAllFrom n s'
      | O =>
          match matchHere s with
          | Some m => m :: matchAllFrom (String.length (fst m) - 1) s'
          | None => matchAllFrom O s'
          end
      end
  end.

(** [text.matchAll(resourceRegex)] *)
Definition matchAll (text : string) : list (string * string) := matchAllFrom O text.

(** *** [resolveAlias] *)
Definition resolveAlias (input : string) : option (string * option string) :=
  let parts := JS.split "?" input in
  let querystring := parts !! 1%nat in
  match parts !! 0%nat with
  | Some alias =>
      if JS.startsWith alias (aliasFind +:+ "/") then
        let resolved := Path.join [aliasReplacement; JS.sliceFrom alias (String.length aliasFind)] in
        if existsSync resolved then Some (resolved, querystring) else None
      else None
  | None => None
  end.

(** *** [generateHash] and [generateRoute] *)
Definition generateHash (input : data) : string :=
  JS.slice (JS.toString36 (Bun_hash (bytesOf input))) 0 8.

Record Route : Type := { route : string; outPath : string }.

Definition generateRoute (resourcePath hash : string) : Route :=
  let parsed := Path.parse resourcePath in
  let outName := Path.name parsed +:+ "." +:+ hash +:+ Path.ext parsed in
  {| route := "/" +:+ assetsDir config +:+ "/" +:+ outName;
     outPath := Path.join [cwd; bundleDir config; assetsDir config; outName] |}.

(** *** State operations *)

(** [replacers.has(key)] *)
Definition replacersHas (key : string) : M bool :=
  fun st => Done (mapHas (replacers st) key) st.

(** [replacers.set(key, value)] *)
Definition replacersSet (key value : string) : M unit :=
  fun st =>
    Done tt {| replacers := mapSet (replacers st) key value;
               disk := disk st;
               log := log st ++ [EvSet key value] |}.

(** [Bun.write(path, content)] and the files rolldown writes *)
Definition write (path : string) (content : data) : M unit :=
  fun st =>
    Done tt {| replacers := replacers st;
               disk := diskWrite (disk st) path content;
               log := log st ++ [EvWrite path content] |}.

(** [rmSync(path, { force: true, recursive: true })] *)
Definition rmSync (path : string) : M unit :=
  fun st =>
    Done tt {| replacers := replacers st;
               disk := diskRemove (disk st) path;
               log := log st ++ [EvRemove path] |}.

(** [for (const [alias, filePath] of replacers) output = output.replaceAll(alias, filePath)] *)
Definition substituteAll (table : list (string * string)) (text : string) : string :=
  fold_left (fun output entry => JS.replaceAll output (fst entry) (snd entry)) table text.

Definition substitute (where_ : blob) (text : string) : M string :=
  let* table := getReplacers in
  emit (EvSubstitute where_ table) ;;
  ret (substituteAll table text).

(** *** [processImage] *)
Definition processImage (resourcePath : string) (querystring : option string) : M data :=
  let width := JS.Number (JS.get (JS.URLSearchParams querystring) "w") in
  emit (EvRead resourcePath) ;;
  let* buffer := try (readBytes resourcePath) in
  if JS.truthy width && negb (JS.isNaN width) then
    emit (EvResize resourcePath width) ;;
    let* resized := try (sharp_resize buffer width) in
    ret (Buffer resized)
  else ret (Buffer buffer).

(** The loop shared by [processCss] and the transform hook: every
    reference found in [text] that is not yet a key and resolves is handed
    to [processFile]. *)
Definition processReferences
    (processFile : string -> string * option string -> M unit) (text : string) : M unit :=
  forEach (matchAll text) (fun m =>
    let resourceAlias := snd m in
    let* known := replacersHas resourceAlias in
    if known then ret tt
    else
      emit (EvResolve resourceAlias) ;;
      match resolveAlias resourceAlias with
      | Some resourcePathAndQuery => processFile resourceAlias resourcePathAndQuery
      | None => ret tt
      end).

(** *** [processCss] *)
Definition processCss
    (processFile : string -> string * option string -> M unit)
    (resourcePath : string) : M string :=
  emit (EvRead resourcePath) ;;
  let* css1 := try (readText resourcePath) in
  emit (EvCompileCss resourcePath) ;;
  let* css2 := try (tailwind css1 (Path.dirname resourcePath)) in
  let* code := try (transformCss css2 resourcePath isProduction) in
  processReferences processFile code ;;
  substitute (CssText resourcePath) code.

(** *** [processScript] *)

(** The [transform] hook of the [x:bundle] plugin: the code it returns,
    the code itself when it returns nothing. *)
Definition transformHandler
    (processFile : string -> string * option string -> M unit)
    (code id : string) : M string :=
  if negb (JS.includes id ("/" +:+ frontendDir config +:+ "/")) then ret code
  else
    processReferences processFile code ;;
    substitute (ScriptText id) code.

(** rolldown loads the modules one after another and runs the hook on
    each; [done] holds the ids and the transformed code so far. *)
Fixpoint transformModules
    (fuel : nat) (processFile : string -> string * option string -> M unit)
    (inputs : list string) (done : list (string * string)) : M (list (string * string)) :=
  match rolldown_next inputs done with
  | None => ret done
  | Some (code, id) =>
      match fuel with
      | O => outOfFuel
      | S fuel' =>
          let* code' := transformHandler processFile code id in
          transformModules fuel' processFile inputs (done ++ [(id, code')])
      end
  end.

Definition stringTruthy (s : option string) : bool :=
  match s with
  | Some t => negb (String.eqb t "")
  | None => false
  end.

Definition processScript
    (fuel : nat) (processFile : string -> string * option string -> M unit)
    (input : string + list (string * string)) : M (option string) :=
  let inline := match input with inl _ => true | inr _ => false end in
  let inputs := match input with inl entry => [entry] | inr entries => keys entries end in
  emit (EvBundle inputs inline) ;;
  let* transformed := transformModules fuel processFile inputs [] in
  let* output := try (rolldown_write inputs transformed inline) in
  let dir := Path.join [cwd; bundleDir config; if inline then tempDir config else assetsDir config] in
  forEach output (fun item => write (Path.join [dir; fileName item]) (Text (code item))) ;;
  match input with
  | inl _ =>
      match output with
      | first :: _ => ret (Some (code first))
      | [] => throw
      end
  | inr entries =>
      forEach output (fun chunk =>
        if isChunk chunk && isEntry chunk && stringTruthy (facadeModuleId chunk) then
          let resourceAlias := mapGet entries (default "" (facadeModuleId chunk)) in
          if stringTruthy resourceAlias
          then replacersSet (default "" resourceAlias) ("/" +:+ assetsDir config +:+ "/" +:+ fileName chunk)
          else ret tt
        else ret tt) ;;
      ret None
  end.

(** *** [processFile] *)
Fixpoint processFile
    (fuel : nat) (resourceAlias : string) (resourcePathAndQuery : string * option string)
    : M unit :=
  let* known := replacersHas resourceAlias in
  if known then ret tt
  else
    let '(resourcePath, querystring) := resourcePathAndQuery in
    let ext := JS.toLowerCase (Path.extname resourcePath) in
    let finish (data : option data) : M unit :=
      if dataTruthy data then
        let content := default (Text "") data in
        let hash := generateHash content in
        emit (EvHash resourceAlias hash) ;;
        let r := generateRoute resourcePath hash in
        replacersSet resourceAlias (route r) ;;
        write (outPath r) content
      else ret tt in
    if String.eqb ext ".js" || String.eqb ext ".ts" then
      let worker := JS.has (JS.URLSearchParams querystring) "worker" in
      if worker then
        match fuel with
        | O => outOfFuel
        | S fuel' =>
            processScript fuel' (processFile fuel') (inr [(resourcePath, resourceAlias)]) ;;
            finish None
        end
      else finish None
    else if String.eqb ext ".png" || String.eqb ext ".jpg" || String.eqb ext ".jpeg" then
      let* data := processImage resourcePath querystring in
      finish (Some data)
    else if String.eqb ext ".css" then
      match fuel with
      | O => outOfFuel
      | S fuel' =>
          let* data := processCss (processFile fuel') resourcePath in
          finish (Some (Text data))
      end
    else ret tt.

(** [for (const x of xs) acc = body(acc, x)] *)
Fixpoint foldM {A B} (xs : list A) (acc : B) (body : B -> A -> M B) : M B :=
  match xs with
  | [] => ret acc
  | x :: rest => let* acc' := body acc x in foldM rest acc' body
  end.

(** *** [bundle]: one reference of a template's markup *)
Definition processMatch
    (fuel : nat) (rawScripts : list (string * string)) (m : string * string)
    : M (list (string * string)) :=
  let resourceAlias := snd m in
  emit (EvResolve resourceAlias) ;;
  match resolveAlias resourceAlias with
  | None => ret rawScripts
  | Some resourcePathAndQuery =>
      let '(resourcePath, querystring) := resourcePathAndQuery in
      let ext := JS.toLowerCase (Path.extname resourcePath) in
      if String.eqb ext ".js" || String.eqb ext ".ts" then
        let inline := JS.has (JS.URLSearchParams querystring) "inline" in
        let key := if inline then fst m else resourceAlias in
        let* known := replacersHas key in
        if known then ret rawScripts
        else if inline then
          let* code := processScript fuel (processFile fuel) (inl resourcePath) in
          match code with
          | Some text => replacersSet key text ;; ret rawScripts
          | None => ret rawScripts
          end
        else ret (mapSet rawScripts resourcePath resourceAlias)
      else
        processFile fuel resourceAlias resourcePathAndQuery ;;
        ret rawScripts
  end.

(** *** [bundle]: one template file *)
Definition processTemplate
    (fuel : nat) (version : string)
    (acc : list (string * string) * list (string * string)) (name : string)
    : M (list (string * string) * list (string * string)) :=
  let '(rawHTMLs, rawScripts) := acc in
  let moduleExt := Path.extname name in
  let moduleTemp :=
    Path.join [cwd; bundleDir config; tempDir config;
               JS.replace name moduleExt ("." +:+ version +:+ moduleExt)] in
  let modulePath := Path.join [cwd; frontendDir config; name] in
  let* moduleBuild := try (Bun_build modulePath) in
  match moduleBuild with
  | None => ret (rawHTMLs, rawScripts)
  | Some moduleText =>
      write moduleTemp (Text moduleText) ;;
      let* rendered := try (importDefault moduleText) in
      let html := default "" rendered in
      let* rawScripts' := foldM (matchAll html) rawScripts (processMatch fuel) in
      ret (mapSet rawHTMLs name html, rawScripts')
  end.

(** The part of [bundle] that fills the table: every template, then the
    scripts collected on the way as one bundle. *)
Definition processAll (fuel : nat) : M (list (string * string)) :=
  let version := pretty now in
  let* maps := foldM scanTemplates ([], []) (processTemplate fuel version) in
  let '(rawHTMLs, rawScripts) := maps in
  (if (0 <? length rawScripts)%nat
   then processScript fuel (processFile fuel) (inr rawScripts) ;; ret tt
   else ret tt) ;;
  ret rawHTMLs.

(** The part of [bundle] that reads the table: every markup blob is
    substituted, formatted and written. *)
Definition writeMarkup (inlines : list string) (entry : string * string) : M unit :=
  let '(name, html) := entry in
  let* output := substitute (Markup name) html in
  let output1 :=
    if (0 <? length inlines)%nat
    then JS.replace output "</head>" (String.concat "" inlines +:+ "</head>")
    else output in
  let* output2 := try (prettier_format output1) in
  let outName := JS.replace name (Path.extname name) ".html" in
  write (Path.join [cwd; bundleDir config; outName]) (Text output2).

(** [const replacers = new Map()] *)
Definition newReplacers : M unit :=
  fun st => Done tt {| replacers := []; disk := disk st; log := log st |}.

(** [bundle], up to the report it prints of the files it wrote *)
Definition bundle (fuel : nat) : M unit :=
  rmSync (Path.join [cwd; bundleDir config]) ;;
  newReplacers ;;
  let* rawHTMLs := processAll fuel in
  rmSync (Path.join [cwd; bundleDir config; tempDir config]) ;;
  let* inlines :=
    (if isAutoReload then
       let codePath := Path.join [moduleDir; "inline-scripts/auto-reload.ts"] in
       emit (EvRead codePath) ;;
       let* code := try (readText codePath) in
       ret ["<script>" +:+ code +:+ "</script>"]
     else ret []) in
  forEach rawHTMLs (writeMarkup inlines).

End Build.

(** ** The report [bundle] prints when it is done

    [formatFileSize] divides a byte length by [KB] or [MB] and prints the
    quotient with [toFixed].  The byte length of a buffer is an integer
    below [2^53] and the divisors are integers, so the quotient is a
    normal double: the multiple of [2^(e-52)] nearest to the exact
    quotient, ties to even, where [2^e] is the power of two at or below
    it. *)

(** [a / b] rounded to the nearest integer, ties to even, for [b > 0]. *)
Definition roundDiv (a b : Z) : Z :=
  let q := (a / b)%Z in
  let r := (a mod b)%Z in
  if (2 * r <? b)%Z then q
  else if (b <? 2 * r)%Z then (q + 1)%Z
  else if Z.even q then q else (q + 1)%Z.

(** The [e] with [2^e <= n / d < 2^(e+1)], for positive [n] and [d]. *)
Definition binade (n d : Z) : Z :=
  if (d <=? n)%Z then Z.log2 (n / d) else (- Z.log2_up ((d + n - 1) / n))%Z.

(** A finite double that is not negative: [mant * 2^expo]. *)
Record double : Type := { mant : Z; expo : Z }.

(** [n / d] in double arithmetic, for integers [0 <= n < 2^53] and
    [0 < d < 2^53]. *)
Definition divide (n d : Z) : double :=
  if (n =? 0)%Z then {| mant := 0; expo := 0 |}
  else
    let k := (binade n d - 52)%Z in
    {| mant := if (k <=? 0)%Z then roundDiv (n * 2 ^ (- k)) d else roundDiv n (d * 2 ^ k);
       expo := k |}.

(** The integer [n] for which [n / 10^f] is nearest to [x], the larger
    one when two are as near: [Number.prototype.toFixed] prints its
    digits. *)
Definition fixedDigits (f : nat) (x : double) : Z :=
  if (0 <=? expo x)%Z then (mant x * 2 ^ expo x * 10 ^ Z.of_nat f)%Z
  else ((2 * mant x * 10 ^ Z.of_nat f + 2 ^ (- expo x)) / 2 ^ (1 - expo x))%Z.

Definition digit10 (d : N) : ascii := ascii_of_N (48 + d).

Fixpoint decimalFrom (fuel : nat) (n : N) (acc : string) : string :=
  match fuel with
  | O => acc
  | S f =>
      let acc' := String (digit10 (n mod 10)) acc in
      if (n <? 10)%N then acc' else decimalFrom f (n / 10) acc'
  end.

(** The decimal digits of a non-negative integer. *)
Definition decimal (n : N) : string :=
  decimalFrom (S (N.to_nat (N.log2 n))) n EmptyString.

Fixpoint replicate (n : nat) (c : ascii) : string :=
  match n with
  | O => EmptyString
  | S n' => String c (replicate n' c)
  end.

(** [x.toFixed(f)] for [0 <= x < 10^21]: the digits of [fixedDigits],
    filled with zeros on the left to [f + 1] digits, with a point before
    the last [f]. *)
Definition toFixed (f : nat) (x : double) : string :=
  let m := decimal (Z.to_N (fixedDigits f x)) in
  match f with
  | O => m
  | S _ =>
      let m' := replicate (S f - String.length m) "0" +:+ m in
      let k := String.length m' in
      JS.take (k - f) m' +:+ "." +:+ JS.drop (k - f) m'
  end.

(** [formatFileSize] *)
Definition formatFileSize (byteLength : N) : string :=
  let KB := 1000%N in
  let MB := (KB * 1000)%N in
  if (MB <=? byteLength)%N then toFixed 2 (divide (Z.of_N byteLength) (Z.of_N MB)) +:+ " MB"
  else if (KB <=? byteLength)%N then toFixed 1 (divide (Z.of_N byteLength) (Z.of_N KB)) +:+ " KB"
  else decimal byteLength +:+ " bytes".

(** [getColor] *)
Definition getColor (filePath : string) : string :=
  let ext := JS.toLowerCase (Path.extname filePath) in
  if String.eqb ext ".map" then "grey"
  else if String.eqb ext ".js" then "orange"
  else if String.eqb ext ".css" then "lime"
  else if String.eqb ext ".html" then "yellow"
  else "lightgrey".

(** A name in ASCII: its length in UTF-16 code units, which [length] and
    [padEnd] count, is its length in bytes. *)
Fixpoint isAscii (s : string) : bool :=
  match s with
  | EmptyString => true
  | String c rest => (nat_of_ascii c <? 128)%nat && isAscii rest
  end.

(** [s.padEnd(n, " ")] *)
Definition padEnd (s : string) (n : nat) : string :=
  s +:+ replicate (n - String.length s) " ".

(** The loop that finds the longest name. *)
Definition maxLength (entries : list string) : nat :=
  fold_left (fun m name => if (m <? String.length name)%nat then String.length name else m)
    entries 0%nat.

Section Report.
(** [Bun.color(c, "ansi-16m")] *)
Variable Bun_color : string -> string.

(** [color] *)
Definition color (c message : string) : string :=
  Bun_color c +:+ message +:+ Bun_color "lightgrey".

(** The lines [bundle] prints for the files below the bundle directory,
    given their names in the order of the sort and their byte lengths. *)
Definition reportLines (entries : list string) (byteLength : string -> N) : list string :=
  map (fun name =>
         let dataSize := "(" +:+ formatFileSize (byteLength name) +:+ ")" in
         color (getColor name) ("> " +:+ padEnd name (maxLength entries) +:+ " " +:+ dataSize))
      entries.

End Report.

(** ** The dev loop

    [dev] runs on one thread; it can be observed, and its environment can
    act, only where it awaits.  A state of the model is the loop suspended
    at one of its [await]s; a [Tick] is what happened while it was
    suspended and what it finds when it resumes; [step] runs the code up to
    the next [await]. *)

Inductive Pc : Type :=
| AtSleep     (* await Bun.sleep(100), the head of the loop *)
| AtBundle    (* await bundle() *)
| AtPoll      (* await Bun.sleep(10), waiting for webServer.killed *)
| AtPing      (* await ping(), in notify *)
| AtRetry     (* await Bun.sleep(1_000), in notify *)
| Crashed.    (* Bun.spawn threw: dev() has rejected *)

Record Tick : Type := {
  exited : list nat;
  frontendFiles : list (string * list Byte.byte);
  bundleFiles : list (string * list Byte.byte);
  backendFiles : list (string * list Byte.byte);
  bundleThrew : bool;
  pingOk : bool;
  spawnOk : bool;
}.

Record DevState : Type := {
  pc : Pc;
  autoReloadRevision : nat;
  controllers : list bool;
  autoReloadController : nat;
  signal : nat;
  webServer : option nat;
  previousFrontend : gset string;
  previousBackend : gset string;
  isFrontendChanged : bool;
  procs : list bool;
  signals : list nat;
  published : list string;
  bundles : nat;
}.

Definition setPc (x : Pc) (s : DevState) : DevState :=
  {| pc := x; autoReloadRevision := autoReloadRevision s; controllers := controllers s;
     autoReloadController := autoReloadController s; signal := signal s; webServer :=
     webServer s; previousFrontend := previousFrontend s; previousBackend := previousBackend
     s; isFrontendChanged := isFrontendChanged s; procs := procs s; signals := signals s;
     published := published s; bundles := bundles s |}.

Definition setAutoReloadRevision (x : nat) (s : DevState) : DevState :=
  {| pc := pc s; autoReloadRevision := x; controllers := controllers s; autoReloadController
     := autoReloadController s; signal := signal s; webServer := webServer s;
     previousFrontend := previousFrontend s; previousBackend := previousBackend s;
     isFrontendChanged := isFrontendChanged s; procs := procs s; signals := signals s;
     published := published s; bundles := bundles s |}.

Definition setControllers (x : list bool) (s : DevState) : DevState :=
  {| pc := pc s; autoReloadRevision := autoReloadRevision s; controllers := x;
     autoReloadController := autoReloadController s; signal := signal s; webServer :=
     webServer s; previousFrontend := previousFrontend s; previousBackend := previousBackend
     s; isFrontendChanged := isFrontendChanged s; procs := procs s; signals := signals s;
     published := published s; bundles := bundles s |}.

Definition setAutoReloadController (x : nat) (s : DevState) : DevState :=
  {| pc := pc s; autoReloadRevision := autoReloadRevision s; controllers := controllers s;
     autoReloadController := x; signal := signal s; webServer := webServer s;
     previousFrontend := previousFrontend s; previousBackend := previousBackend s;
     isFrontendChanged := isFrontendChanged s; procs := procs s; signals := signals s;
     published := published s; bundles := bundles s |}.

Definition setSignal (x : nat) (s : DevState) : DevState :=
  {| pc := pc s; autoReloadRevision := autoReloadRevision s; controllers := controllers s;
     autoReloadController := autoReloadController s; signal := x; webServer := webServer s;
     previousFrontend := previousFrontend s; previousBackend := previousBackend s;
     isFrontendChanged := isFrontendChanged s; procs := procs s; signals := signals s;
     published := published s; bundles := bundles s |}.

Definition setWebServer (x : option nat) (s : DevState) : DevState :=
  {| pc := pc s; autoReloadRevision := autoReloadRevision s; controllers := controllers s;
     autoReloadController := autoReloadController s; signal := signal s; webServer := x;
     previousFrontend := previousFrontend s; previousBackend := previousBackend s;
     isFrontendChanged := isFrontendChanged s; procs := procs s; signals := signals s;
     published := published s; bundles := bundles s |}.

Definition setPreviousFrontend (x : gset string) (s : DevState) : DevState :=
  {| pc := pc s; autoReloadRevision := autoReloadRevision s; controllers := controllers s;
     autoReloadController := autoReloadController s; signal := signal s; webServer :=
     webServer s; previousFrontend := x; previousBackend := previousBackend s;
     isFrontendChanged := isFrontendChanged s; procs := procs s; signals := signals s;
     published := published s; bundles := bundles s |}.

Definition setPreviousBackend (x : gset string) (s : DevState) : DevState :=
  {| pc := pc s; autoReloadRevision := autoReloadRevision s; controllers := controllers s;
     autoReloadController := autoReloadController s; signal := signal s; webServer :=
     webServer s; previousFrontend := previousFrontend s; previousBackend := x;
     isFrontendChanged := isFrontendChanged s; procs := procs s; signals := signals s;
     published := published s; bundles := bundles s |}.

Definition setIsFrontendChanged (x : bool) (s : DevState) : DevState :=
  {| pc := pc s; autoReloadRevision := autoReloadRevision s; controllers := controllers s;
     autoReloadController := autoReloadController s; signal := signal s; webServer :=
     webServer s; previousFrontend := previousFrontend s; previousBackend := previousBackend
     s; isFrontendChanged := x; procs := procs s; signals := signals s; published :=
     published s; bundles := bundles s |}.

Definition setProcs (x : list bool) (s : DevState) : DevState :=
  {| pc := pc s; autoReloadRevision := autoReloadRevision s; controllers := controllers s;
     autoReloadController := autoReloadController s; signal := signal s; webServer :=
     webServer s; previousFrontend := previousFrontend s; previousBackend := previousBackend
     s; isFrontendChanged := isFrontendChanged s; procs := x; signals := signals s; published
     := published s; bundles := bundles s |}.

Definition setSignals (x : list nat) (s : DevState) : DevState :=
  {| pc := pc s; autoReloadRevision := autoReloadRevision s; controllers := controllers s;
     autoReloadController := autoReloadController s; signal := signal s; webServer :=
     webServer s; previousFrontend := previousFrontend s; previousBackend := previousBackend
     s; isFrontendChanged := isFrontendChanged s; procs := procs s; signals := x; published
     := published s; bundles := bundles s |}.

Definition setPublished (x : list string) (s : DevState) : DevState :=
  {| pc := pc s; autoReloadRevision := autoReloadRevision s; controllers := controllers s;
     autoReloadController := autoReloadController s; signal := signal s; webServer :=
     webServer s; previousFrontend := previousFrontend s; previousBackend := previousBackend
     s; isFrontendChanged := isFrontendChanged s; procs := procs s; signals := signals s;
     published := x; bundles := bundles s |}.

Definition setBundles (x : nat) (s : DevState) : DevState :=
  {| pc := pc s; autoReloadRevision := autoReloadRevision s; controllers := controllers s;
     autoReloadController := autoReloadController s; signal := signal s; webServer :=
     webServer s; previousFrontend := previousFrontend s; previousBackend := previousBackend
     s; isFrontendChanged := isFrontendChanged s; procs := procs s; signals := signals s;
     published := published s; bundles := x |}.

Section Dev.
Context {E : Env}.

(** [readFileSync(file, "binary")] as [Bun.hash] reads it: the file's
    bytes decoded one character a byte (Latin-1), and that string in
    UTF-8, so a byte below 128 stays and a byte from 128 on becomes the two
    bytes [192 + b / 64] and [128 + b mod 64]. *)
Definition binaryChar (b : Byte.byte) : list Byte.byte :=
  let n := Byte.to_N b in
  if (n <? 128)%N then [b]
  else [default b (Byte.of_N (192 + n / 64)); default b (Byte.of_N (128 + n mod 64))].

Definition binaryString (bytes : list Byte.byte) : list Byte.byte :=
  flat_map binaryChar bytes.

(** The bytes a binary string in UTF-8 was read from. *)
Fixpoint binaryBytes (encoded : list Byte.byte) : list Byte.byte :=
  match encoded with
  | [] => []
  | x :: rest =>
      if (Byte.to_N x <? 128)%N then x :: binaryBytes rest
      else
        match rest with
        | y :: rest' =>
            default x (Byte.of_N ((Byte.to_N x - 192) * 64 + (Byte.to_N y - 128)))
              :: binaryBytes rest'
        | [] => [x]
        end
  end.

(** [generateHash(file)] of [dev] *)
Definition generateFileHash (file : string * list Byte.byte) : string :=
  fst file +:+ ":" +:+ JS.toString36 (Bun_hash (binaryString (snd file))).

(** [generateHashes(dir)], on the files the glob finds under [dir] *)
Definition generateHashes (files : list (string * list Byte.byte)) : list string :=
  map generateFileHash files.

(** [a.symmetricDifference(b)] *)
Definition symmetricDifference (a b : gset string) : gset string := (a ∖ b) ∪ (b ∖ a).

(** [next.symmetricDifference(previous).size > 0] *)
Definition changed (next previous : gset string) : bool :=
  bool_decide (0 < size (symmetricDifference next previous))%nat.

(** The state at the first [await Bun.sleep(100)]. *)
Definition initial : DevState :=
  {| pc := AtSleep; autoReloadRevision := 0; controllers := [false];
     autoReloadController := 0; signal := 0; webServer := None;
     previousFrontend := ∅; previousBackend := ∅; isFrontendChanged := false;
     procs := []; signals := []; published := []; bundles := 0 |}.

(** The processes that ended while the loop was suspended. *)
Definition applyExits (pids : list nat) (s : DevState) : DevState :=
  setProcs (fold_left (fun ps pid => <[pid := false]> ps) pids (procs s)) s.

(** [webServer.killed]: the process has ended. *)
Definition killed (pid : nat) (s : DevState) : bool :=
  negb (default false (procs s !! pid)).

(** [while (!signal.aborted)] of [notify], up to [await ping()] *)
Definition notifyLoop (s : DevState) : DevState :=
  if default false (controllers s !! signal s) then setPc AtSleep s else setPc AtPing s.

(** [notify()], up to its first [await] *)
Definition notify (s : DevState) : DevState :=
  let fresh := length (controllers s) in
  notifyLoop
    (setSignal fresh (setAutoReloadController fresh (setControllers (controllers s ++ [false]) s))).

(** Lines 583-600: the new backend is spawned, then [notify]. *)
Definition spawnServer (t : Tick) (s : DevState) : DevState :=
  if spawnOk t then
    let s' := setWebServer (Some (length (procs s))) (setProcs (procs s ++ [true]) s) in
    if isAutoReload then notify s' else setPc AtSleep s'
  else setPc Crashed s.

(** [while (!webServer.killed) await Bun.sleep(10)] *)
Definition pollKilled (t : Tick) (pid : nat) (s : DevState) : DevState :=
  if killed pid s then spawnServer t s else setPc AtPoll s.

(** Lines 560-602: the backend half of an iteration. *)
Definition superviseBackend (t : Tick) (s : DevState) : DevState :=
  match backendLanguage config with
  | None => setPc AtSleep s
  | Some rust =>
      let nextBackend : gset string :=
        list_to_set (generateHashes (bundleFiles t) ++ generateHashes (backendFiles t)) in
      let isBackendChanged := changed nextBackend (previousBackend s) in
      let s1 := setPreviousBackend nextBackend s in
      if isFrontendChanged s1 || isBackendChanged then
        let s2 := setControllers (<[autoReloadController s1 := true]> (controllers s1)) s1 in
        match webServer s2 with
        | Some pid => pollKilled t pid (setSignals (signals s2 ++ [pid]) s2)
        | None => spawnServer t s2
        end
      else setPc AtSleep s1
  end.

(** From one [await] to the next. *)
Definition step (t : Tick) (s0 : DevState) : DevState :=
  let s := applyExits (exited t) s0 in
  match pc s with
  | AtSleep =>
      let nextFrontend : gset string := list_to_set (generateHashes (frontendFiles t)) in
      let isChanged := changed nextFrontend (previousFrontend s) in
      let s1 := setIsFrontendChanged isChanged (setPreviousFrontend nextFrontend s) in
      if isChanged then setPc AtBundle (setBundles (S (bundles s1)) s1)
      else superviseBackend t s1
  | AtBundle => superviseBackend t s
  | AtPoll =>
      match webServer s with
      | Some pid => pollKilled t pid s
      | None => s
      end
  | AtPing =>
      if pingOk t then
        let s1 :=
          if isAutoReload
          then setPublished (published s ++ [pretty (autoReloadRevision s)]) s
          else s in
        setPc AtSleep (setAutoReloadRevision (S (autoReloadRevision s1)) s1)
      else setPc AtRetry s
  | AtRetry => notifyLoop s
  | Crashed => s
  end.

(** [dev] run through the given ticks. *)
Definition dev (ticks : list Tick) : DevState := fold_left (fun s t => step t s) ticks initial.

End Dev.

(** ** A small project to run the definitions on *)

Module Example.

Definition exampleConfig : BundlerConfig :=
  {| assetsDir := "assets"; autoReload := true; backendDir := "backend";
     backendLanguage := Some rust; bundleDir := ".bundle"; frontendAlias := "@";
     frontendDir := "frontend"; templateDir := "templates"; tempDir := "temp" |}.

(** A stand-in for [Bun.hash]: a polynomial hash of the bytes, on 64 bits. *)
Definition polyHash (bytes : list Byte.byte) : N :=
  fold_left (fun h b => ((h * 1099511628211 + Byte.to_N b + 1) mod 2 ^ 64)%N) bytes 0%N.

Definition fileText (files : list (string * string)) (path : string) : option string :=
  mapGet files path.

(** The stand-in for rolldown takes every entry as a one-module bundle and
    names its chunk after the module. *)
Definition nextModule (files : list (string * string)) (inputs : list string)
    (done : list (string * string)) : option (string * string) :=
  match List.filter (fun id => negb (mapHas done id)) inputs with
  | id :: _ => Some (default "" (fileText files id), id)
  | [] => None
  end.

Definition writeChunks (inputs : list string) (transformed : list (string * string))
    (inline : bool) : option (list OutputItem) :=
  Some (map (fun m =>
               {| isChunk := true; isEntry := true; facadeModuleId := Some (fst m);
                  fileName := Path.name (Path.parse (fst m)) +:+ ".chunk.js";
                  code := snd m |})
            transformed).

(** The project at [/project] with the given source files and templates; a
    template's text is the markup it renders. *)
Definition project (cmd : string) (files : list (string * string)) (templates : list string)
    (hash : list Byte.byte -> N) : Env :=
  {| cwd := "/project";
     config := exampleConfig;
     command := cmd;
     isProduction := false;
     moduleDir := "/opt/tiny-bundler/src";
     now := 1700000000000%N;
     existsSync := mapHas files;
     Bun_hash := hash;
     readBytes := fun p => String.list_byte_of_string <$> fileText files p;
     readText := fileText files;
     sharp_resize := fun buffer width => Some (take 4 buffer);
     tailwind := fun css base => Some css;
     transformCss := fun css file minify => Some css;
     rolldown_next := nextModule files;
     rolldown_write := writeChunks;
     scanTemplates := templates;
     Bun_build := fun p => Some (fileText files p);
     importDefault := fun text => Some (Some text);
     prettier_format := fun text => Some text |}.

Definition emptyState : BuildState := {| replacers := []; disk := []; log := [] |}.

(** [/project/frontend] holds a logo, two images, a stylesheet, a font and
    a page. *)
Definition siteFiles (indexMarkup cssText : string) : list (string * string) :=
  [("/project/frontend/assets/logo.png", "PNG-logo-bytes");
   ("/project/frontend/img/a.png", "PNG-a-bytes");
   ("/project/frontend/img/b.png", "PNG-b-bytes");
   ("/project/frontend/style.css", cssText);
   ("/project/frontend/font.woff2", "WOFF2");
   ("/project/frontend/templates/index.ts", indexMarkup)].

(** A process with the [Bun.hash] of the runtime. *)
Definition bun : Env := project "bundle" [] [] Bun_hash_wyhash.

Definition site (indexMarkup cssText : string) : Env :=
  project "bundle" (siteFiles indexMarkup cssText) ["templates/index.ts"] polyHash.

(** A page with a stylesheet, an image referenced twice, the same image
    at a width, and a font; the stylesheet refers to one image in quotes
    and to another without. *)
Definition page : Env :=
  site "<link href='@/style.css'><img src='@/img/a.png'><img src='@/img/a.png?w=10'><img src='@/img/a.png'><a href='@/font.woff2'><a href='@/font.woff2'>"
       "body{background:url('@/img/b.png')} i{background:url(@/img/a.png)}".

(** The same project under [dev], with a backend and auto reload. *)
Definition devProject : Env := project "dev" [] [] polyHash.

(** The configuration of [example/bundler.config.ts]: auto reload, no
    backend. *)
Definition frontendOnlyConfig : BundlerConfig :=
  {| assetsDir := "assets"; autoReload := true; backendDir := "backend";
     backendLanguage := None; bundleDir := ".bundle"; frontendAlias := "@";
     frontendDir := "frontend"; templateDir := "templates"; tempDir := "temp" |}.

(** [e] with the configuration [c]. *)
Definition withConfig (c : BundlerConfig) (e : Env) : Env :=
  {| cwd := @cwd e; config := c; command := @command e; isProduction := @isProduction e;
     moduleDir := @moduleDir e; now := @now e; existsSync := @existsSync e;
     Bun_hash := @Bun_hash e; readBytes := @readBytes e; readText := @readText e;
     sharp_resize := @sharp_resize e; tailwind := @tailwind e;
     transformCss := @transformCss e; rolldown_next := @rolldown_next e;
     rolldown_write := @rolldown_write e; scanTemplates := @scanTemplates e;
     Bun_build := @Bun_build e; importDefault := @importDefault e;
     prettier_format := @prettier_format e |}.

Definition frontendOnly : Env := withConfig frontendOnlyConfig devProject.

(** What the loop finds when it resumes: the frontend files, whether the
    ping connects; nothing has exited, the spawn succeeds. *)
Definition tick (frontend : list (string * list Byte.byte)) (ping : bool) : Tick :=
  {| exited := []; frontendFiles := frontend; bundleFiles := []; backendFiles := [];
     bundleThrew := false; pingOk := ping; spawnOk := true |}.

Definition mainV1 : list (string * list Byte.byte) :=
  [("/project/frontend/main.ts", String.list_byte_of_string "v1")].

Definition mainV2 : list (string * list Byte.byte) :=
  [("/project/frontend/main.ts", String.list_byte_of_string "v2")].

(** A page that links the same empty stylesheet twice. *)
Definition emptyCssPage : Env :=
  site "<link href='@/style.css'><link href='@/style.css'>" "".




Definition stateOf (o : outcome unit) : BuildState :=
  match o with
  | Done _ st | Thrown st => st
  | OutOfFuel => emptyState
  end.

Definition pageBuilt : BuildState := stateOf (@bundle page 5 emptyState).

Definition emptyCssPageBuilt : BuildState := stateOf (@bundle emptyCssPage 5 emptyState).


End Example.

(** ** Traces

    Every change a build makes to its table and to the disk is logged by
    the operation that makes it, so the state after a computation is the
    state before it with the logged events replayed. *)

Definition applyEvent (st : BuildState) (e : event) : BuildState :=
  {| replacers :=
       match e with
       | EvSet k v => mapSet (replacers st) k v
       | _ => replacers st
       end;
     disk :=
       match e with
       | EvWrite p c => diskWrite (disk st) p c
       | EvRemove p => diskRemove (disk st) p
       | _ => disk st
       end;
     log := log st ++ [e] |}.

Definition replay (evs : list event) (st : BuildState) : BuildState :=
  fold_left applyEvent evs st.

(** Events that change neither the table nor the disk. *)
Definition observation (e : event) : bool :=
  match e with
  | EvSet _ _ | EvWrite _ _ | EvRemove _ => false
  | _ => true
  end.

(** A property of traces that the empty trace has and that two traces
    pass on to their concatenation. *)
Class TraceProp : Type := {
  holds : list event -> Prop;
  holds_nil : holds [];
  holds_app : forall evs1 evs2, holds evs1 -> holds evs2 -> holds (evs1 ++ evs2);
}.

(** [m] changes the state only by a trace that satisfies [Q]. *)
Definition traced (Q : TraceProp) {A} (m : M A) : Prop :=
  forall st,
    match m st with
    | Done _ st' | Thrown st' => exists evs, st' = replay evs st /\ holds evs
    | OutOfFuel => True
    end.

(** The events of the part of a build that fills the table. *)
Definition processEvent (e : event) : Prop :=
  match e with
  | EvRemove _ => False
  | EvSubstitute (Markup _) _ => False
  | _ => True
  end.

(** The same, apart from [EvHash], which [processFile] emits together
    with the insertion and the write that follow it. *)
Definition stepEvent (e : event) : Prop :=
  match e with
  | EvHash _ _ => False
  | _ => processEvent e
  end.

(** A trace property that the steps of the table-filling part have. *)
Class ProcessProp (Q : TraceProp) : Prop := {
  holds_step : forall e, stepEvent e -> holds [e];
  holds_finish : forall a h r p c, holds [EvHash a h; EvSet a r; EvWrite p c];
}.

(** The keys an event list sets, in order. *)
Definition setKeys (evs : list event) : list string :=
  omap (fun e => match e with EvSet k _ => Some k | _ => None end) evs.

(** The paths an event list writes. *)
Definition writtenPaths (evs : list event) : list string :=
  omap (fun e => match e with EvWrite p _ => Some p | _ => None end) evs.

(** The events of the part of a build that reads the table [table]. *)
Definition markupEvent (table : list (string * string)) (e : event) : Prop :=
  match e with
  | EvSubstitute (Markup _) t => t = table
  | EvWrite _ _ => True
  | _ => False
  end.

(** The key the markup loop of [bundle] looks up for a match: the whole
    match for an inline script, the token otherwise. *)
Definition markupKey {E : Env} (m : string * string) : string :=
  match resolveAlias (snd m) with
  | Some (resourcePath, querystring) =>
      let ext := JS.toLowerCase (Path.extname resourcePath) in
      if (String.eqb ext ".js" || String.eqb ext ".ts")
         && JS.has (JS.URLSearchParams querystring) "inline"
      then fst m else snd m
  | None => snd m
  end.

Definition countEvents (f : event -> bool) (evs : list event) : nat :=
  length (List.filter f evs).

Definition isResolveOf (a : string) (e : event) : bool :=
  match e with EvResolve b => String.eqb a b | _ => false end.

Definition isCompileOf (p : string) (e : event) : bool :=
  match e with EvCompileCss q => String.eqb p q | _ => false end.

(** The part of a token before its first [?]. *)
Definition beforeQuery (token : string) : string :=
  JS.takeWhile (fun c => negb (Ascii.eqb c "?")) token.

(** *** Markup whose references are set off by a marker

    [freeOf m s]: the character [m] does not occur in [s];
    [headedBy m s]: [s] begins with [m], which occurs nowhere else in it. *)
Fixpoint freeOf (m : ascii) (s : string) : bool :=
  match s with
  | EmptyString => true
  | String c rest => negb (Ascii.eqb c m) && freeOf m rest
  end.

Definition headedBy (m : ascii) (s : string) : bool :=
  match s with
  | String c rest => Ascii.eqb c m && freeOf m rest
  | EmptyString => false
  end.

(** One of [a] and [b] begins with the other. *)
Definition comparable (a b : string) : bool := String.prefix a b || String.prefix b a.

(** A table entry: the key is headed by the marker, the value holds
    neither the marker nor a dollar sign. *)
Definition markedEntry (m : ascii) (e : string * string) : bool :=
  headedBy m (fst e) && freeOf m (snd e) && freeOf "$" (snd e).

(** No key begins with another. *)
Definition prefixFree (ks : list string) : bool :=
  forallb (fun k1 => forallb (fun k2 => implb (String.prefix k1 k2) (String.eqb k1 k2)) ks) ks.

(** A piece of markup: text without the marker, or text headed by the
    marker that begins with a key or differs from every key at some
    position. *)
Definition pieceOk (m : ascii) (ks : list string) (p : string) : bool :=
  freeOf m p ||
  (headedBy m p &&
   (existsb (fun k => String.prefix k p) ks || forallb (fun k => negb (comparable k p)) ks)).

Definition flatten (pieces : list string) : string := fold_right String.append "" pieces.

(** The piece with the key at its head replaced. *)
Definition rewritePiece (k v p : string) : string :=
  if String.prefix k p then v +:+ JS.drop (String.length k) p else p.

(** [pieceOk] as a proposition, over the keys [K]. *)
Definition okP (m : ascii) (K : list string) (p : string) : Prop :=
  freeOf m p = true \/
  (headedBy m p = true /\
   ((exists k, k ∈ K /\ String.prefix k p = true) \/
    (forall k, k ∈ K -> comparable k p = false))).

(** The entries of [tbl] are entries of a table with the keys [K]: the
    values hold neither the marker nor a dollar sign. *)
Definition entriesOk (m : ascii) (K : list string) (tbl : list (string * string)) : Prop :=
  forall e, e ∈ tbl -> fst e ∈ K /\ freeOf m (snd e) = true /\ freeOf "$" (snd e) = true.

(** A piece after the pass of every entry of [tbl], in order. *)
Definition rewriteAll (tbl : list (string * string)) (p : string) : string :=
  fold_left (fun q e => rewritePiece (fst e) (snd e) q) tbl p.

(** The extensions [processFile] takes for images. *)
Definition isImageExt (ext : string) : bool :=
  String.eqb ext ".png" || String.eqb ext ".jpg" || String.eqb ext ".jpeg".

(** The digits of base 36. *)
Definition isBase36 (c : ascii) : bool :=
  let n := nat_of_ascii c in
  ((48 <=? n)%nat && (n <=? 57)%nat) || ((97 <=? n)%nat && (n <=? 122)%nat).

(** The extensions [processFile] and the markup loop take for scripts, and
    the extensions [processFile] makes an artifact for. *)
Definition isScriptExt (ext : string) : bool := String.eqb ext ".js" || String.eqb ext ".ts".

Definition supportedExt (ext : string) : bool :=
  isScriptExt ext || String.eqb ext ".png" || String.eqb ext ".jpg" || String.eqb ext ".jpeg"
  || String.eqb ext ".css".

(** [alias] resolves to the script [p]. *)
Definition scriptAlias {E : Env} (alias p : string) : Prop :=
  (exists q, resolveAlias alias = Some (p, q)) /\
  isScriptExt (JS.toLowerCase (Path.extname p)) = true.

(** An entry for an asset: the key is a token that resolves to a file of
    a supported kind, the value is a route below the assets directory. *)
Definition assetEntry {E : Env} (k v : string) : Prop :=
  exists p q f,
    resolveAlias k = Some (p, q) /\
    supportedExt (JS.toLowerCase (Path.extname p)) = true /\
    v = "/" +:+ assetsDir config +:+ "/" +:+ f.

(** An entry for an inline script: the key is a whole match, quotes
    included, of a token that resolves to a script and asks for
    [inline]; the value is the script's code. *)
Definition inlineEntry {E : Env} (k : string) : Prop :=
  exists q1 q2 token p q,
    isQuote q1 = true /\ isQuote q2 = true /\
    k = String q1 (token +:+ String q2 "") /\
    resolveAlias token = Some (p, q) /\
    isScriptExt (JS.toLowerCase (Path.extname p)) = true /\
    JS.has (JS.URLSearchParams q) "inline" = true.

(** Every insertion of a trace is one of the two. *)
Definition tableEvent {E : Env} (e : event) : Prop :=
  match e with
  | EvSet k v => assetEntry k v \/ inlineEntry k
  | _ => True
  end.

(** What a trace does with what it hashes: the table gets the route that
    carries the digest, and the content that was hashed is written to the
    path of that route. *)
Definition hashedIsWritten {E : Env} (evs : list event) : Prop :=
  forall a h,
    EvHash a h ∈ evs ->
    exists p c,
      h = generateHash c /\
      EvSet a (route (generateRoute p h)) ∈ evs /\
      EvWrite (outPath (generateRoute p h)) c ∈ evs.

(** The scripts collected for the batch: every alias resolves to the
    script it is listed with. *)
Definition scriptEntries {E : Env} (ss : list (string * string)) : Prop :=
  forall p a, (p, a) ∈ ss -> scriptAlias a p.

(** What the dev loop keeps about reload messages: the messages sent so
    far are the revisions below the counter, in order; and [notify] is
    waiting only under auto reload, with a backend handle set. *)
Definition reloadInvariant {E : Env} (s : DevState) : Prop :=
  published s = map pretty (seq 0 (autoReloadRevision s)) /\
  (pc s = AtPing \/ pc s = AtRetry -> isAutoReload = true /\ is_Some (webServer s)).

(** [m] changes the state only by a trace that satisfies [Q], and what it
    returns satisfies [R]. *)
Definition tracedR (Q : TraceProp) {A} (R : A -> Prop) (m : M A) : Prop :=
  forall st,
    match m st with
    | Done a st' => (exists evs, st' = replay evs st /\ holds evs) /\ R a
    | Thrown st' => exists evs, st' = replay evs st /\ holds evs
    | OutOfFuel => True
    end.

(** A replacement text in which no [$] begins one of the patterns [$$],
    [$&], [$`] and [$']: [replace] and [replaceAll] insert it as it is. *)
Fixpoint noPattern (tmpl : string) : bool :=
  match tmpl with
  | EmptyString => true
  | String c rest =>
      (if Ascii.eqb c "$" then
         match rest with
         | EmptyString => true
         | String d _ =>
             negb (Ascii.eqb d "$" || Ascii.eqb d "&" || Ascii.eqb d "`" || Ascii.eqb d "'")
         end
       else true)
      && noPattern rest
  end.

(** The value of a base-36 digit, and the number a base-36 numeral
    stands for. *)
Definition digitValue36 (c : ascii) : N :=
  let n := N_of_ascii c in if (n <? 58)%N then (n - 48)%N else (n - 87)%N.

Fixpoint fromString36From (acc : N) (s : string) : N :=
  match s with
  | EmptyString => acc
  | String c rest => fromString36From (acc * 36 + digitValue36 c)%N rest
  end.

Definition fromString36 (s : string) : N := fromString36From 0 s.

Fixpoint allChars (f : ascii -> bool) (s : string) : bool :=
  match s with
  | EmptyString => true
  | String c rest => f c && allChars f rest
  end.

(** ** Properties *)

(** *** Traces of the monad's operations *)

Lemma replay_nil st : replay [] st = st.
Proof. reflexivity. Qed.

Lemma replay_app evs1 evs2 st : replay (evs1 ++ evs2) st = replay evs2 (replay evs1 st).
Proof. unfold replay. apply fold_left_app. Qed.

Section Traced.
Context {Q : TraceProp}.

Lemma traced_ret {A} (a : A) : traced Q (ret a).
Proof. intros st. exists []. split; [reflexivity | apply holds_nil]. Qed.

Lemma traced_throw {A} : traced Q (@throw A).
Proof. intros st. exists []. split; [reflexivity | apply holds_nil]. Qed.

Lemma traced_outOfFuel {A} : traced Q (@outOfFuel A).
Proof. intros st. exact I. Qed.

Lemma traced_try {A} (r : option A) : traced Q (try r).
Proof. destruct r; [apply traced_ret | apply traced_throw]. Qed.

Lemma traced_bind {A B} (m : M A) (k : A -> M B) :
  traced Q m -> (forall a, traced Q (k a)) -> traced Q (bind m k).
Proof.
  intros Hm Hk st. unfold bind. specialize (Hm st).
  destruct (m st) as [a st1 | st1 |]; [| exact Hm | exact I].
  destruct Hm as (evs1 & -> & H1). specialize (Hk a (replay evs1 st)).
  destruct (k a (replay evs1 st)) as [b st2 | st2 |]; [| | exact I];
    destruct Hk as (evs2 & -> & H2); exists (evs1 ++ evs2);
    (split; [symmetry; apply replay_app | apply holds_app; auto]).
Qed.

Lemma traced_events (evs : list event) (m : M unit) :
  holds evs -> (forall st, m st = Done tt (replay evs st)) -> traced Q m.
Proof. intros He Hm st. rewrite Hm. exists evs. split; [reflexivity | exact He]. Qed.

Lemma emit_applyEvent e st : observation e = true -> emit e st = Done tt (applyEvent st e).
Proof. destruct e; simpl; intros; try discriminate; reflexivity. Qed.

Lemma traced_emit e : holds [e] -> observation e = true -> traced Q (emit e).
Proof. intros He Ho. apply (traced_events [e]); [exact He | intros; apply emit_applyEvent, Ho]. Qed.

Lemma traced_replacersSet k v : holds [EvSet k v] -> traced Q (replacersSet k v).
Proof. intros He. apply (traced_events [EvSet k v]); [exact He | reflexivity]. Qed.

Lemma traced_write p c : holds [EvWrite p c] -> traced Q (write p c).
Proof. intros He. apply (traced_events [EvWrite p c]); [exact He | reflexivity]. Qed.

Lemma traced_replacersHas k : traced Q (replacersHas k).
Proof. intros st. exists []. split; [reflexivity | apply holds_nil]. Qed.

Lemma traced_getReplacers : traced Q getReplacers.
Proof. intros st. exists []. split; [reflexivity | apply holds_nil]. Qed.

Lemma traced_forEach {A} (xs : list A) (body : A -> M unit) :
  (forall x, traced Q (body x)) -> traced Q (forEach xs body).
Proof.
  intros Hb. induction xs as [| x xs IH]; simpl; [apply traced_ret |].
  apply traced_bind; [apply Hb | intros _; exact IH].
Qed.

Lemma traced_foldM {A B} (xs : list A) (acc : B) (body : B -> A -> M B) :
  (forall b x, traced Q (body b x)) -> traced Q (foldM xs acc body).
Proof.
  intros Hb. revert acc. induction xs as [| x xs IH]; intros acc; simpl; [apply traced_ret |].
  apply traced_bind; [apply Hb | intros b; apply IH].
Qed.

(** The hash, the insertion and the write that end [processFile]. *)
Lemma traced_finish `{!ProcessProp Q} a h r p c :
  traced Q (emit (EvHash a h) ;; replacersSet a r ;; write p c).
Proof.
  apply (traced_events [EvHash a h; EvSet a r; EvWrite p c]);
    [apply holds_finish | reflexivity].
Qed.

End Traced.

(** *** Traces of the build's closures *)

Ltac traced_step :=
  lazymatch goal with
  | |- traced _ (bind (emit (EvHash _ _)) _) => apply traced_finish
  | |- traced _ (bind _ _) => apply traced_bind; [| intros ?]
  | |- traced _ (ret _) => apply traced_ret
  | |- traced _ throw => apply traced_throw
  | |- traced _ outOfFuel => apply traced_outOfFuel
  | |- traced _ (try _) => apply traced_try
  | |- traced _ (emit _) => apply traced_emit; [apply holds_step; exact I | reflexivity]
  | |- traced _ (replacersSet _ _) => apply traced_replacersSet; apply holds_step; exact I
  | |- traced _ (write _ _) => apply traced_write; apply holds_step; exact I
  | |- traced _ (replacersHas _) => apply traced_replacersHas
  | |- traced _ getReplacers => apply traced_getReplacers
  | |- traced _ (forEach _ _) => apply traced_forEach; intros ?
  | |- traced _ (foldM _ _ _) => apply traced_foldM; intros ? ?
  | |- traced _ (if ?b then _ else _) => destruct b
  | |- traced _ (match ?x with _ => _ end) => destruct x
  end.

Section TracedBuild.
Context {E : Env} {Q : TraceProp} {QP : ProcessProp Q}.

Lemma traced_substitute_css p text : traced Q (substitute (CssText p) text).
Proof. unfold substitute. repeat traced_step. Qed.

Lemma traced_substitute_script id text : traced Q (substitute (ScriptText id) text).
Proof. unfold substitute. repeat traced_step. Qed.

Lemma traced_processImage p q : traced Q (processImage p q).
Proof. unfold processImage. repeat traced_step. Qed.

Lemma traced_processReferences pf text :
  (forall a r, traced Q (pf a r)) -> traced Q (processReferences pf text).
Proof. intros Hpf. unfold processReferences. repeat traced_step. apply Hpf. Qed.

Lemma traced_processCss pf p :
  (forall a r, traced Q (pf a r)) -> traced Q (processCss pf p).
Proof.
  intros Hpf. unfold processCss. repeat traced_step.
  - apply traced_processReferences, Hpf.
  - apply traced_substitute_css.
Qed.

Lemma traced_transformHandler pf code id :
  (forall a r, traced Q (pf a r)) -> traced Q (transformHandler pf code id).
Proof.
  intros Hpf. unfold transformHandler. repeat traced_step.
  - apply traced_processReferences, Hpf.
  - apply traced_substitute_script.
Qed.

Lemma traced_transformModules fuel pf inputs done :
  (forall a r, traced Q (pf a r)) -> traced Q (transformModules fuel pf inputs done).
Proof.
  intros Hpf. revert done. induction fuel as [| fuel IH]; intros done; simpl.
  - repeat traced_step.
  - destruct (rolldown_next inputs done) as [[code id] |]; [| apply traced_ret].
    apply traced_bind; [apply traced_transformHandler, Hpf | intros c; apply IH].
Qed.

Lemma traced_processScript fuel pf input :
  (forall a r, traced Q (pf a r)) -> traced Q (processScript fuel pf input).
Proof.
  intros Hpf. unfold processScript.
  apply traced_bind; [repeat traced_step | intros _].
  apply traced_bind; [apply traced_transformModules, Hpf | intros transformed].
  repeat traced_step.
Qed.

Lemma traced_processFile fuel a r : traced Q (processFile fuel a r).
Proof.
  revert a r. induction fuel as [| fuel IH]; intros a [p q]; simpl.
  - repeat traced_step. apply traced_processImage.
  - repeat traced_step.
    + apply traced_processScript, IH.
    + apply traced_processImage.
    + apply traced_processCss, IH.
Qed.

Lemma traced_processMatch fuel rawScripts m : traced Q (processMatch fuel rawScripts m).
Proof.
  unfold processMatch. apply traced_bind; [repeat traced_step | intros _].
  destruct (resolveAlias (snd m)) as [[p q] |]; [| apply traced_ret].
  repeat traced_step; try apply traced_processFile.
  apply traced_processScript. intros; apply traced_processFile.
Qed.

Lemma traced_processTemplate fuel version acc name :
  traced Q (processTemplate fuel version acc name).
Proof.
  unfold processTemplate. destruct acc as [rawHTMLs rawScripts].
  repeat traced_step. apply traced_processMatch.
Qed.

Lemma traced_processAll fuel : traced Q (processAll fuel).
Proof.
  unfold processAll. apply traced_bind; [| intros [rawHTMLs rawScripts]].
  - apply traced_foldM. intros; apply traced_processTemplate.
  - repeat traced_step. apply traced_processScript. intros; apply traced_processFile.
Qed.

End TracedBuild.

(** Every event of the trace satisfies [P]. *)
#[export] Program Instance everyEvent (P : event -> Prop) : TraceProp :=
  {| holds := Forall P |}.
Next Obligation. intros P. constructor. Qed.
Next Obligation. intros P evs1 evs2 H1 H2. apply Forall_app. auto. Qed.

#[export] Instance everyEvent_process : ProcessProp (everyEvent processEvent).
Proof. split; intros; repeat constructor. destruct e; simpl in *; tauto. Qed.

(** *** What replaying a trace does to the log, the disk and the table *)

Lemma log_replay evs st : log (replay evs st) = log st ++ evs.
Proof.
  revert st. induction evs as [| e evs IH]; intros st; simpl.
  - symmetry. apply app_nil_r.
  - unfold replay in IH. rewrite IH. simpl. rewrite <- app_assoc. reflexivity.
Qed.

Lemma find_filter_neq (d : list (string * data)) p q :
  p <> q ->
  List.find (fun e => String.eqb (fst e) p) (List.filter (fun e => negb (String.eqb (fst e) q)) d)
  = List.find (fun e => String.eqb (fst e) p) d.
Proof.
  intros Hne. induction d as [| [k c] d IH]; simpl; [reflexivity |].
  destruct (String.eqb_spec k q) as [-> | Hkq]; simpl.
  - destruct (String.eqb_spec q p) as [-> | _]; [congruence | exact IH].
  - destruct (String.eqb k p); [reflexivity | exact IH].
Qed.

Lemma diskGet_write d p c q :
  diskGet (diskWrite d p c) q = if String.eqb p q then Some c else diskGet d q.
Proof.
  unfold diskGet, diskWrite. simpl.
  destruct (String.eqb_spec p q) as [-> | Hne]; [reflexivity |].
  rewrite find_filter_neq by congruence. reflexivity.
Qed.



Lemma mapHas_set m k v k' : mapHas (mapSet m k v) k' = String.eqb k k' || mapHas m k'.
Proof.
  unfold mapHas. induction m as [| [a b] m IH]; simpl.
  - destruct (String.eqb k k'); reflexivity.
  - destruct (String.eqb_spec a k) as [-> | Hne]; simpl.
    + destruct (String.eqb k k'); reflexivity.
    + destruct (String.eqb_spec a k') as [-> | _]; simpl.
      * destruct (String.eqb k k'); reflexivity.
      * exact IH.
Qed.

Lemma setKeys_cons e evs :
  setKeys (e :: evs) = match e with EvSet k _ => k :: setKeys evs | _ => setKeys evs end.
Proof. destruct e; reflexivity. Qed.

(** Keys are never removed: a key is in the table after a trace exactly
    when it was there before or the trace set it. *)
Lemma mapHas_replay evs st k :
  mapHas (replacers (replay evs st)) k = mapHas (replacers st) k || bool_decide (k ∈ setKeys evs).
Proof.
  revert st. induction evs as [| e evs IH]; intros st.
  - simpl. rewrite orb_false_r. reflexivity.
  - change (replay (e :: evs) st) with (replay evs (applyEvent st e)).
    rewrite IH, setKeys_cons. destruct e; simpl; try reflexivity.
    rewrite mapHas_set.
    destruct (String.eqb_spec key k) as [-> | Hne].
    + rewrite (bool_decide_eq_true_2 (k ∈ k :: setKeys evs)) by (left).
      simpl. rewrite !orb_true_r. reflexivity.
    + rewrite orb_false_l. f_equal. apply bool_decide_ext. rewrite elem_of_cons.
      split; [intros H; right; exact H | intros [H | H]; [congruence | exact H]].
Qed.

Lemma keys_mapSet m k v :
  keys (mapSet m k v) = if mapHas m k then keys m else keys m ++ [k].
Proof.
  unfold keys, mapHas. induction m as [| [a b] m IH]; simpl; [reflexivity |].
  destruct (String.eqb_spec a k) as [-> | Hne]; simpl; [reflexivity |].
  rewrite IH. destruct (mapGet m k); reflexivity.
Qed.

Lemma mapHas_keys m k : mapHas m k = true <-> k ∈ keys m.
Proof.
  unfold keys, mapHas. induction m as [| [a b] m IH]; simpl.
  - split; [discriminate | intros H; inversion H].
  - rewrite elem_of_cons. destruct (String.eqb_spec a k) as [-> | Hne]; simpl.
    + split; auto.
    + rewrite IH. split; [auto | intros [? | ?]; [congruence | auto]].
Qed.

(** The table never holds two entries for a key. *)
Lemma NoDup_keys_mapSet m k v : NoDup (keys m) -> NoDup (keys (mapSet m k v)).
Proof.
  intros Hnd. rewrite keys_mapSet. destruct (mapHas m k) eqn:Hk; [exact Hnd |].
  apply NoDup_app. repeat split; [exact Hnd | | apply NoDup_singleton].
  intros x Hx Hx'. apply list_elem_of_singleton in Hx'. subst x.
  apply mapHas_keys in Hx. congruence.
Qed.

Lemma NoDup_keys_replay evs st :
  NoDup (keys (replacers st)) -> NoDup (keys (replacers (replay evs st))).
Proof.
  revert st. induction evs as [| e evs IH]; intros st Hnd; simpl; [exact Hnd |].
  apply IH. destruct e; simpl; try exact Hnd. apply NoDup_keys_mapSet, Hnd.
Qed.

(** *** The shape of a completed [bundle] *)

Lemma bind_Done {A B} (m : M A) (k : A -> M B) st b st' :
  bind m k st = Done b st' -> exists a st1, m st = Done a st1 /\ k a st1 = Done b st'.
Proof.
  unfold bind. destruct (m st) as [a st1 | st1 |]; try discriminate. eauto.
Qed.

Lemma traced_Done (Q : TraceProp) {A} (m : M A) st a st' :
  traced Q m -> m st = Done a st' -> exists evs, st' = replay evs st /\ holds evs.
Proof. intros Hm H. specialize (Hm st). rewrite H in Hm. exact Hm. Qed.

Section BundleShape.
Context {E : Env}.

Lemma replacers_replay_markup table evs st :
  Forall (markupEvent table) evs -> replacers (replay evs st) = replacers st.
Proof.
  revert st. induction evs as [| e evs IH]; intros st Hall; [reflexivity |].
  inversion Hall as [| ? ? He Hrest]; subst.
  change (replay (e :: evs) st) with (replay evs (applyEvent st e)).
  rewrite IH by exact Hrest. destruct e; simpl in He; try contradiction; reflexivity.
Qed.

Lemma writeMarkup_trace inlines entry st st' :
  writeMarkup inlines entry st = Done tt st' ->
  exists evs, st' = replay evs st /\ Forall (markupEvent (replacers st)) evs.
Proof.
  destruct entry as [name html]. unfold writeMarkup, substitute, bind, getReplacers, emit, ret.
  simpl. destruct (prettier_format _) as [formatted |]; simpl; [| discriminate].
  intros H. injection H as <-.
  eexists [EvSubstitute (Markup name) (replacers st); EvWrite _ (Text formatted)].
  split; [reflexivity | repeat constructor].
Qed.

Lemma forEach_writeMarkup_trace inlines entries st st' :
  forEach entries (writeMarkup inlines) st = Done tt st' ->
  exists evs, st' = replay evs st /\ Forall (markupEvent (replacers st)) evs.
Proof.
  revert st. induction entries as [| entry entries IH]; intros st; simpl.
  - intros H. injection H as <-. exists []. split; [reflexivity | constructor].
  - intros H. apply bind_Done in H as ([] & st1 & H1 & H2).
    apply writeMarkup_trace in H1 as (evs1 & -> & Hall1).
    apply IH in H2 as (evs2 & -> & Hall2).
    rewrite (replacers_replay_markup _ _ _ Hall1) in Hall2.
    exists (evs1 ++ evs2). split; [symmetry; apply replay_app | apply Forall_app; auto].
Qed.

(** A completed build is: the removal of the output directory, the
    events that fill the table, the removal of the scratch directory, the
    read of the reload snippet when there is one, and the events that read
    the table. *)
Lemma bundle_shape fuel st0 st :
  bundle fuel st0 = Done tt st ->
  exists evsP evsR evsS,
    st = replay evsS
           (replay (evsP ++ EvRemove (Path.join [cwd; bundleDir config; tempDir config]) :: evsR)
              {| replacers := [];
                 disk := diskRemove (disk st0) (Path.join [cwd; bundleDir config]);
                 log := log st0 ++ [EvRemove (Path.join [cwd; bundleDir config])] |}) /\
    Forall processEvent evsP /\
    Forall (fun e => exists p, e = EvRead p) evsR /\
    Forall (markupEvent (replacers st)) evsS.
Proof.
  unfold bundle. intros H.
  apply bind_Done in H as ([] & st1 & H1 & H). injection H1 as <-.
  apply bind_Done in H as ([] & st2 & H2 & H). injection H2 as <-.
  apply bind_Done in H as (rawHTMLs & st3 & H3 & H).
  apply (traced_Done (everyEvent processEvent) _ _ _ _ (traced_processAll fuel)) in H3
    as (evsP & -> & HP).
  apply bind_Done in H as ([] & st4 & H4 & H). injection H4 as <-.
  apply bind_Done in H as (inlines & st5 & H5 & H).
  assert (exists evsR, st5 = replay evsR
            (applyEvent (replay evsP
               {| replacers := [];
                  disk := diskRemove (disk st0) (Path.join [cwd; bundleDir config]);
                  log := log st0 ++ [EvRemove (Path.join [cwd; bundleDir config])] |})
               (EvRemove (Path.join [cwd; bundleDir config; tempDir config])))
          /\ Forall (fun e => exists p, e = EvRead p) evsR /\ replacers st5 = replacers
               (replay evsP
               {| replacers := [];
                  disk := diskRemove (disk st0) (Path.join [cwd; bundleDir config]);
                  log := log st0 ++ [EvRemove (Path.join [cwd; bundleDir config])] |}))
    as (evsR & -> & HR & Htable).
  { destruct isAutoReload.
    - apply bind_Done in H5 as ([] & st6 & H6 & H5). injection H6 as <-.
      apply bind_Done in H5 as (code & st7 & H7 & H5).
      destruct (readText _); [| discriminate]. injection H7 as <- <-. injection H5 as <- <-.
      eexists [EvRead _]. split; [reflexivity | split; [repeat constructor; eauto | reflexivity]].
    - injection H5 as <- <-. exists []. split; [reflexivity | split; [constructor | reflexivity]]. }
  apply forEach_writeMarkup_trace in H as (evsS & -> & HS).
  exists evsP, evsR, evsS. split; [| split; [exact HP | split; [exact HR |]]].
  - f_equal. rewrite replay_app. reflexivity.
  - rewrite (replacers_replay_markup _ _ _ HS). exact HS.
Qed.

End BundleShape.

(** *** C10: a build starts from an empty output directory *)



(** *** C3: when substitution passes run *)

(** C3, as the code has it.  The log of a completed build splits in two:
    a first part that holds every event that changes the table and no
    substitution of markup, and a second part that holds no change to the
    table, in which every substitution is one of markup and runs against
    the final table.  (Stylesheet and script text is substituted in the
    first part, against the table as it stands then.) *)
Theorem markup_substituted_after_process {E : Env} (fuel : nat) (st0 st : BuildState) :
  bundle fuel st0 = Done tt st ->
  exists evsP evsS,
    log st = log st0 ++ evsP ++ evsS /\
    Forall (fun e => match e with EvSubstitute (Markup _) _ => False | _ => True end) evsP /\
    Forall (markupEvent (replacers st)) evsS.
Proof.
  intros H. apply bundle_shape in H as (evsP & evsR & evsS & Hst & HP & HR & HS).
  exists (EvRemove (Path.join [cwd; bundleDir config])
            :: evsP ++ EvRemove (Path.join [cwd; bundleDir config; tempDir config]) :: evsR),
         evsS.
  split; [| split; [| exact HS]].
  - rewrite Hst, !log_replay. simpl. rewrite <- !app_assoc. reflexivity.
  - constructor; [exact I |]. apply Forall_app. split.
    + eapply Forall_impl; [exact HP |]. intros [] He; try exact I. destruct where_; simpl in *; tauto.
    + constructor; [exact I |]. eapply Forall_impl; [exact HR |]. intros e [p ->]. exact I.
Qed.

Lemma markup_substituted_after_process_witness :
  @bundle Example.page 5 Example.emptyState = Done tt Example.pageBuilt /\
  exists evsP evsS,
    log Example.pageBuilt = evsP ++ evsS /\
    Forall (fun e => match e with EvSubstitute (Markup _) _ => False | _ => True end) evsP /\
    Forall (markupEvent (replacers Example.pageBuilt)) evsS.
Proof.
  split; [vm_compute; reflexivity |].
  apply (@markup_substituted_after_process Example.page 5 Example.emptyState Example.pageBuilt).
  vm_compute; reflexivity.
Defined.

(** C3 as stated fails: in the build of [Example.page] the stylesheet is
    substituted against a table that does not yet hold [@/img/a.png], a key
    of the final table, and the text [@/img/a.png] stays in the stylesheet
    that is written. *)
Lemma css_substituted_against_partial_table :
  exists table,
    In (EvSubstitute (CssText "/project/frontend/style.css") table) (log Example.pageBuilt) /\
    mapHas table "@/img/a.png" = false /\
    mapHas (replacers Example.pageBuilt) "@/img/a.png" = true /\
    diskGet (disk Example.pageBuilt) "/project/.bundle/assets/style.2efyem4a.css"
    = Some (Text "body{background:url('/assets/b.65xfm3dp.png')} i{background:url(@/img/a.png)}").
Proof.
  exists [("@/img/b.png", "/assets/b.65xfm3dp.png")].
  split; [vm_compute; repeat (first [left; reflexivity | right]) |].
  repeat split; vm_compute; reflexivity.
Qed.

(** *** Strings *)

Lemma append_cons (c : ascii) (s t : string) : String c s +:+ t = String c (s +:+ t).
Proof. reflexivity. Qed.

Lemma append_nil_r (s : string) : s +:+ "" = s.
Proof. induction s as [| c s IH]; [reflexivity |]. rewrite append_cons, IH. reflexivity. Qed.

Lemma append_assoc (s t u : string) : (s +:+ t) +:+ u = s +:+ (t +:+ u).
Proof. induction s as [| c s IH]; [reflexivity |]. rewrite !append_cons, IH. reflexivity. Qed.

Lemma length_append (s t : string) :
  String.length (s +:+ t) = (String.length s + String.length t)%nat.
Proof. induction s as [| c s IH]; [reflexivity |]. rewrite append_cons. simpl. rewrite IH. reflexivity. Qed.

Lemma append_inj_l (a x y : string) : a +:+ x = a +:+ y -> x = y.
Proof. induction a as [| c a IH]; [auto |]. rewrite !append_cons. intros H. injection H. exact IH. Qed.

Lemma append_inj_r (b x y : string) : x +:+ b = y +:+ b -> x = y.
Proof.
  revert y. induction x as [| c x IH]; intros [| d y] H.
  - reflexivity.
  - apply (f_equal String.length) in H. rewrite !length_append in H. simpl in H. lia.
  - apply (f_equal String.length) in H. rewrite !length_append in H. simpl in H. lia.
  - rewrite !append_cons in H. injection H as -> H. f_equal. apply IH, H.
Qed.

Lemma length_take (n : nat) (s : string) :
  String.length (JS.take n s) = Nat.min n (String.length s).
Proof.
  revert s. induction n as [| n IH]; intros [| c s]; simpl; try reflexivity.
  rewrite IH. reflexivity.
Qed.

Lemma allChars_take f n s : allChars f s = true -> allChars f (JS.take n s) = true.
Proof.
  revert s. induction n as [| n IH]; intros [| c s]; simpl; try reflexivity.
  intros H. apply andb_true_iff in H as [Hc Hs]. rewrite Hc. apply IH, Hs.
Qed.

(** *** C5: [resolveAlias] *)

Lemma split_head (sep : ascii) (s : string) :
  JS.split sep s !! 0%nat = Some (JS.takeWhile (fun c => negb (Ascii.eqb c sep)) s).
Proof.
  induction s as [| c s IH]; simpl; [reflexivity |].
  destruct (Ascii.eqb c sep); simpl; [reflexivity |].
  destruct (JS.split sep s) as [| p ps]; simpl in *; [discriminate |].
  injection IH as ->. reflexivity.
Qed.

(** C5.  [resolveAlias token] answers exactly when the part of the token
    before its first [?] begins with the alias and a slash and the path
    under the alias root exists; the answer is that path with the query;
    in every other case it is [None].  With root [/project/frontend] and
    alias [@]: [@/assets/logo.png] resolves, [other/assets/logo.png] and
    [@/missing.png] do not. *)
Theorem resolveAlias_correct :
  (forall (E : Env) (token : string),
     let alias := beforeQuery token in
     let candidate := Path.join [aliasReplacement; JS.drop (String.length aliasFind) alias] in
     (is_Some (resolveAlias token) <->
        JS.startsWith alias (aliasFind +:+ "/") = true /\ existsSync candidate = true) /\
     (forall r, resolveAlias token = Some r ->
        r = (candidate, JS.split "?" token !! 1%nat))) /\
  @aliasReplacement Example.page = "/project/frontend" /\
  @aliasFind Example.page = "@" /\
  @resolveAlias Example.page "@/assets/logo.png"
    = Some ("/project/frontend/assets/logo.png", None) /\
  @resolveAlias Example.page "other/assets/logo.png" = None /\
  @existsSync Example.page "/project/frontend/missing.png" = false /\
  @resolveAlias Example.page "@/missing.png" = None.
Proof.
  split; [| repeat split; vm_compute; reflexivity].
  intros E token alias candidate. unfold resolveAlias. rewrite split_head.
  fold (beforeQuery token). fold alias. unfold JS.sliceFrom. fold candidate.
  destruct (JS.startsWith alias (aliasFind +:+ "/")); destruct (existsSync candidate); split;
    try (split; [intros [x Hx]; try discriminate; auto | intros [? ?]; try discriminate; eauto]);
    intros r Hr; try discriminate; congruence.
Qed.

(** *** C2: [generateHash] and [generateRoute] *)

Lemma length_toString36From_le (fuel : nat) (n : N) (acc : string) (k : nat) :
  (n < 36 ^ N.of_nat (S k))%N ->
  (String.length (JS.toString36From fuel n acc) <= String.length acc + S k)%nat.
Proof.
  revert n acc k. induction fuel as [| fuel IH]; intros n acc k Hn; simpl; [lia |].
  destruct (N.ltb_spec n 36) as [Hlt | Hge]; simpl; [lia |].
  destruct k as [| k].
  - change (36 ^ N.of_nat 1)%N with 36%N in Hn. lia.
  - specialize (IH (n / 36)%N (String (JS.digit36 (n mod 36)) acc) k).
    simpl in IH. etransitivity; [apply IH | lia].
    apply N.Div0.div_lt_upper_bound.
    replace (N.of_nat (S (S k))) with (N.succ (N.of_nat (S k))) in Hn by lia.
    rewrite N.pow_succ_r' in Hn. exact Hn.
Qed.

Lemma length_toString36From_ge (fuel : nat) (n : N) (acc : string) (k : nat) :
  (36 ^ N.of_nat k <= n)%N -> (n < 2 ^ N.of_nat fuel)%N ->
  (String.length acc + S k <= String.length (JS.toString36From fuel n acc))%nat.
Proof.
  revert n acc k. induction fuel as [| fuel IH]; intros n acc k Hk Hn.
  - change (2 ^ N.of_nat 0)%N with 1%N in Hn.
    assert (36 ^ N.of_nat k <> 0)%N by (apply N.pow_nonzero; lia). lia.
  - simpl. destruct (N.ltb_spec n 36) as [Hlt | Hge]; simpl.
    + destruct k as [| k]; [lia |].
      replace (N.of_nat (S k)) with (N.succ (N.of_nat k)) in Hk by lia.
      rewrite N.pow_succ_r' in Hk.
      assert (36 ^ N.of_nat k <> 0)%N by (apply N.pow_nonzero; lia). lia.
    + assert (Hfuel : (n / 36 < 2 ^ N.of_nat fuel)%N).
      { apply N.Div0.div_lt_upper_bound.
        replace (N.of_nat (S fuel)) with (N.succ (N.of_nat fuel)) in Hn by lia.
        rewrite N.pow_succ_r' in Hn. lia. }
      destruct k as [| k].
      * specialize (IH (n / 36)%N (String (JS.digit36 (n mod 36)) acc) 0%nat).
        simpl in IH. etransitivity; [| apply IH; [| exact Hfuel]]; [lia |].
        change (36 ^ N.of_nat 0)%N with 1%N.
        apply N.div_le_lower_bound; lia.
      * specialize (IH (n / 36)%N (String (JS.digit36 (n mod 36)) acc) k).
        simpl in IH. etransitivity; [| apply IH; [| exact Hfuel]]; [lia |].
        apply N.div_le_lower_bound; [lia |].
        replace (N.of_nat (S k)) with (N.succ (N.of_nat k)) in Hk by lia.
        rewrite N.pow_succ_r' in Hk. exact Hk.
Qed.

Lemma lt_pow2_log2 (n : N) : (n < 2 ^ N.of_nat (S (N.to_nat (N.log2 n))))%N.
Proof.
  destruct n as [| p]; [reflexivity |].
  replace (N.of_nat (S (N.to_nat (N.log2 (N.pos p))))) with (N.succ (N.log2 (N.pos p))) by lia.
  apply N.log2_spec. lia.
Qed.

Lemma isBase36_digit36 (d : N) : (d < 36)%N -> isBase36 (JS.digit36 d) = true.
Proof.
  intros Hd.
  assert (H : exists n, (n < 36)%nat /\ d = N.of_nat n) by (exists (N.to_nat d); lia).
  destruct H as (n & Hn & ->).
  do 36 (destruct n as [| n]; [reflexivity |]). lia.
Qed.

Lemma allChars_toString36From (fuel : nat) (n : N) (acc : string) :
  allChars isBase36 acc = true -> allChars isBase36 (JS.toString36From fuel n acc) = true.
Proof.
  revert n acc. induction fuel as [| fuel IH]; intros n acc Hacc; simpl; [exact Hacc |].
  assert (Hd : allChars isBase36 (String (JS.digit36 (n mod 36)) acc) = true).
  { simpl. rewrite Hacc, isBase36_digit36; [reflexivity |]. apply N.mod_lt. lia. }
  destruct (n <? 36)%N; [exact Hd | apply IH, Hd].
Qed.

Lemma length_toString36 (n : N) :
  (8 <= String.length (JS.toString36 n))%nat <-> (36 ^ 7 <= n)%N.
Proof.
  unfold JS.toString36. split.
  - intros Hlen. destruct (N.le_gt_cases (36 ^ 7) n) as [Hle | Hgt]; [exact Hle |].
    pose proof (length_toString36From_le (S (N.to_nat (N.log2 n))) n "" 6 Hgt) as H.
    change (String.length "") with 0%nat in H. lia.
  - intros Hle.
    pose proof (length_toString36From_ge (S (N.to_nat (N.log2 n))) n "" 7 Hle (lt_pow2_log2 n)) as H.
    change (String.length "") with 0%nat in H. lia.
Qed.

Lemma fromString36From_app (a : N) (s t : string) :
  fromString36From a (s +:+ t) = fromString36From (fromString36From a s) t.
Proof.
  revert a. induction s as [| c s IH]; intros a; [reflexivity |].
  rewrite append_cons. simpl. apply IH.
Qed.

Lemma digitValue36_digit36 (d : N) : (d < 36)%N -> digitValue36 (JS.digit36 d) = d.
Proof.
  intros Hd.
  assert (H : exists n, (n < 36)%nat /\ d = N.of_nat n) by (exists (N.to_nat d); lia).
  destruct H as (n & Hn & ->).
  do 36 (destruct n as [| n]; [reflexivity |]). lia.
Qed.

(** The digits [toString36From] puts before its accumulator are a numeral
    of [n]. *)
Lemma toString36From_digits (fuel : nat) (n : N) (acc : string) :
  (n < 2 ^ N.of_nat fuel)%N ->
  exists d, JS.toString36From fuel n acc = d +:+ acc /\ fromString36 d = n.
Proof.
  revert n acc. induction fuel as [| fuel IH]; intros n acc Hn.
  - exists "". split; [reflexivity |].
    change (2 ^ N.of_nat 0)%N with 1%N in Hn. unfold fromString36. simpl. lia.
  - simpl. destruct (N.ltb_spec n 36) as [Hlt | Hge].
    + exists (String (JS.digit36 (n mod 36)) ""). split; [reflexivity |].
      unfold fromString36. simpl. rewrite N.mod_small by exact Hlt.
      apply digitValue36_digit36, Hlt.
    + assert (Hfuel : (n / 36 < 2 ^ N.of_nat fuel)%N).
      { apply N.Div0.div_lt_upper_bound.
        replace (N.of_nat (S fuel)) with (N.succ (N.of_nat fuel)) in Hn by lia.
        rewrite N.pow_succ_r' in Hn. lia. }
      destruct (IH (n / 36)%N (String (JS.digit36 (n mod 36)) acc) Hfuel) as (d & Hd & Hv).
      exists (d +:+ String (JS.digit36 (n mod 36)) ""). split.
      * rewrite Hd, append_assoc. reflexivity.
      * unfold fromString36 in *. rewrite fromString36From_app, Hv. simpl.
        rewrite digitValue36_digit36 by (apply N.mod_lt; lia).
        pose proof (N.div_mod n 36). lia.
Qed.

Lemma fromString36_toString36 (n : N) : fromString36 (JS.toString36 n) = n.
Proof.
  unfold JS.toString36.
  destruct (toString36From_digits _ n "" (lt_pow2_log2 n)) as (d & Hd & Hv).
  rewrite Hd, append_nil_r. exact Hv.
Qed.

Lemma take_drop (n : nat) (s : string) : s = JS.take n s +:+ JS.drop n s.
Proof.
  revert s. induction n as [| n IH]; intros [| c s]; try reflexivity.
  simpl. rewrite append_cons. f_equal. apply IH.
Qed.

Lemma drop_short (n : nat) (s : string) :
  (String.length (JS.take n s) < n)%nat -> JS.drop n s = "".
Proof.
  revert s. induction n as [| n IH]; intros [| c s]; simpl; try lia; try reflexivity.
  intros H. apply IH. lia.
Qed.

(** C2, as the code has it.  The digest wraps nothing and pads nothing: it
    is the first eight base-36 digits of [Bun.hash], that is the numeral
    of the hash cut after eight digits and the whole numeral when that is
    shorter; hence of at most eight characters, and of exactly eight when
    the hash is at least [36^7]; it depends on the bytes only.  The route
    is [/assets/name.hash.ext], and two digests that differ give two
    routes that differ. *)
Theorem content_address {E : Env} :
  (forall input : data,
     (String.length (generateHash input) <= 8)%nat /\
     (String.length (generateHash input) = 8%nat <-> (36 ^ 7 <= Bun_hash (bytesOf input))%N) /\
     allChars isBase36 (generateHash input) = true /\
     exists rest,
       JS.toString36 (Bun_hash (bytesOf input)) = generateHash input +:+ rest /\
       fromString36 (generateHash input +:+ rest) = Bun_hash (bytesOf input) /\
       ((String.length (generateHash input) < 8)%nat -> rest = "")) /\
  (forall input1 input2 : data,
     bytesOf input1 = bytesOf input2 -> generateHash input1 = generateHash input2) /\
  (forall resourcePath hash : string,
     route (generateRoute resourcePath hash)
     = "/" +:+ assetsDir config +:+ "/" +:+ Path.name (Path.parse resourcePath)
         +:+ "." +:+ hash +:+ Path.ext (Path.parse resourcePath)) /\
  (forall (resourcePath : string) (input1 input2 : data),
     generateHash input1 <> generateHash input2 ->
     route (generateRoute resourcePath (generateHash input1))
     <> route (generateRoute resourcePath (generateHash input2))).
Proof.
  split; [| repeat split].
  - intros input. unfold generateHash, JS.slice. change (JS.drop 0 ?s) with s.
    change (8 - 0)%nat with 8%nat.
    set (numeral := JS.toString36 (Bun_hash (bytesOf input))).
    pose proof (length_toString36 (Bun_hash (bytesOf input))) as Hlen. fold numeral in Hlen.
    pose proof (length_take 8 numeral) as Htake.
    split; [lia |]. split; [split; intros H; [apply Hlen | apply Hlen in H]; lia |].
    split; [apply allChars_take, allChars_toString36From; reflexivity |].
    exists (JS.drop 8 numeral). rewrite <- take_drop.
    split; [reflexivity |]. split; [apply fromString36_toString36 | apply drop_short].
  - intros input1 input2 Hb. unfold generateHash. rewrite Hb. reflexivity.
  - intros resourcePath input1 input2 Hne Heq. apply Hne. unfold generateRoute in Heq. simpl in Heq.
    do 5 apply append_inj_l in Heq. apply append_inj_r in Heq. exact Heq.
Qed.

Lemma content_address_witness :
  @generateHash Example.page (Text "a") <> @generateHash Example.page (Text "b") /\
  route (@generateRoute Example.page "/project/frontend/img/a.png" (@generateHash Example.page (Text "a")))
  <> route (@generateRoute Example.page "/project/frontend/img/a.png" (@generateHash Example.page (Text "b"))).
Proof.
  split; [vm_compute; discriminate |].
  apply (proj2 (proj2 (proj2 (@content_address Example.page)))).
  vm_compute; discriminate.
Defined.

(** [Wyhash.hash] on the test vectors of Zig's standard library, and
    [Bun.hash] on the example of its documentation. *)
Lemma wyhash_vectors :
  Wyhash.hash 0 [] = 0x409638ee2bde459%N /\
  Wyhash.hash 1 (String.list_byte_of_string "a") = 0xa8412d091b5fe0a9%N /\
  Wyhash.hash 2 (String.list_byte_of_string "abc") = 0x32dd92e4b2915153%N /\
  Wyhash.hash 3 (String.list_byte_of_string "message digest") = 0x8619124089a3a16b%N /\
  Wyhash.hash 4 (String.list_byte_of_string "abcdefghijklmnopqrstuvwxyz")
  = 0x7a43afb61d7f5f40%N /\
  Wyhash.hash 5 (String.list_byte_of_string
                   "ABCDEFGHIJKLMNOPQRSTUVWXYZabcdefghijklmnopqrstuvwxyz0123456789")
  = 0xff42329b90e50d58%N /\
  Wyhash.hash 6 (String.list_byte_of_string
                   "12345678901234567890123456789012345678901234567890123456789012345678901234567890")
  = 0xc39cab13b115aad3%N /\
  Bun_hash_wyhash (String.list_byte_of_string "some data here") = 11562320457524636935%N.
Proof. repeat split; vm_compute; reflexivity. Qed.

(** C2 as stated fails: [Bun.hash] of the text [558816716] is
    74629157697, below [36^7], and its digest [ya89um9] has seven
    characters. *)
Lemma generateHash_not_fixed_width :
  @Bun_hash Example.bun (bytesOf (Text "558816716")) = 74629157697%N /\
  @generateHash Example.bun (Text "558816716") = "ya89um9" /\
  String.length (@generateHash Example.bun (Text "558816716")) <> 8%nat.
Proof.
  split; [vm_compute; reflexivity |].
  split; [vm_compute; reflexivity | vm_compute; discriminate].
Qed.

(** *** C9: images *)

(** C9, as the code has it.  The bytes go to the resize collaborator
    exactly when [Number] of the [w] parameter is truthy, that is when [w]
    is present and its value reads as a number other than zero; otherwise
    they pass unchanged.  Either way [processFile], for a token that is not
    yet a key, hashes the resulting bytes, inserts the route under the
    token and writes the bytes at the derived path. *)
Theorem image_processing {E : Env} (resourcePath : string) (querystring : option string)
    (st : BuildState) (buffer : list Byte.byte) :
  readBytes resourcePath = Some buffer ->
  let width := JS.Number (JS.get (JS.URLSearchParams querystring) "w") in
  (JS.truthy width = true <->
     exists v, JS.get (JS.URLSearchParams querystring) "w" = Some v /\
               JS.isNaN (JS.stringToNumber v) = false /\
               JS.truthy (JS.stringToNumber v) = true) /\
  (JS.truthy width = true ->
     forall resized, sharp_resize buffer width = Some resized ->
       processImage resourcePath querystring st
       = Done (Buffer resized) (replay [EvRead resourcePath; EvResize resourcePath width] st)) /\
  (JS.truthy width = false ->
     processImage resourcePath querystring st
     = Done (Buffer buffer) (replay [EvRead resourcePath] st)) /\
  (forall (fuel : nat) (resourceAlias : string) (content : data) (st1 : BuildState),
     isImageExt (JS.toLowerCase (Path.extname resourcePath)) = true ->
     mapHas (replacers st) resourceAlias = false ->
     processImage resourcePath querystring st = Done content st1 ->
     let r := generateRoute resourcePath (generateHash content) in
     processFile fuel resourceAlias (resourcePath, querystring) st
     = Done tt (replay [EvHash resourceAlias (generateHash content);
                        EvSet resourceAlias (route r);
                        EvWrite (outPath r) content] st1)).
Proof.
  intros Hread width. repeat split.
  - intros Ht. subst width. destruct (JS.get (JS.URLSearchParams querystring) "w") as [v |].
    + exists v. simpl in Ht. repeat split; [| exact Ht]. destruct (JS.stringToNumber v); auto.
    + discriminate.
  - intros (v & Hv & _ & Ht). subst width. rewrite Hv. exact Ht.
  - intros Ht resized Hres. unfold processImage. fold width.
    unfold bind, emit, try, ret. simpl. rewrite Hread, Ht. simpl.
    assert (Hn : JS.isNaN width = false) by (destruct width; [discriminate | reflexivity ..]).
    rewrite Hn. simpl. rewrite Hres. reflexivity.
  - intros Ht. unfold processImage. fold width.
    unfold bind, emit, try, ret. simpl. rewrite Hread, Ht. reflexivity.
  - intros fuel resourceAlias content st1 Hext Hnew Himg r.
    assert (Hbuf : exists bytes, content = Buffer bytes).
    { unfold processImage, bind, emit, try, ret in Himg. simpl in Himg. rewrite Hread in Himg.
      destruct (JS.truthy _ && negb (JS.isNaN _)); simpl in Himg.
      - destruct (sharp_resize _ _); [| discriminate]. injection Himg as <- _. eauto.
      - injection Himg as <- _. eauto. }
    destruct Hbuf as [bytes ->].
    assert (Hscript : String.eqb (JS.toLowerCase (Path.extname resourcePath)) ".js"
                      || String.eqb (JS.toLowerCase (Path.extname resourcePath)) ".ts" = false).
    { unfold isImageExt in Hext. apply orb_true_iff in Hext as [Hext | Hext];
        [apply orb_true_iff in Hext as [Hext | Hext] |];
        apply String.eqb_eq in Hext; rewrite Hext; reflexivity. }
    unfold isImageExt in Hext.
    destruct fuel; simpl; unfold bind at 1, replacersHas; rewrite Hnew; rewrite Hscript, Hext;
      unfold bind at 1; rewrite Himg; reflexivity.
Qed.

Lemma image_processing_witness :
  @readBytes Example.page "/project/frontend/img/a.png"
  = Some (String.list_byte_of_string "PNG-a-bytes") /\
  JS.truthy (JS.Number (JS.get (JS.URLSearchParams (Some "w=10")) "w")) = true /\
  @processImage Example.page "/project/frontend/img/a.png" (Some "w=10") Example.emptyState
  = Done (Buffer (String.list_byte_of_string "PNG-"))
      (replay [EvRead "/project/frontend/img/a.png";
               EvResize "/project/frontend/img/a.png" (JS.Finite 10)] Example.emptyState).
Proof.
  split; [vm_compute; reflexivity |]. split; [vm_compute; reflexivity |].
  apply (proj1 (proj2 (@image_processing Example.page "/project/frontend/img/a.png"
                         (Some "w=10") Example.emptyState
                         (String.list_byte_of_string "PNG-a-bytes") eq_refl)));
    vm_compute; reflexivity.
Defined.

(** [Number] trims the white space of ECMA-262, not only that of ASCII:
    a width written after a no-break space is a width, and the image is
    resized to it. *)
Lemma width_after_no_break_space :
  JS.Number (JS.get (JS.URLSearchParams (Some "w=%C2%A05")) "w") = JS.Finite 5 /\
  @processImage Example.page "/project/frontend/img/a.png" (Some "w=%C2%A05") Example.emptyState
  = Done (Buffer (String.list_byte_of_string "PNG-"))
      (replay [EvRead "/project/frontend/img/a.png";
               EvResize "/project/frontend/img/a.png" (JS.Finite 5)] Example.emptyState).
Proof. split; vm_compute; reflexivity. Qed.

(** C9 as stated fails: [w=0] is present and numeric, and the bytes are
    not resized. *)
Lemma zero_width_is_not_resized :
  JS.get (JS.URLSearchParams (Some "w=0")) "w" = Some "0" /\
  JS.Number (Some "0") = JS.Finite 0 /\
  JS.isNaN (JS.Number (Some "0")) = false /\
  @processImage Example.page "/project/frontend/img/a.png" (Some "w=0") Example.emptyState
  = Done (Buffer (String.list_byte_of_string "PNG-a-bytes"))
      (replay [EvRead "/project/frontend/img/a.png"] Example.emptyState).
Proof. repeat split; vm_compute; reflexivity. Qed.

(** *** The dev loop *)

Section DevProperties.
Context {E : Env}.

Lemma dev_snoc ticks t : dev (ticks ++ [t]) = step t (dev ticks).
Proof. unfold dev. rewrite fold_left_app. reflexivity. Qed.

Lemma exits_length (pids : list nat) (ps : list bool) :
  length (fold_left (fun ps pid => <[pid := false]> ps) pids ps) = length ps.
Proof.
  revert ps. induction pids as [| pid pids IH]; intros ps; simpl; [reflexivity |].
  rewrite IH. apply length_insert.
Qed.

Lemma exits_alive (pids : list nat) (ps : list bool) (p : nat) :
  fold_left (fun ps pid => <[pid := false]> ps) pids ps !! p = Some true -> ps !! p = Some true.
Proof.
  revert ps. induction pids as [| pid pids IH]; intros ps; simpl; [auto |].
  intros H. apply IH in H. destruct (decide (pid = p)) as [-> | Hne].
  - destruct (decide (p < length ps)%nat) as [Hlt | Hge].
    + rewrite list_lookup_insert_eq in H by exact Hlt. discriminate.
    + rewrite list_insert_ge in H by lia. exact H.
  - rewrite list_lookup_insert_ne in H by exact Hne. exact H.
Qed.

(** What holds whenever the loop is suspended: a live process is the one
    the handle names; the handle names a process that was spawned; the
    loop polls only a process it has signalled; and while [notify] waits,
    its signal is not aborted. *)
Definition devInvariant (s : DevState) : Prop :=
  (forall p, procs s !! p = Some true -> webServer s = Some p) /\
  (forall p, webServer s = Some p -> (p < length (procs s))%nat) /\
  (pc s = AtPoll -> exists p, webServer s = Some p /\ p ∈ signals s) /\
  (pc s = AtPing \/ pc s = AtRetry -> controllers s !! signal s = Some false).

Lemma devInvariant_initial : devInvariant initial.
Proof.
  repeat split; simpl; discriminate.
Qed.

Lemma devInvariant_applyExits pids s : devInvariant s -> devInvariant (applyExits pids s).
Proof.
  intros (Ha & Hh & Hp & Hn). repeat split; simpl; auto.
  - intros p H. apply exits_alive in H. auto.
  - intros p H. rewrite exits_length. auto.
Qed.

(** The invariant looks at the program counter only to see whether the
    loop polls or waits in [notify]. *)
Lemma devInvariant_setPc p s :
  devInvariant s -> p <> AtPoll -> p <> AtPing -> p <> AtRetry -> devInvariant (setPc p s).
Proof.
  intros (Ha & Hh & _ & _) H1 H2 H3. repeat split; simpl; auto; try congruence.
  intros [? | ?]; congruence.
Qed.

Lemma devInvariant_notifyLoop s :
  devInvariant s -> is_Some (controllers s !! signal s) -> devInvariant (notifyLoop s).
Proof.
  intros Hinv [aborted Hc]. unfold notifyLoop. rewrite Hc. destruct aborted; simpl.
  - apply devInvariant_setPc; [exact Hinv | discriminate ..].
  - destruct Hinv as (Ha & Hh & _ & _). repeat split; simpl; auto; discriminate.
Qed.

Lemma devInvariant_spawnServer t s :
  devInvariant s -> (forall p, procs s !! p <> Some true) -> devInvariant (spawnServer t s).
Proof.
  intros Hinv Hdead. unfold spawnServer. destruct (spawnOk t);
    [| apply devInvariant_setPc; [exact Hinv | discriminate ..]].
  assert (Ha : forall p, (procs s ++ [true]) !! p = Some true -> Some (length (procs s)) = Some p).
  { intros p H. destruct (decide (p < length (procs s))%nat) as [Hlt | Hge].
    - rewrite lookup_app_l in H by exact Hlt. destruct (Hdead p H).
    - apply lookup_lt_Some in H. rewrite length_app in H. simpl in H. f_equal. lia. }
  assert (Hh : forall p, Some (length (procs s)) = Some p -> (p < length (procs s ++ [true]))%nat).
  { intros p H. injection H as <-. rewrite length_app. simpl. lia. }
  destruct isAutoReload.
  - unfold notify, notifyLoop. simpl.
    rewrite lookup_app_r by lia. rewrite Nat.sub_diag. simpl.
    repeat split; simpl; auto; try discriminate.
    intros _. rewrite lookup_app_r by lia. rewrite Nat.sub_diag. reflexivity.
  - repeat split; simpl; auto; try discriminate. intros [? | ?]; discriminate.
Qed.

Lemma devInvariant_pollKilled t pid s :
  devInvariant s -> webServer s = Some pid -> pid ∈ signals s ->
  devInvariant (pollKilled t pid s).
Proof.
  intros Hinv Hweb Hsig. unfold pollKilled, killed.
  destruct (procs s !! pid) as [[|] |] eqn:Hp; simpl.
  - destruct Hinv as (Ha & Hh & _ & _). repeat split; simpl; auto.
    + intros _. eauto.
    + intros [? | ?]; discriminate.
  - apply devInvariant_spawnServer; [exact Hinv |].
    intros p H. destruct Hinv as (Ha & _). pose proof (Ha p H). congruence.
  - apply devInvariant_spawnServer; [exact Hinv |].
    intros p H. destruct Hinv as (Ha & _). pose proof (Ha p H). congruence.
Qed.

Lemma devInvariant_superviseBackend t s :
  devInvariant s -> pc s <> AtPoll -> pc s <> AtPing -> pc s <> AtRetry ->
  devInvariant (superviseBackend t s).
Proof.
  intros Hinv Hp1 Hp2 Hp3. unfold superviseBackend.
  destruct (backendLanguage config) as [[] |];
    [| apply devInvariant_setPc; [exact Hinv | discriminate ..]].
  assert (Hany : forall ctl sigs next,
            devInvariant (setSignals sigs (setControllers ctl (setPreviousBackend next s)))).
  { intros ctl sigs next. destruct Hinv as (Ha & Hh & _ & _).
    repeat split; simpl; auto; try congruence. intros [? | ?]; congruence. }
  assert (Hany' : forall ctl next,
            devInvariant (setControllers ctl (setPreviousBackend next s))).
  { intros ctl next. destruct Hinv as (Ha & Hh & _ & _).
    repeat split; simpl; auto; try congruence. intros [? | ?]; congruence. }
  destruct (_ || _); simpl.
  - destruct (webServer s) as [pid |] eqn:Hweb.
    + apply devInvariant_pollKilled; [apply Hany | exact Hweb |].
      simpl. apply elem_of_app. right. left.
    + apply devInvariant_spawnServer; [apply Hany' |].
      simpl. intros p H. destruct Hinv as (Ha & _). apply Ha in H. congruence.
  - apply devInvariant_setPc; [| discriminate ..].
    destruct Hinv as (Ha & Hh & _ & _).
    repeat split; simpl; auto; try congruence. intros [? | ?]; congruence.
Qed.

Lemma devInvariant_step t s : devInvariant s -> devInvariant (step t s).
Proof.
  intros Hinv0. unfold step.
  pose proof (devInvariant_applyExits (exited t) s Hinv0) as Hinv.
  set (s1 := applyExits (exited t) s) in *.
  assert (Hpc : pc s1 = pc s) by reflexivity.
  destruct (pc s1) eqn:Hpc1.
  - assert (Hany : forall b f n,
              devInvariant (setBundles n (setIsFrontendChanged b (setPreviousFrontend f s1)))).
    { intros b f n. destruct Hinv as (Ha & Hh & _ & _).
      repeat split; simpl; auto; try congruence. intros [? | ?]; congruence. }
    assert (Hany' : forall b f,
              devInvariant (setIsFrontendChanged b (setPreviousFrontend f s1))).
    { intros b f. destruct Hinv as (Ha & Hh & _ & _).
      repeat split; simpl; auto; try congruence. intros [? | ?]; congruence. }
    destruct (changed _ _).
    + apply devInvariant_setPc; [apply Hany | discriminate ..].
    + apply devInvariant_superviseBackend; [apply Hany' | simpl; congruence ..].
  - apply devInvariant_superviseBackend; [exact Hinv | congruence ..].
  - destruct (webServer s1) as [pid |] eqn:Hweb; [| exact Hinv].
    destruct Hinv as (Ha & Hh & Hp & Hn). destruct (Hp Hpc1) as (p & Hwp & Hsig).
    assert (p = pid) by congruence. subst p.
    apply devInvariant_pollKilled; [repeat split; auto | exact Hweb | exact Hsig].
  - destruct (pingOk t).
    + apply devInvariant_setPc; [| discriminate ..].
      destruct Hinv as (Ha & Hh & Hp & Hn).
      destruct isAutoReload; repeat split; simpl; auto; try congruence.
    + destruct Hinv as (Ha & Hh & Hp & Hn). repeat split; simpl; auto; try discriminate.
  - apply devInvariant_notifyLoop; [exact Hinv |].
    destruct Hinv as (_ & _ & _ & Hn). rewrite Hn; [eauto | right; exact Hpc1].
  - exact Hinv.
Qed.

Lemma devInvariant_dev ticks : devInvariant (dev ticks).
Proof.
  induction ticks as [| t ticks IH] using rev_ind; [apply devInvariant_initial |].
  rewrite dev_snoc. apply devInvariant_step, IH.
Qed.

End DevProperties.
Section DevClaims.
Context {E : Env}.

Lemma procs_spawnServer t s :
  length (procs (spawnServer t s)) <> length (procs s) -> signals (spawnServer t s) = signals s.
Proof.
  intros _. unfold spawnServer, notify, notifyLoop. repeat case_match; reflexivity.
Qed.

Lemma pollKilled_spawn t pid s :
  length (procs (pollKilled t pid s)) <> length (procs s) ->
  signals (pollKilled t pid s) = signals s /\ killed pid s = true.
Proof.
  unfold pollKilled. destruct (killed pid s); simpl; [| congruence].
  intros H. split; [apply procs_spawnServer, H | reflexivity].
Qed.

Lemma superviseBackend_spawn t pid s :
  webServer s = Some pid ->
  length (procs (superviseBackend t s)) <> length (procs s) ->
  pid ∈ signals (superviseBackend t s) /\ killed pid s = true.
Proof.
  intros Hweb. unfold superviseBackend.
  destruct (backendLanguage config) as [[] |]; simpl; [| congruence].
  destruct (_ || _); simpl; [| congruence].
  rewrite Hweb. intros H. destruct (pollKilled_spawn t pid _ H) as [Hs Hk]. rewrite Hs. simpl.
  split; [apply elem_of_app; right; left | exact Hk].
Qed.

Lemma spawn_after_confirmed_death t s pid :
  devInvariant s -> webServer s = Some pid ->
  length (procs (step t s)) <> length (procs s) ->
  pid ∈ signals (step t s) /\ killed pid (applyExits (exited t) s) = true.
Proof.
  intros Hinv0 Hweb. pose proof (devInvariant_applyExits (exited t) s Hinv0) as Hinv.
  unfold step.
  assert (Hlen : length (procs (applyExits (exited t) s)) = length (procs s))
    by apply exits_length.
  rewrite <- Hlen.
  set (s1 := applyExits (exited t) s) in *.
  assert (Hweb1 : webServer s1 = Some pid) by exact Hweb.
  destruct (pc s1) eqn:Hpc1.
  - destruct (changed _ _); [intros H; exfalso; apply H; reflexivity |].
    match goal with
    | |- length (procs (superviseBackend t ?x)) <> _ -> _ =>
        intros H; exact (superviseBackend_spawn t pid x Hweb1 H)
    end.
  - intros H. exact (superviseBackend_spawn t pid s1 Hweb1 H).
  - rewrite Hweb1. intros H. destruct (pollKilled_spawn t pid s1 H) as [Hs Hk]. rewrite Hs.
    split; [| exact Hk]. destruct Hinv as (_ & _ & Hp & _).
    destruct (Hp Hpc1) as (p & Hp1 & Hp2). congruence.
  - intros H; exfalso; apply H. destruct (pingOk t); [destruct isAutoReload |]; reflexivity.
  - intros H; exfalso; apply H. unfold notifyLoop. case_match; reflexivity.
  - intros H; exfalso; apply H. reflexivity.
Qed.

(** C7.  Whenever the loop is suspended, at most one backend process is
    alive, and it is the one the handle names; and when a step spawns a
    process while the handle names one, that one was sent the signal and
    was found dead ([killed]) before the spawn. *)
Theorem single_live_backend (ticks : list Tick) (t : Tick) :
  (forall p q, procs (dev ticks) !! p = Some true -> procs (dev ticks) !! q = Some true -> p = q) /\
  (forall p, procs (dev ticks) !! p = Some true -> webServer (dev ticks) = Some p) /\
  (forall pid, webServer (dev ticks) = Some pid ->
     length (procs (step t (dev ticks))) <> length (procs (dev ticks)) ->
     pid ∈ signals (step t (dev ticks)) /\
     killed pid (applyExits (exited t) (dev ticks)) = true).
Proof.
  pose proof (devInvariant_dev ticks) as Hinv.
  split; [| split].
  - intros p q Hp Hq. destruct Hinv as (Ha & _).
    apply Ha in Hp. apply Ha in Hq. congruence.
  - destruct Hinv as (Ha & _). exact Ha.
  - intros pid. apply spawn_after_confirmed_death, Hinv.
Qed.

Lemma preserved_superviseBackend t s :
  previousFrontend (superviseBackend t s) = previousFrontend s /\
  bundles (superviseBackend t s) = bundles s /\
  pc (superviseBackend t s) <> AtBundle.
Proof.
  unfold superviseBackend, pollKilled, spawnServer, notify, notifyLoop.
  repeat case_match; simpl; repeat split; discriminate.
Qed.

Lemma changed_iff (a b : gset string) :
  changed a b = true <-> symmetricDifference a b <> ∅.
Proof.
  unfold changed. rewrite bool_decide_eq_true. split.
  - intros Hpos Heq. rewrite Heq, size_empty in Hpos. lia.
  - intros Hne. destruct (decide (size (symmetricDifference a b) = 0)) as [H0 | H0]; [| lia].
    apply size_empty_iff in H0. apply leibniz_equiv in H0. contradiction.
Qed.

Lemma step_AtSleep t s :
  pc s = AtSleep ->
  step t s =
    if changed (list_to_set (generateHashes (frontendFiles t))) (previousFrontend s)
    then setPc AtBundle
           (setBundles (S (bundles s))
              (setIsFrontendChanged true
                 (setPreviousFrontend (list_to_set (generateHashes (frontendFiles t)))
                    (applyExits (exited t) s))))
    else superviseBackend t
           (setIsFrontendChanged false
              (setPreviousFrontend (list_to_set (generateHashes (frontendFiles t)))
                 (applyExits (exited t) s))).
Proof.
  intros Hpc. unfold step. simpl. rewrite Hpc.
  destruct (changed _ _); reflexivity.
Qed.

Lemma step_AtBundle t s :
  pc s = AtBundle -> step t s = superviseBackend t (applyExits (exited t) s).
Proof. intros Hpc. unfold step. simpl. rewrite Hpc. reflexivity. Qed.

(** C8.  An iteration starts a build exactly when the new frontend hash
    set differs from the previous one (their symmetric difference is not
    empty); either way the new set is the baseline from then on, and the
    end of the build, whatever it is, neither changes the baseline nor
    starts another build. *)
Theorem rebuild_iff_changed (t : Tick) (s : DevState) :
  pc s = AtSleep ->
  (symmetricDifference (list_to_set (generateHashes (frontendFiles t))) (previousFrontend s) = ∅ ->
     bundles (step t s) = bundles s /\ pc (step t s) <> AtBundle) /\
  (symmetricDifference (list_to_set (generateHashes (frontendFiles t))) (previousFrontend s) <> ∅ ->
     bundles (step t s) = S (bundles s) /\ pc (step t s) = AtBundle) /\
  previousFrontend (step t s) = list_to_set (generateHashes (frontendFiles t)) /\
  (forall t', pc (step t s) = AtBundle ->
     previousFrontend (step t' (step t s)) = list_to_set (generateHashes (frontendFiles t)) /\
     bundles (step t' (step t s)) = bundles (step t s)).
Proof.
  intros Hpc. rewrite (step_AtSleep t s Hpc).
  destruct (changed _ (previousFrontend s)) eqn:Hc.
  - apply changed_iff in Hc. repeat split; simpl; try congruence.
    + rewrite step_AtBundle by reflexivity.
      destruct (preserved_superviseBackend t'
                  (applyExits (exited t')
                     (setPc AtBundle
                        (setBundles (S (bundles s))
                           (setIsFrontendChanged true
                              (setPreviousFrontend
                                 (list_to_set (generateHashes (frontendFiles t)))
                                 (applyExits (exited t) s)))))))
        as (Hf & _ & _).
      rewrite Hf. reflexivity.
    + rewrite step_AtBundle by reflexivity. apply preserved_superviseBackend.
  - assert (Hd : symmetricDifference (list_to_set (generateHashes (frontendFiles t)))
                   (previousFrontend s) = ∅).
    { destruct (decide (symmetricDifference (list_to_set (generateHashes (frontendFiles t)))
                          (previousFrontend s) = ∅)) as [Heq | Hne]; [exact Heq |].
      apply changed_iff in Hne. congruence. }
    destruct (preserved_superviseBackend t
                (setIsFrontendChanged false
                   (setPreviousFrontend (list_to_set (generateHashes (frontendFiles t)))
                      (applyExits (exited t) s))))
      as (Hf & Hb & Hp).
    repeat split; try congruence.
    + exact Hb.
    + exact Hf.
Qed.

End DevClaims.

Lemma rebuild_iff_changed_witness :
  pc initial = AtSleep /\
  symmetricDifference (list_to_set (@generateHashes Example.devProject Example.mainV1))
    (previousFrontend initial) <> ∅ /\
  bundles (@step Example.devProject (Example.tick Example.mainV1 false) initial) = 1%nat /\
  pc (@step Example.devProject (Example.tick Example.mainV1 false) initial) = AtBundle.
Proof.
  split; [reflexivity |].
  assert (H : symmetricDifference
                (list_to_set (@generateHashes Example.devProject Example.mainV1)) ∅ <> ∅).
  { apply changed_iff. vm_compute. reflexivity. }
  split; [exact H |].
  apply (proj1 (proj2 (@rebuild_iff_changed Example.devProject
                         (Example.tick Example.mainV1 false) initial eq_refl))).
  exact H.
Defined.

(** *** C6: the wait of [notify] *)

(** While [notify] waits and the ping fails, a step changes nothing but
    the place in the wait: no file is looked at, no build starts, nothing
    is aborted and nothing is published. *)
Lemma notify_wait_step {E : Env} (t : Tick) (s : DevState) :
  pc s = AtPing \/ pc s = AtRetry ->
  controllers s !! signal s = Some false ->
  pingOk t = false ->
  (pc (step t s) = AtPing \/ pc (step t s) = AtRetry) /\
  controllers (step t s) = controllers s /\
  signal (step t s) = signal s /\
  bundles (step t s) = bundles s /\
  previousFrontend (step t s) = previousFrontend s /\
  published (step t s) = published s.
Proof.
  intros Hpc Hc Hping. unfold step. simpl.
  destruct Hpc as [Hpc | Hpc]; rewrite Hpc.
  - rewrite Hping. simpl. repeat split; auto.
  - unfold notifyLoop. simpl. rewrite Hc. simpl. repeat split; auto.
Qed.

(** C6 fails on the code.  The frontend is built and the backend spawned;
    [notify] waits for a backend that never listens.  The frontend then
    changes on disk ([mainV2]): for any number of further steps the loop is
    still inside [notify], its signal is not aborted, the baseline is still
    the old hash set (the change is there to be seen, and is not), and no
    second build has started. *)
Theorem notify_wait_outlives_change (n : nat) :
  (pc (@dev Example.devProject
         ([Example.tick Example.mainV1 false; Example.tick Example.mainV1 false]
            ++ repeat (Example.tick Example.mainV2 false) n)) = AtPing \/
   pc (@dev Example.devProject
         ([Example.tick Example.mainV1 false; Example.tick Example.mainV1 false]
            ++ repeat (Example.tick Example.mainV2 false) n)) = AtRetry) /\
  controllers (@dev Example.devProject
         ([Example.tick Example.mainV1 false; Example.tick Example.mainV1 false]
            ++ repeat (Example.tick Example.mainV2 false) n)) !! 1%nat = Some false /\
  signal (@dev Example.devProject
         ([Example.tick Example.mainV1 false; Example.tick Example.mainV1 false]
            ++ repeat (Example.tick Example.mainV2 false) n)) = 1%nat /\
  bundles (@dev Example.devProject
         ([Example.tick Example.mainV1 false; Example.tick Example.mainV1 false]
            ++ repeat (Example.tick Example.mainV2 false) n)) = 1%nat /\
  changed (list_to_set (@generateHashes Example.devProject Example.mainV2))
    (previousFrontend (@dev Example.devProject
         ([Example.tick Example.mainV1 false; Example.tick Example.mainV1 false]
            ++ repeat (Example.tick Example.mainV2 false) n))) = true.
Proof.
  induction n as [| n IH].
  - vm_compute. repeat split; auto.
  - replace (repeat (Example.tick Example.mainV2 false) (S n))
      with (repeat (Example.tick Example.mainV2 false) n ++ [Example.tick Example.mainV2 false])
      by (symmetry; apply repeat_cons).
    rewrite app_assoc, (@dev_snoc Example.devProject).
    destruct IH as (Hpc & Hc & Hs & Hb & Hf).
    destruct (@notify_wait_step Example.devProject (Example.tick Example.mainV2 false) _ Hpc)
      as (Hpc' & Hc' & Hs' & Hb' & Hf' & _).
    + rewrite Hs. exact Hc.
    + reflexivity.
    + rewrite Hc', Hs', Hb', Hf'. auto.
Qed.

(** *** C4: substitution *)

Lemma prefix_iff (a s : string) : String.prefix a s = true <-> exists t, s = a +:+ t.
Proof.
  revert s. induction a as [| c a IH]; intros s.
  - destruct s; simpl; split; eauto.
  - destruct s as [| d s]; simpl.
    + split; [discriminate | intros [t Ht]; discriminate].
    + destruct (ascii_dec c d) as [-> | Hne].
      * rewrite IH. split; intros [t Ht]; exists t.
        -- rewrite append_cons. congruence.
        -- rewrite append_cons in Ht. congruence.
      * split; [discriminate | intros [t Ht]]. rewrite append_cons in Ht. congruence.
Qed.

Lemma prefix_app_l (k p r : string) :
  String.prefix k p = true -> String.prefix k (p +:+ r) = true.
Proof.
  rewrite !prefix_iff. intros [t ->]. exists (t +:+ r). apply append_assoc.
Qed.

Lemma app_eq_app (p r k t : string) :
  p +:+ r = k +:+ t -> (exists x, k = p +:+ x) \/ (exists y, p = k +:+ y).
Proof.
  revert k. induction p as [| c p IH]; intros k H.
  - left. exists k. reflexivity.
  - destruct k as [| d k].
    + right. exists (String c p). reflexivity.
    + rewrite !append_cons in H. injection H as -> H.
      destruct (IH _ H) as [[x ->] | [y ->]]; [left; exists x | right; exists y]; reflexivity.
Qed.

Lemma prefix_app_cases (k p r : string) :
  String.prefix k (p +:+ r) = true -> String.prefix k p = true \/ String.prefix p k = true.
Proof.
  rewrite !prefix_iff. intros [t Ht]. destruct (app_eq_app _ _ _ _ Ht) as [[x Hx] | [y Hy]]; eauto.
Qed.

Lemma prefix_common (a b s : string) :
  String.prefix a s = true -> String.prefix b s = true ->
  String.prefix a b = true \/ String.prefix b a = true.
Proof.
  rewrite !prefix_iff. intros [t ->] [u Hu]. symmetry in Hu.
  destruct (app_eq_app _ _ _ _ Hu) as [[x Hx] | [y Hy]]; eauto.
Qed.

Lemma drop_app_length (k t : string) : JS.drop (String.length k) (k +:+ t) = t.
Proof. induction k as [| c k IH]; [reflexivity |]. rewrite append_cons. simpl. exact IH. Qed.

Lemma freeOf_app (m : ascii) (s t : string) :
  freeOf m (s +:+ t) = freeOf m s && freeOf m t.
Proof.
  induction s as [| c s IH]; [reflexivity |]. rewrite append_cons. simpl. rewrite IH.
  apply andb_assoc.
Qed.

Lemma getSubstitution_plain (k before after v : string) :
  freeOf "$" v = true -> JS.getSubstitution k before after v = v.
Proof.
  induction v as [| c v IH]; simpl; [reflexivity |].
  intros H. apply andb_true_iff in H as [Hc Hv].
  destruct (Ascii.eqb c "$"); [discriminate |]. rewrite IH by exact Hv. reflexivity.
Qed.

Section Marker.
Variable m : ascii.
Variables k v : string.
Hypothesis key_headed : headedBy m k = true.
Hypothesis value_plain : freeOf "$" v = true.

(** The scan of [replaceAll] does not depend on the text it has passed. *)
Lemma replaceAllFrom_before (n : nat) (b1 b2 s : string) :
  JS.replaceAllFrom k v n b1 s = JS.replaceAllFrom k v n b2 s.
Proof.
  revert n b1 b2. induction s as [| c s IH]; intros n b1 b2; simpl; [reflexivity |].
  destruct n as [| n]; [| apply IH].
  rewrite !getSubstitution_plain by exact value_plain.
  destruct (match k with "" => true | String a s1' => if ascii_dec a c then String.prefix s1' s else false end);
    f_equal; apply IH.
Qed.

Lemma scan_skip (x rest before : string) :
  JS.replaceAllFrom k v (String.length x) before (x +:+ rest)
  = JS.replaceAllFrom k v 0 before rest.
Proof.
  revert before. induction x as [| c x IH]; intros before.
  - destruct rest; reflexivity.
  - rewrite append_cons. simpl. rewrite IH. apply replaceAllFrom_before.
Qed.

Lemma key_shape : exists k', k = String m k'.
Proof.
  destruct k as [| a k']; [discriminate |]. simpl in key_headed.
  apply andb_true_iff in key_headed as [Ha _]. apply Ascii.eqb_eq in Ha. subst a. eauto.
Qed.

Lemma prefix_key_other (c : ascii) (s : string) :
  Ascii.eqb c m = false -> String.prefix k (String c s) = false.
Proof.
  intros Hc. destruct key_shape as [k' ->]. simpl.
  destruct (ascii_dec m c) as [<- | _]; [| reflexivity].
  rewrite Ascii.eqb_refl in Hc. discriminate.
Qed.

Lemma scan_free (t rest before : string) :
  freeOf m t = true ->
  JS.replaceAllFrom k v 0 before (t +:+ rest) = t +:+ JS.replaceAllFrom k v 0 before rest.
Proof.
  revert before. induction t as [| c t IH]; intros before Ht; [reflexivity |].
  simpl in Ht. apply andb_true_iff in Ht as [Hc Ht]. apply negb_true_iff in Hc.
  rewrite !append_cons.
  change (JS.replaceAllFrom k v 0 before (String c (t +:+ rest)))
    with (if String.prefix k (String c (t +:+ rest))
          then JS.getSubstitution k before (JS.drop (String.length k) (String c (t +:+ rest))) v
                 +:+ JS.replaceAllFrom k v (String.length k - 1) (before +:+ String c "") (t +:+ rest)
          else String c (JS.replaceAllFrom k v 0 (before +:+ String c "") (t +:+ rest))).
  rewrite prefix_key_other by exact Hc. rewrite IH by exact Ht.
  f_equal. f_equal. apply replaceAllFrom_before.
Qed.

(** A piece at whose head the key matches, or cannot come to match. *)
Lemma scan_piece (p rest before : string) :
  freeOf m p = true \/
  (headedBy m p = true /\ String.prefix k (p +:+ rest) = String.prefix k p) ->
  JS.replaceAllFrom k v 0 before (p +:+ rest)
  = rewritePiece k v p +:+ JS.replaceAllFrom k v 0 before rest.
Proof.
  intros [Hfree | [Hhead Hstable]].
  - rewrite scan_free by exact Hfree. f_equal. unfold rewritePiece.
    destruct p as [| c p]; [destruct key_shape as [k' ->]; reflexivity |].
    simpl in Hfree. apply andb_true_iff in Hfree as [Hc _]. apply negb_true_iff in Hc.
    rewrite prefix_key_other by exact Hc. reflexivity.
  - destruct p as [| c body]; [discriminate |]. simpl in Hhead.
    apply andb_true_iff in Hhead as [Hc Hbody].
    rewrite append_cons in *.
    change (JS.replaceAllFrom k v 0 before (String c (body +:+ rest)))
      with (if String.prefix k (String c (body +:+ rest))
            then JS.getSubstitution k before (JS.drop (String.length k) (String c (body +:+ rest))) v
                   +:+ JS.replaceAllFrom k v (String.length k - 1) (before +:+ String c "") (body +:+ rest)
            else String c (JS.replaceAllFrom k v 0 (before +:+ String c "") (body +:+ rest))).
    rewrite Hstable. unfold rewritePiece.
    destruct (String.prefix k (String c body)) eqn:Hp.
    + rewrite getSubstitution_plain by exact value_plain.
      apply prefix_iff in Hp as [tail Htail].
      destruct key_shape as [k' Hk].
      rewrite Htail, drop_app_length.
      assert (Hbody' : body = k' +:+ tail).
      { rewrite Hk, append_cons in Htail. congruence. }
      replace (String.length k - 1)%nat with (String.length k') by (rewrite Hk; simpl; lia).
      rewrite Hbody', append_assoc, scan_skip.
      rewrite Hbody', freeOf_app in Hbody. apply andb_true_iff in Hbody as [_ Htl].
      rewrite scan_free by exact Htl.
      rewrite append_assoc. f_equal. f_equal. apply replaceAllFrom_before.
    + rewrite append_cons. f_equal. rewrite scan_free by exact Hbody.
      f_equal. apply replaceAllFrom_before.
Qed.

End Marker.

Lemma headed_not_free (m : ascii) (p : string) :
  headedBy m p = true -> freeOf m p = false.
Proof.
  destruct p as [| c p]; [discriminate |]. simpl. intros H.
  apply andb_true_iff in H as [Hc _]. rewrite Hc. reflexivity.
Qed.

Lemma headed_not_prefix_of_free (m : ascii) (k p : string) :
  headedBy m k = true -> freeOf m p = true -> String.prefix k p = false.
Proof.
  intros Hk Hp. destruct p as [| c p]; [destruct k; [discriminate | reflexivity] |].
  simpl in Hp. apply andb_true_iff in Hp as [Hc _]. apply negb_true_iff in Hc.
  apply (prefix_key_other m k Hk), Hc.
Qed.

Section MarkedTable.
Variable m : ascii.
Variable K : list string.
Hypothesis K_headed : forall k, k ∈ K -> headedBy m k = true.
Hypothesis K_prefix_free :
  forall k1 k2, k1 ∈ K -> k2 ∈ K -> String.prefix k1 k2 = true -> k1 = k2.

Lemma okP_stable (p rest k : string) :
  okP m K p -> headedBy m p = true -> k ∈ K ->
  String.prefix k (p +:+ rest) = String.prefix k p.
Proof.
  intros [Hfree | [_ [(k0 & Hk0 & Hp0) | Hinc]]] Hhead Hk.
  - rewrite (headed_not_free _ _ Hhead) in Hfree. discriminate.
  - destruct (String.prefix k p) eqn:Hp; [apply prefix_app_l, Hp |].
    destruct (String.prefix k (p +:+ rest)) eqn:Hpr; [| reflexivity].
    pose proof (prefix_app_l k0 p rest Hp0) as Hp0r.
    assert (k = k0).
    { destruct (prefix_common _ _ _ Hpr Hp0r) as [H | H].
      - apply K_prefix_free; assumption.
      - symmetry. apply K_prefix_free; assumption. }
    subst k0. congruence.
  - specialize (Hinc k Hk). unfold comparable in Hinc. apply orb_false_iff in Hinc as [H1 H2].
    rewrite H1. destruct (String.prefix k (p +:+ rest)) eqn:Hpr; [| reflexivity].
    destruct (prefix_app_cases _ _ _ Hpr); congruence.
Qed.

Lemma pass_from (k v before : string) (pieces : list string) :
  k ∈ K -> freeOf "$" v = true -> Forall (okP m K) pieces ->
  JS.replaceAllFrom k v 0 before (flatten pieces) = flatten (map (rewritePiece k v) pieces).
Proof.
  intros Hk Hv Hok. induction Hok as [| p ps Hp Hps IH]; [reflexivity |].
  simpl. rewrite (scan_piece m k v (K_headed k Hk) Hv), IH; [reflexivity |].
  destruct (freeOf m p) eqn:Hfree; [left; reflexivity | right].
  destruct Hp as [Hp | [Hhead Hrest]]; [congruence |].
  split; [exact Hhead |]. apply okP_stable; [right | |]; auto.
Qed.

Lemma pass (k v : string) (pieces : list string) :
  k ∈ K -> freeOf "$" v = true -> Forall (okP m K) pieces ->
  JS.replaceAll (flatten pieces) k v = flatten (map (rewritePiece k v) pieces).
Proof.
  intros Hk Hv Hok. unfold JS.replaceAll.
  pose proof (K_headed k Hk) as Hh.
  destruct k as [| a k']; [discriminate |]. apply pass_from; assumption.
Qed.

Lemma rewritten_free (k v p : string) :
  headedBy m k = true -> headedBy m p = true -> freeOf m v = true ->
  String.prefix k p = true -> freeOf m (v +:+ JS.drop (String.length k) p) = true.
Proof.
  intros Hk Hp Hv Hpre. apply prefix_iff in Hpre as [tail ->]. rewrite drop_app_length.
  rewrite freeOf_app, Hv. simpl.
  destruct (key_shape m k Hk) as [k' ->]. rewrite append_cons in Hp. simpl in Hp.
  apply andb_true_iff in Hp as [_ Hp]. rewrite freeOf_app in Hp.
  apply andb_true_iff in Hp as [_ Hp]. exact Hp.
Qed.

Lemma okP_rewrite (k v p : string) :
  okP m K p -> k ∈ K -> freeOf m v = true -> okP m K (rewritePiece k v p).
Proof.
  intros Hp Hk Hv. unfold rewritePiece. destruct (String.prefix k p) eqn:Hpre; [| exact Hp].
  left. destruct Hp as [Hfree | [Hhead _]].
  - rewrite (headed_not_prefix_of_free m k p (K_headed k Hk) Hfree) in Hpre. discriminate.
  - apply rewritten_free; auto.
Qed.

Lemma substituteAll_pieces (tbl : list (string * string)) (pieces : list string) :
  entriesOk m K tbl -> Forall (okP m K) pieces ->
  substituteAll tbl (flatten pieces) = flatten (map (rewriteAll tbl) pieces).
Proof.
  revert pieces. induction tbl as [| [k v] tbl IH]; intros pieces Htbl Hok.
  - simpl. rewrite map_id. reflexivity.
  - destruct (Htbl (k, v)) as (Hk & Hvm & Hvd); [left |]. simpl in Hk, Hvm, Hvd.
    unfold substituteAll. simpl. rewrite pass by assumption.
    fold (substituteAll tbl (flatten (map (rewritePiece k v) pieces))).
    rewrite IH.
    + rewrite map_map. reflexivity.
    + intros e He. apply Htbl. right. exact He.
    + apply Forall_map. eapply Forall_impl; [exact Hok |]. intros p Hp. simpl.
      apply okP_rewrite; assumption.
Qed.

Lemma rewriteAll_unmatched (tbl : list (string * string)) (p : string) :
  (forall e, e ∈ tbl -> String.prefix (fst e) p = false) -> rewriteAll tbl p = p.
Proof.
  induction tbl as [| [k v] tbl IH]; intros H; [reflexivity |].
  change (rewriteAll ((k, v) :: tbl) p) with (rewriteAll tbl (rewritePiece k v p)).
  unfold rewritePiece. pose proof (H (k, v) ltac:(left)) as Hkv. simpl in Hkv. rewrite Hkv.
  apply IH. intros e He. apply H. right. exact He.
Qed.

Lemma rewriteAll_matched (tbl : list (string * string)) (k0 v0 p : string) :
  entriesOk m K tbl -> NoDup (keys tbl) -> (k0, v0) ∈ tbl ->
  headedBy m p = true -> String.prefix k0 p = true ->
  rewriteAll tbl p = v0 +:+ JS.drop (String.length k0) p.
Proof.
  intros Htbl Hnd Hin Hhead Hpre.
  induction tbl as [| [k v] tbl IH]; [inversion Hin |].
  destruct (Htbl (k, v)) as (Hk & Hvm & Hvd); [left |]. simpl in Hk, Hvm, Hvd.
  assert (Htbl' : entriesOk m K tbl) by (intros e He; apply Htbl; right; exact He).
  simpl in Hnd. apply NoDup_cons in Hnd as [Hnotin Hnd].
  change (rewriteAll ((k, v) :: tbl) p) with (rewriteAll tbl (rewritePiece k v p)).
  apply elem_of_cons in Hin as [Heq | Hin].
  - injection Heq as <- <-. unfold rewritePiece. rewrite Hpre.
    apply rewriteAll_unmatched. intros e He.
    apply headed_not_prefix_of_free with (m := m).
    + apply K_headed, Htbl'. exact He.
    + apply rewritten_free; auto.
  - assert (Hk0 : k0 ∈ K) by (apply (Htbl' (k0, v0)), Hin).
    assert (Hne : k <> k0).
    { intros ->. apply Hnotin. apply (list_elem_of_fmap_2 fst _ (k0, v0)), Hin. }
    unfold rewritePiece.
    destruct (String.prefix k p) eqn:Hkp.
    + exfalso. apply Hne. destruct (prefix_common _ _ _ Hkp Hpre) as [H | H].
      * apply K_prefix_free; assumption.
      * symmetry. apply K_prefix_free; assumption.
    + apply IH; assumption.
Qed.

(** What a piece is once every key has had its pass. *)
Lemma rewriteAll_final (tbl : list (string * string)) (p : string) :
  entriesOk m K tbl -> NoDup (keys tbl) -> (forall k, k ∈ K -> k ∈ keys tbl) -> okP m K p ->
  (freeOf m (rewriteAll tbl p) = true \/
   (headedBy m (rewriteAll tbl p) = true /\
    forall k, k ∈ K -> comparable k (rewriteAll tbl p) = false)) /\
  (forall tbl', entriesOk m K tbl' -> NoDup (keys tbl') -> (forall e, e ∈ tbl -> e ∈ tbl') ->
     rewriteAll tbl' p = rewriteAll tbl p).
Proof.
  intros Htbl Hnd Hall [Hfree | [Hhead [(k0 & Hk0 & Hpre) | Hinc]]].
  - assert (Hsame : forall t, entriesOk m K t -> rewriteAll t p = p).
    { intros t Ht. apply rewriteAll_unmatched. intros e He.
      apply headed_not_prefix_of_free with (m := m); [apply K_headed, Ht, He | exact Hfree]. }
    rewrite Hsame by exact Htbl. split; [left; exact Hfree |].
    intros tbl' Htbl' _ _. apply Hsame, Htbl'.
  - apply Hall in Hk0 as Hin. apply list_elem_of_fmap in Hin as ([k1 v0] & Hk1 & Hin).
    simpl in Hk1. subst k1.
    rewrite (rewriteAll_matched tbl k0 v0 p) by assumption.
    split.
    + left. apply rewritten_free; auto. apply (Htbl (k0, v0)), Hin.
    + intros tbl' Htbl' Hnd' Hsub. apply rewriteAll_matched; auto.
  - assert (Hsame : forall t, entriesOk m K t -> rewriteAll t p = p).
    { intros t Ht. apply rewriteAll_unmatched. intros e He.
      assert (He' : fst e ∈ K) by apply Ht, He.
      specialize (Hinc _ He'). unfold comparable in Hinc.
      apply orb_false_iff in Hinc as [H _]. exact H. }
    rewrite Hsame by exact Htbl. split; [right; auto |].
    intros tbl' Htbl' _ _. apply Hsame, Htbl'.
Qed.

Lemma includes_free (k t rest : string) :
  k ∈ K -> freeOf m t = true -> JS.includes (t +:+ rest) k = JS.includes rest k.
Proof.
  intros Hk. induction t as [| c t IH]; intros Ht; [reflexivity |].
  simpl in Ht. apply andb_true_iff in Ht as [Hc Ht]. apply negb_true_iff in Hc.
  rewrite append_cons.
  change (JS.includes (String c (t +:+ rest)) k)
    with (String.prefix k (String c (t +:+ rest)) || JS.includes (t +:+ rest) k).
  rewrite (prefix_key_other m k (K_headed k Hk)) by exact Hc. simpl. apply IH, Ht.
Qed.

Lemma no_occurrence (k : string) (pieces : list string) :
  k ∈ K ->
  Forall (fun p => freeOf m p = true \/
                   (headedBy m p = true /\ forall k, k ∈ K -> comparable k p = false)) pieces ->
  JS.includes (flatten pieces) k = false.
Proof.
  intros Hk Hall. induction Hall as [| p ps Hp Hps IH].
  - simpl. destruct (key_shape m k (K_headed k Hk)) as [k' ->]. reflexivity.
  - simpl. destruct Hp as [Hfree | [Hhead Hinc]].
    + rewrite includes_free by assumption. exact IH.
    + destruct p as [| c body]; [discriminate |]. simpl in Hhead.
      apply andb_true_iff in Hhead as [Hc Hbody].
      rewrite append_cons.
      change (JS.includes (String c (body +:+ flatten ps)) k)
        with (String.prefix k (String c (body +:+ flatten ps))
              || JS.includes (body +:+ flatten ps) k).
      rewrite includes_free by assumption. rewrite IH, orb_false_r.
      specialize (Hinc k Hk). unfold comparable in Hinc.
      apply orb_false_iff in Hinc as [H1 H2].
      destruct (String.prefix k (String c (body +:+ flatten ps))) eqn:Hpre; [| reflexivity].
      rewrite <- append_cons in Hpre. destruct (prefix_app_cases _ _ _ Hpre); congruence.
Qed.

End MarkedTable.

Lemma prefixFree_spec (ks : list string) :
  prefixFree ks = true ->
  forall k1 k2, k1 ∈ ks -> k2 ∈ ks -> String.prefix k1 k2 = true -> k1 = k2.
Proof.
  intros H k1 k2 H1 H2 Hpre. unfold prefixFree in H.
  rewrite forallb_forall in H. apply list_elem_of_In in H1, H2.
  specialize (H k1 H1). rewrite forallb_forall in H. specialize (H k2 H2).
  rewrite Hpre in H. simpl in H. apply String.eqb_eq, H.
Qed.

Lemma pieceOk_spec (m : ascii) (ks : list string) (p : string) :
  pieceOk m ks p = true -> okP m ks p.
Proof.
  unfold pieceOk, okP. intros H. apply orb_true_iff in H as [H | H]; [left; exact H | right].
  apply andb_true_iff in H as [Hh H]. split; [exact Hh |].
  apply orb_true_iff in H as [H | H].
  - left. apply existsb_exists in H as (k & Hk & Hp). exists k.
    split; [apply list_elem_of_In, Hk | exact Hp].
  - right. intros k Hk. rewrite forallb_forall in H. apply list_elem_of_In in Hk.
    apply negb_true_iff, H, Hk.
Qed.

Lemma markedEntry_spec (m : ascii) (table : list (string * string)) :
  forallb (markedEntry m) table = true ->
  (forall k, k ∈ keys table -> headedBy m k = true) /\ entriesOk m (keys table) table.
Proof.
  intros H. rewrite forallb_forall in H.
  assert (He : forall e, e ∈ table ->
            headedBy m (fst e) = true /\ freeOf m (snd e) = true /\ freeOf "$" (snd e) = true).
  { intros e Hin. apply list_elem_of_In, H in Hin. unfold markedEntry in Hin.
    apply andb_true_iff in Hin as [Hin H3]. apply andb_true_iff in Hin as [H1 H2]. auto. }
  split.
  - intros k Hk. apply list_elem_of_fmap in Hk as (e & -> & Hin). apply He, Hin.
  - intros e Hin. split; [apply list_elem_of_fmap_2, Hin | apply He, Hin].
Qed.

(** C4, as the code has it.  SUBSTITUTE runs one [replaceAll] per table
    entry, in insertion order.  Let every key begin with a marker
    character that occurs nowhere else in the keys or the values, no value
    hold a dollar sign, no key begin with another, and the markup be made
    of pieces that are free of the marker or begin with it and then either
    begin with a key or differ from every key at some position.  Then no
    key occurs in the output, and the output is the same for every order
    of the entries. *)
Theorem substitution_of_marked_markup
    (m : ascii) (table : list (string * string)) (pieces : list string) :
  forallb (markedEntry m) table = true ->
  prefixFree (keys table) = true ->
  NoDup (keys table) ->
  forallb (pieceOk m (keys table)) pieces = true ->
  (forall k, k ∈ keys table ->
     JS.includes (substituteAll table (flatten pieces)) k = false) /\
  (forall table', table' ≡ₚ table ->
     substituteAll table' (flatten pieces) = substituteAll table (flatten pieces)).
Proof.
  intros Hmarked Hfree Hnd Hpieces.
  destruct (markedEntry_spec m table Hmarked) as [Hheaded Hentries].
  pose proof (prefixFree_spec _ Hfree) as Hpf.
  assert (Hok : Forall (okP m (keys table)) pieces).
  { apply Forall_forall. intros p Hp. apply pieceOk_spec.
    rewrite forallb_forall in Hpieces. apply Hpieces, list_elem_of_In, Hp. }
  split.
  - intros k Hk. rewrite (substituteAll_pieces m (keys table) Hheaded Hpf) by assumption.
    apply (no_occurrence m (keys table) Hheaded); [exact Hk |].
    apply Forall_map. eapply Forall_impl; [exact Hok |]. intros p Hp. simpl.
    apply (rewriteAll_final m (keys table) Hheaded Hpf table p); auto.
  - intros table' Hperm.
    assert (Hentries' : entriesOk m (keys table) table').
    { intros e He. apply Hentries. rewrite <- Hperm. exact He. }
    assert (Hnd' : NoDup (keys table')).
    { unfold keys. rewrite Hperm. exact Hnd. }
    rewrite !(substituteAll_pieces m (keys table) Hheaded Hpf) by assumption.
    f_equal. apply map_ext_in. intros p Hp.
    apply (rewriteAll_final m (keys table) Hheaded Hpf table p); auto.
    + eapply Forall_forall in Hok; [exact Hok | apply list_elem_of_In, Hp].
    + intros e He. rewrite Hperm. exact He.
Qed.

Lemma substitution_of_marked_markup_witness :
  forallb (markedEntry "@")
    [("@/style.css", "/assets/style.2efyem4a.css"); ("@/img/a.png", "/assets/a.pjuwncrk.png")]
  = true /\
  forallb (pieceOk "@" ["@/style.css"; "@/img/a.png"])
    ["<link href='"; "@/style.css'><img src='"; "@/img/a.png'><a href='"; "@/font.woff2'>"]
  = true /\
  substituteAll
    [("@/style.css", "/assets/style.2efyem4a.css"); ("@/img/a.png", "/assets/a.pjuwncrk.png")]
    "<link href='@/style.css'><img src='@/img/a.png'><a href='@/font.woff2'>"
  = "<link href='/assets/style.2efyem4a.css'><img src='/assets/a.pjuwncrk.png'><a href='@/font.woff2'>" /\
  (forall k, k ∈ ["@/style.css"; "@/img/a.png"] ->
     JS.includes
       (substituteAll
          [("@/style.css", "/assets/style.2efyem4a.css");
           ("@/img/a.png", "/assets/a.pjuwncrk.png")]
          (flatten ["<link href='"; "@/style.css'><img src='"; "@/img/a.png'><a href='";
                    "@/font.woff2'>"])) k = false) /\
  (forall table',
     table' ≡ₚ [("@/style.css", "/assets/style.2efyem4a.css");
                ("@/img/a.png", "/assets/a.pjuwncrk.png")] ->
     substituteAll table'
       (flatten ["<link href='"; "@/style.css'><img src='"; "@/img/a.png'><a href='";
                 "@/font.woff2'>"])
     = substituteAll
         [("@/style.css", "/assets/style.2efyem4a.css");
          ("@/img/a.png", "/assets/a.pjuwncrk.png")]
         (flatten ["<link href='"; "@/style.css'><img src='"; "@/img/a.png'><a href='";
                   "@/font.woff2'>"])).
Proof.
  split; [vm_compute; reflexivity |]. split; [vm_compute; reflexivity |].
  split; [vm_compute; reflexivity |].
  apply (substitution_of_marked_markup "@"
           [("@/style.css", "/assets/style.2efyem4a.css");
            ("@/img/a.png", "/assets/a.pjuwncrk.png")]
           ["<link href='"; "@/style.css'><img src='"; "@/img/a.png'><a href='";
            "@/font.woff2'>"]).
  - vm_compute; reflexivity.
  - vm_compute; reflexivity.
  - apply (bool_decide_unpack _). vm_compute. exact I.
  - vm_compute; reflexivity.
Defined.

(** C4 as stated fails.  With a key that begins another the output
    depends on the order of the passes (and the entry of the longer key is
    never used: the page keeps [?w=10] behind the route of the image that
    was not resized); and a value that holds [$&], as the code of an inline
    script may, brings the key back into the output. *)
Lemma substitution_is_order_sensitive :
  substituteAll
    [("@/img/a.png", "/assets/a.pjuwncrk.png"); ("@/img/a.png?w=10", "/assets/a.2wdx2uoz.png")]
    "<img src='@/img/a.png?w=10'>"
  = "<img src='/assets/a.pjuwncrk.png?w=10'>" /\
  substituteAll
    [("@/img/a.png?w=10", "/assets/a.2wdx2uoz.png"); ("@/img/a.png", "/assets/a.pjuwncrk.png")]
    "<img src='@/img/a.png?w=10'>"
  = "<img src='/assets/a.2wdx2uoz.png'>" /\
  mapGet (replacers Example.pageBuilt) "@/img/a.png?w=10" = Some "/assets/a.2wdx2uoz.png" /\
  diskGet (disk Example.pageBuilt) "/project/.bundle/templates/index.html"
  = Some (Text "<link href='/assets/style.2efyem4a.css'><img src='/assets/a.pjuwncrk.png'><img src='/assets/a.pjuwncrk.png?w=10'><img src='/assets/a.pjuwncrk.png'><a href='@/font.woff2'><a href='@/font.woff2'>") /\
  JS.includes
    (substituteAll [("'@/app.ts?inline'", "t=s.replace(/x/g,`[$&]`)")]
       "<script src='@/app.ts?inline'></script>")
    "'@/app.ts?inline'" = true.
Proof. repeat split; vm_compute; reflexivity. Qed.

(** *** C1: memoization *)

Lemma setKeys_app evs1 evs2 : setKeys (evs1 ++ evs2) = setKeys evs1 ++ setKeys evs2.
Proof. unfold setKeys. apply omap_app. Qed.

(** Whatever was hashed was inserted: every [EvHash] of the trace has an
    [EvSet] for its token in the trace. *)
#[export] Program Instance hashedIsSet : TraceProp :=
  {| holds := fun evs => forall a h, EvHash a h ∈ evs -> a ∈ setKeys evs |}.
Next Obligation. intros a h H. inversion H. Qed.
Next Obligation.
  intros evs1 evs2 H1 H2 a h H. rewrite setKeys_app. apply elem_of_app.
  apply elem_of_app in H as [H | H]; eauto.
Qed.

#[export] Instance hashedIsSet_process : ProcessProp hashedIsSet.
Proof.
  split.
  - intros e He a h H. apply list_elem_of_singleton in H. subst e. destruct He.
  - intros a h r p c a' h' H. simpl.
    apply elem_of_cons in H as [H | H]; [injection H as -> ->; left |].
    apply elem_of_cons in H as [H | H]; [discriminate |].
    apply list_elem_of_singleton in H. discriminate.
Qed.

Section Memo.
Context {E : Env}.

Lemma processFile_known fuel a rpq st :
  mapHas (replacers st) a = true -> processFile fuel a rpq st = Done tt st.
Proof.
  intros H. destruct fuel; simpl; unfold bind, replacersHas; rewrite H; reflexivity.
Qed.

Lemma processReferences_known pf text st :
  (forall m, m ∈ matchAll text -> mapHas (replacers st) (snd m) = true) ->
  processReferences pf text st = Done tt st.
Proof.
  unfold processReferences. induction (matchAll text) as [| m ms IH]; intros H; [reflexivity |].
  simpl. unfold bind at 1. unfold bind at 1, replacersHas.
  rewrite (H m) by (left). simpl. apply IH. intros m' Hm'. apply H. right. exact Hm'.
Qed.

Lemma processMatch_known fuel raw m st :
  mapHas (replacers st) (markupKey m) = true ->
  processMatch fuel raw m st = Done raw (applyEvent st (EvResolve (snd m))).
Proof.
  unfold markupKey, processMatch. unfold bind at 1. simpl.
  destruct (resolveAlias (snd m)) as [[p q] |]; [| reflexivity].
  destruct (String.eqb _ ".js" || String.eqb _ ".ts"); simpl.
  - destruct (JS.has _ "inline"); intros H; unfold bind, replacersHas; simpl; rewrite H;
      reflexivity.
  - intros H. unfold bind at 1. rewrite processFile_known by exact H. reflexivity.
Qed.

(** After a trace whose hashes are all inserted: keys stay, no key is
    doubled, and what was hashed is a key. *)
Lemma after_trace evs st :
  holds (TraceProp := hashedIsSet) evs ->
  (forall k, mapHas (replacers st) k = true -> mapHas (replacers (replay evs st)) k = true) /\
  (NoDup (keys (replacers st)) -> NoDup (keys (replacers (replay evs st)))) /\
  (forall a h, EvHash a h ∈ evs -> mapHas (replacers (replay evs st)) a = true).
Proof.
  intros Hevs. repeat split.
  - intros k Hk. rewrite mapHas_replay, Hk. reflexivity.
  - apply NoDup_keys_replay.
  - intros a h Ha. rewrite mapHas_replay. apply orb_true_iff. right.
    apply bool_decide_eq_true. exact (Hevs a h Ha).
Qed.

Lemma processImage_Done p q st d st' :
  processImage p q st = Done d st' -> (exists b, d = Buffer b) /\ replacers st' = replacers st.
Proof.
  unfold processImage. intros H.
  apply bind_Done in H as ([] & st1 & H1 & H). injection H1 as <-.
  apply bind_Done in H as (buffer & st2 & H2 & H).
  destruct (readBytes p); [| discriminate]. injection H2 as <- <-.
  destruct (JS.truthy _ && negb _).
  - apply bind_Done in H as ([] & st3 & H3 & H). injection H3 as <-.
    apply bind_Done in H as (resized & st4 & H4 & H).
    destruct (sharp_resize _ _); [| discriminate]. injection H4 as <- <-.
    injection H as <- <-. split; [eauto | reflexivity].
  - injection H as <- <-. split; [eauto | reflexivity].
Qed.

Lemma image_not_script (ext : string) :
  isImageExt ext = true -> String.eqb ext ".js" || String.eqb ext ".ts" = false.
Proof.
  unfold isImageExt. intros H.
  destruct (String.eqb_spec ext ".js") as [-> | _]; [discriminate |].
  destruct (String.eqb_spec ext ".ts") as [-> | _]; [discriminate | reflexivity].
Qed.

Lemma processFile_image_key fuel a p q st st' :
  isImageExt (JS.toLowerCase (Path.extname p)) = true ->
  processFile fuel a (p, q) st = Done tt st' ->
  mapHas (replacers st') a = true.
Proof.
  intros Himg. pose proof (image_not_script _ Himg) as Hjs. unfold isImageExt in Himg.
  destruct fuel as [| fuel];
    cbn -[dataTruthy generateRoute generateHash processScript processCss processImage];
    (destruct (mapHas (replacers st) a) eqn:Hk;
       [intros H; injection H as <-; exact Hk |]);
    rewrite Hjs, Himg; intros H;
    apply bind_Done in H as (d & st1 & H1 & H);
    apply processImage_Done in H1 as [[b ->] Hsame];
    cbn [dataTruthy] in H;
    apply bind_Done in H as ([] & st2 & H2 & H); injection H2 as <-;
    apply bind_Done in H as ([] & st3 & H3 & H); injection H3 as <-;
    injection H as <-; cbn [replacers]; rewrite mapHas_set, String.eqb_refl; reflexivity.
Qed.

Lemma processFile_unsupported fuel a p q st :
  supportedExt (JS.toLowerCase (Path.extname p)) = false ->
  processFile fuel a (p, q) st = Done tt st.
Proof.
  unfold supportedExt, isScriptExt. intros H.
  apply orb_false_iff in H as [H Hcss]. apply orb_false_iff in H as [H Hjpeg].
  apply orb_false_iff in H as [H Hjpg]. apply orb_false_iff in H as [Hscript Hpng].
  destruct fuel;
    cbn -[dataTruthy generateRoute generateHash processScript processCss processImage];
    rewrite Hscript, Hpng, Hjpg, Hjpeg, Hcss; destruct (mapHas (replacers st) a); reflexivity.
Qed.

Lemma processFile_plain_script fuel a p q st :
  isScriptExt (JS.toLowerCase (Path.extname p)) = true ->
  JS.has (JS.URLSearchParams q) "worker" = false ->
  processFile fuel a (p, q) st = Done tt st.
Proof.
  unfold isScriptExt. intros Hscript Hworker.
  destruct fuel;
    cbn -[dataTruthy generateRoute generateHash processScript processCss processImage];
    rewrite Hscript, Hworker; destruct (mapHas (replacers st) a); reflexivity.
Qed.

Lemma processFile_empty_css fuel a p q st st1 :
  mapHas (replacers st) a = false ->
  JS.toLowerCase (Path.extname p) = ".css" ->
  processCss (processFile fuel) p st = Done "" st1 ->
  processFile (S fuel) a (p, q) st = Done tt st1.
Proof.
  intros Hnew Hext Hcss.
  cbn -[dataTruthy generateRoute generateHash processScript processCss processImage].
  rewrite Hnew, Hext. cbn [String.eqb Ascii.eqb Bool.eqb orb].
  unfold bind at 1. rewrite Hcss. reflexivity.
Qed.

Lemma processMatch_unresolved fuel raw m st :
  resolveAlias (snd m) = None ->
  processMatch fuel raw m st = Done raw (applyEvent st (EvResolve (snd m))).
Proof.
  intros Hres. unfold processMatch. unfold bind at 1. simpl. rewrite Hres. reflexivity.
Qed.

End Memo.

(** C1, as the code has it.  Once a token is a key, an encounter does
    nothing: [processFile] returns at its membership check with the state
    as it was, the loops over stylesheet output and script source skip the
    token before they resolve it, and the markup loop only resolves it
    again.  Keys are never removed while the table is filled, the table
    never holds two entries for a token, and a token whose artifact was
    hashed is a key from then on; the token of an image is a key whenever
    [processFile] has completed on it.  Not every token becomes a key:
    [processFile] leaves the state as it was for a file of another kind
    than script, image and stylesheet and for a script without the worker
    flag, it adds nothing to what the compilation did for a stylesheet
    whose text comes out empty, and the markup loop only resolves a token
    that does not resolve; nothing then keeps the next encounter from
    doing the same again. *)
Theorem memoized_processing {E : Env} :
  (forall fuel a rpq st,
     mapHas (replacers st) a = true -> processFile fuel a rpq st = Done tt st) /\
  (forall pf text st,
     (forall m, m ∈ matchAll text -> mapHas (replacers st) (snd m) = true) ->
     processReferences pf text st = Done tt st) /\
  (forall fuel raw m st,
     mapHas (replacers st) (markupKey m) = true ->
     processMatch fuel raw m st = Done raw (applyEvent st (EvResolve (snd m)))) /\
  (forall fuel a rpq st st',
     processFile fuel a rpq st = Done tt st' ->
     exists evs, st' = replay evs st /\
       (forall k, mapHas (replacers st) k = true -> mapHas (replacers st') k = true) /\
       (NoDup (keys (replacers st)) -> NoDup (keys (replacers st'))) /\
       (forall a' h, EvHash a' h ∈ evs -> mapHas (replacers st') a' = true)) /\
  (forall fuel st rawHTMLs st',
     processAll fuel st = Done rawHTMLs st' ->
     exists evs, st' = replay evs st /\
       (forall k, mapHas (replacers st) k = true -> mapHas (replacers st') k = true) /\
       (NoDup (keys (replacers st)) -> NoDup (keys (replacers st'))) /\
       (forall a' h, EvHash a' h ∈ evs -> mapHas (replacers st') a' = true)) /\
  (forall fuel a p q st st',
     isImageExt (JS.toLowerCase (Path.extname p)) = true ->
     processFile fuel a (p, q) st = Done tt st' ->
     mapHas (replacers st') a = true) /\
  (forall fuel a p q st,
     supportedExt (JS.toLowerCase (Path.extname p)) = false ->
     processFile fuel a (p, q) st = Done tt st) /\
  (forall fuel a p q st,
     isScriptExt (JS.toLowerCase (Path.extname p)) = true ->
     JS.has (JS.URLSearchParams q) "worker" = false ->
     processFile fuel a (p, q) st = Done tt st) /\
  (forall fuel a p q st st1,
     mapHas (replacers st) a = false ->
     JS.toLowerCase (Path.extname p) = ".css" ->
     processCss (processFile fuel) p st = Done "" st1 ->
     processFile (S fuel) a (p, q) st = Done tt st1) /\
  (forall fuel raw m st,
     resolveAlias (snd m) = None ->
     processMatch fuel raw m st = Done raw (applyEvent st (EvResolve (snd m)))).
Proof.
  split; [exact processFile_known |].
  split; [exact processReferences_known |].
  split; [exact processMatch_known |].
  split; [| split; [| split; [| split; [| split; [| split]]]]].
  - intros fuel a rpq st st' H.
    apply (traced_Done hashedIsSet _ _ _ _ (traced_processFile fuel a rpq)) in H
      as (evs & -> & Hevs).
    exists evs. split; [reflexivity | apply after_trace, Hevs].
  - intros fuel st rawHTMLs st' H.
    apply (traced_Done hashedIsSet _ _ _ _ (traced_processAll fuel)) in H as (evs & -> & Hevs).
    exists evs. split; [reflexivity | apply after_trace, Hevs].
  - intros fuel a p q st st'. apply processFile_image_key.
  - exact processFile_unsupported.
  - exact processFile_plain_script.
  - exact processFile_empty_css.
  - exact processMatch_unresolved.
Qed.

Lemma memoized_processing_witness :
  mapHas (replacers Example.pageBuilt) "@/img/a.png" = true /\
  @processFile Example.page 5 "@/img/a.png" ("/project/frontend/img/a.png", None)
    Example.pageBuilt
  = Done tt Example.pageBuilt.
Proof.
  split; [vm_compute; reflexivity |].
  apply (proj1 (@memoized_processing Example.page)). vm_compute; reflexivity.
Defined.

(** C1 as stated fails.  In the build of [Example.page] the token
    [@/img/a.png], met twice in the markup, is resolved twice; the token
    [@/font.woff2], met twice, is resolved twice and has no entry in the
    table.  In the build of [Example.emptyCssPage] the stylesheet, met
    twice, is compiled twice and has no entry. *)
Lemma work_is_repeated :
  countEvents (isResolveOf "@/img/a.png") (log Example.pageBuilt) = 2%nat /\
  countEvents (isResolveOf "@/font.woff2") (log Example.pageBuilt) = 2%nat /\
  mapGet (replacers Example.pageBuilt) "@/font.woff2" = None /\
  @bundle Example.emptyCssPage 5 Example.emptyState = Done tt Example.emptyCssPageBuilt /\
  countEvents (isCompileOf "/project/frontend/style.css") (log Example.emptyCssPageBuilt) = 2%nat /\
  mapGet (replacers Example.emptyCssPageBuilt) "@/style.css" = None.
Proof. repeat split; vm_compute; reflexivity. Qed.

(** *** The dev loop without a backend *)

Section DevExtras.
Context {E : Env}.

Lemma exits_nil (pids : list nat) :
  fold_left (fun ps pid => <[pid := false]> ps) pids ([] : list bool) = [].
Proof.
  apply length_zero_iff_nil. rewrite exits_length. reflexivity.
Qed.

(** X1.  Without [backendLanguage] the loop only watches the frontend and
    builds: whatever happens, it starts no process, sends no signal,
    aborts nothing and publishes no reload message, whether or not
    [autoReload] is set. *)
Theorem frontend_only_dev_is_silent (ticks : list Tick) :
  backendLanguage config = None ->
  procs (dev ticks) = [] /\
  signals (dev ticks) = [] /\
  published (dev ticks) = [] /\
  webServer (dev ticks) = None /\
  controllers (dev ticks) = [false] /\
  autoReloadRevision (dev ticks) = 0%nat /\
  (pc (dev ticks) = AtSleep \/ pc (dev ticks) = AtBundle).
Proof.
  intros Hnone. induction ticks as [| t ticks IH] using rev_ind.
  - simpl. repeat split; auto.
  - rewrite dev_snoc. destruct IH as (Hp & Hs & Hpub & Hw & Hc & Hr & Hpc).
    unfold step. unfold applyExits at 1. simpl.
    destruct Hpc as [Hpc | Hpc]; rewrite Hpc.
    + destruct (changed _ _); simpl.
      * rewrite Hp, exits_nil. repeat split; auto.
      * unfold superviseBackend. rewrite Hnone. simpl.
        rewrite Hp, exits_nil. repeat split; auto.
    + unfold superviseBackend. rewrite Hnone. simpl.
      rewrite Hp, exits_nil. repeat split; auto.
Qed.

End DevExtras.

Lemma frontend_only_dev_is_silent_witness :
  @backendLanguage (@config Example.frontendOnly) = None /\
  published (@dev Example.frontendOnly
               [Example.tick Example.mainV1 true; Example.tick Example.mainV1 true;
                Example.tick Example.mainV2 true; Example.tick Example.mainV2 true]) = [] /\
  bundles (@dev Example.frontendOnly
             [Example.tick Example.mainV1 true; Example.tick Example.mainV1 true;
              Example.tick Example.mainV2 true; Example.tick Example.mainV2 true]) = 2%nat.
Proof.
  split; [reflexivity |]. split.
  - apply (@frontend_only_dev_is_silent Example.frontendOnly). reflexivity.
  - vm_compute. reflexivity.
Defined.

(** *** Reload messages *)

Section Reload.
Context {E : Env}.

Lemma reloadInvariant_setPc p s :
  reloadInvariant s -> p <> AtPing -> p <> AtRetry -> reloadInvariant (setPc p s).
Proof.
  intros [Hpub _] H1 H2. split; [exact Hpub |]. simpl. intros [? | ?]; congruence.
Qed.

Lemma reloadInvariant_spawnServer t s :
  published s = map pretty (seq 0 (autoReloadRevision s)) -> reloadInvariant (spawnServer t s).
Proof.
  intros Hpub. unfold spawnServer. destruct (spawnOk t).
  - destruct isAutoReload eqn:Hauto.
    + unfold notify, notifyLoop. simpl. case_match; split; simpl; eauto.
    + split; [exact Hpub |]. simpl. intros [? | ?]; discriminate.
  - split; [exact Hpub |]. simpl. intros [? | ?]; discriminate.
Qed.

Lemma reloadInvariant_pollKilled t pid s :
  published s = map pretty (seq 0 (autoReloadRevision s)) -> reloadInvariant (pollKilled t pid s).
Proof.
  intros Hpub. unfold pollKilled. destruct (killed pid s).
  - apply reloadInvariant_spawnServer, Hpub.
  - split; [exact Hpub |]. simpl. intros [? | ?]; discriminate.
Qed.

Lemma reloadInvariant_superviseBackend t s :
  published s = map pretty (seq 0 (autoReloadRevision s)) ->
  reloadInvariant (superviseBackend t s).
Proof.
  intros Hpub. unfold superviseBackend.
  destruct (backendLanguage config) as [[] |].
  - destruct (_ || _); simpl.
    + destruct (webServer s).
      * apply reloadInvariant_pollKilled. exact Hpub.
      * apply reloadInvariant_spawnServer. exact Hpub.
    + split; [exact Hpub |]. simpl. intros [? | ?]; discriminate.
  - split; [exact Hpub |]. simpl. intros [? | ?]; discriminate.
Qed.

Lemma reloadInvariant_step t s : reloadInvariant s -> reloadInvariant (step t s).
Proof.
  intros [Hpub Hwait]. unfold step.
  assert (Hpub1 : published (applyExits (exited t) s)
                  = map pretty (seq 0 (autoReloadRevision (applyExits (exited t) s))))
    by exact Hpub.
  assert (Hwait1 : pc (applyExits (exited t) s) = AtPing \/ pc (applyExits (exited t) s) = AtRetry
                   -> isAutoReload = true /\ is_Some (webServer (applyExits (exited t) s)))
    by exact Hwait.
  set (s1 := applyExits (exited t) s) in *.
  destruct (pc s1) eqn:Hpc1.
  - destruct (changed _ _).
    + split; [exact Hpub |]. simpl. intros [? | ?]; discriminate.
    + apply reloadInvariant_superviseBackend. exact Hpub.
  - apply reloadInvariant_superviseBackend. exact Hpub.
  - destruct (webServer s1); [apply reloadInvariant_pollKilled; exact Hpub |].
    split; [exact Hpub1 |]. rewrite Hpc1. intros [? | ?]; discriminate.
  - destruct (Hwait1 (or_introl eq_refl)) as [Hauto Hweb]. rewrite Hauto.
    destruct (pingOk t).
    + split; [| simpl; intros [? | ?]; discriminate].
      change (published s ++ [pretty (autoReloadRevision s)]
              = map pretty (seq 0 (S (autoReloadRevision s)))).
      rewrite Hpub, seq_S, map_app. reflexivity.
    + split; [exact Hpub1 |]. simpl. intros _. split; [exact Hauto | exact Hweb].
  - destruct (Hwait1 (or_intror eq_refl)) as [Hauto Hweb].
    unfold notifyLoop. case_match; split; simpl; auto; intros [? | ?]; discriminate.
  - split; [exact Hpub1 |]. rewrite Hpc1. intros [? | ?]; discriminate.
Qed.

Lemma reloadInvariant_dev ticks : reloadInvariant (dev ticks).
Proof.
  induction ticks as [| t ticks IH] using rev_ind.
  - split; [reflexivity |]. simpl. intros [? | ?]; discriminate.
  - rewrite dev_snoc. apply reloadInvariant_step, IH.
Qed.

(** X2.  The reload messages sent so far are the revisions [0], [1], ... in
    order, one below the other up to the counter: the [n]th message is
    [n - 1], and no two messages are equal. *)
Theorem reload_revisions_are_consecutive (ticks : list Tick) :
  published (dev ticks) = map pretty (seq 0 (autoReloadRevision (dev ticks))) /\
  length (published (dev ticks)) = autoReloadRevision (dev ticks) /\
  NoDup (published (dev ticks)).
Proof.
  destruct (reloadInvariant_dev ticks) as [Hpub _]. rewrite Hpub.
  split; [reflexivity |]. split.
  - rewrite length_map, length_seq. reflexivity.
  - apply NoDup_fmap_2; [apply _ | apply NoDup_seq].
Qed.

(** X3.  A step publishes at most one message, and only when it resumes from
    the ping of [notify] and the ping connected: then auto reload is on, a
    backend has been spawned, and the message is the counter's value. *)
Theorem reload_published_after_ping (ticks : list Tick) (t : Tick) :
  published (dev (ticks ++ [t])) <> published (dev ticks) ->
  pc (dev ticks) = AtPing /\ pingOk t = true /\ isAutoReload = true /\
  is_Some (webServer (dev ticks)) /\
  published (dev (ticks ++ [t]))
  = published (dev ticks) ++ [pretty (autoReloadRevision (dev ticks))].
Proof.
  rewrite dev_snoc. destruct (reloadInvariant_dev ticks) as [_ Hwait].
  generalize dependent (dev ticks). intros s Hwait. unfold step.
  change (pc (applyExits (exited t) s)) with (pc s).
  destruct (pc s) eqn:Hpc.
  - intros H. exfalso. apply H.
    destruct (changed _ _); [reflexivity |].
    unfold superviseBackend, pollKilled, spawnServer, notify, notifyLoop.
    repeat case_match; reflexivity.
  - intros H. exfalso. apply H.
    unfold superviseBackend, pollKilled, spawnServer, notify, notifyLoop.
    repeat case_match; reflexivity.
  - intros H. exfalso. apply H.
    unfold pollKilled, spawnServer, notify, notifyLoop. repeat case_match; reflexivity.
  - destruct (Hwait (or_introl eq_refl)) as [Hauto Hweb]. rewrite Hauto.
    destruct (pingOk t); [| intros H; exfalso; apply H; reflexivity].
    intros _. simpl. repeat split; auto.
  - intros H. exfalso. apply H. unfold notifyLoop. case_match; reflexivity.
  - intros H. exfalso. apply H. reflexivity.
Qed.

End Reload.

Lemma reload_published_after_ping_witness :
  published (@dev Example.devProject
               ([Example.tick Example.mainV1 false; Example.tick Example.mainV1 false]
                  ++ [Example.tick Example.mainV1 true]))
  <> published (@dev Example.devProject
                  [Example.tick Example.mainV1 false; Example.tick Example.mainV1 false]) /\
  published (@dev Example.devProject
               ([Example.tick Example.mainV1 false; Example.tick Example.mainV1 false]
                  ++ [Example.tick Example.mainV1 true]))
  = published (@dev Example.devProject
                 [Example.tick Example.mainV1 false; Example.tick Example.mainV1 false])
    ++ ["0"].
Proof.
  assert (H : published (@dev Example.devProject
                 ([Example.tick Example.mainV1 false; Example.tick Example.mainV1 false]
                    ++ [Example.tick Example.mainV1 true]))
              <> published (@dev Example.devProject
                   [Example.tick Example.mainV1 false; Example.tick Example.mainV1 false])).
  { vm_compute. discriminate. }
  split; [exact H |].
  exact (proj2 (proj2 (proj2 (proj2
           (@reload_published_after_ping Example.devProject _ _ H))))).
Defined.

(** *** File fingerprints of the dev loop *)

Lemma freeOf_colon_base36 (s : string) : allChars isBase36 s = true -> freeOf ":" s = true.
Proof.
  induction s as [| c s IH]; [reflexivity |]. simpl. intros H.
  apply andb_true_iff in H as [Hc Hs]. rewrite (IH Hs), andb_true_r.
  destruct (Ascii.eqb_spec c ":") as [-> |]; [discriminate Hc | reflexivity].
Qed.

(** Two texts cut at a separator that neither tail holds are cut at the
    same place. *)
Lemma cut_at_last (c : ascii) (x y a b : string) :
  freeOf c a = true -> freeOf c b = true ->
  x +:+ String c a = y +:+ String c b -> x = y /\ a = b.
Proof.
  intros Ha Hb. revert y. induction x as [| d x IH]; intros [| e y] H.
  - injection H as ->. split; reflexivity.
  - rewrite append_cons in H. injection H as <- ->.
    rewrite freeOf_app in Ha. simpl in Ha. rewrite Ascii.eqb_refl in Ha.
    simpl in Ha. rewrite andb_false_r in Ha. discriminate.
  - rewrite append_cons in H. injection H as -> <-.
    rewrite freeOf_app in Hb. simpl in Hb. rewrite Ascii.eqb_refl in Hb.
    simpl in Hb. rewrite andb_false_r in Hb. discriminate.
  - rewrite !append_cons in H. injection H as -> H.
    destruct (IH y H) as [-> ->]. split; reflexivity.
Qed.

Section Fingerprints.
Context {E : Env}.

Lemma generateFileHash_inj (f1 f2 : string * list Byte.byte) :
  generateFileHash f1 = generateFileHash f2 ->
  fst f1 = fst f2 /\ Bun_hash (binaryString (snd f1)) = Bun_hash (binaryString (snd f2)).
Proof.
  unfold generateFileHash. intros H.
  apply cut_at_last in H as [Hf Hd].
  - split; [exact Hf |].
    rewrite <- (fromString36_toString36 (Bun_hash (binaryString (snd f1)))), Hd.
    apply fromString36_toString36.
  - apply freeOf_colon_base36, allChars_toString36From. reflexivity.
  - apply freeOf_colon_base36, allChars_toString36From. reflexivity.
Qed.

Lemma binaryBytes_binaryChar (b : Byte.byte) (rest : list Byte.byte) :
  binaryBytes (binaryChar b ++ rest) = b :: binaryBytes rest.
Proof. destruct b; reflexivity. Qed.

(** The string [readFileSync(file, "binary")] gives determines the bytes
    of the file. *)
Lemma binaryBytes_binaryString (bytes : list Byte.byte) :
  binaryBytes (binaryString bytes) = bytes.
Proof.
  induction bytes as [| b bytes IH]; [reflexivity |].
  change (binaryString (b :: bytes)) with (binaryChar b ++ binaryString bytes).
  rewrite binaryBytes_binaryChar, IH. reflexivity.
Qed.

Lemma binaryString_inj (bytes1 bytes2 : list Byte.byte) :
  binaryString bytes1 = binaryString bytes2 -> bytes1 = bytes2.
Proof.
  intros H. rewrite <- (binaryBytes_binaryString bytes1), H. apply binaryBytes_binaryString.
Qed.

(** X4.  The fingerprint of a file, [name:hash] with the hash in base 36,
    determines the name and the hash: the numeral reads back as the hash
    it was written from, and two files have the same fingerprint exactly
    when they have the same name and the same [Bun.hash] of their content
    read as a binary string, a string that determines the content. *)
Theorem fingerprint_identifies_file (f1 f2 : string * list Byte.byte) :
  fromString36 (JS.toString36 (Bun_hash (binaryString (snd f1))))
  = Bun_hash (binaryString (snd f1)) /\
  (generateFileHash f1 = generateFileHash f2 <->
   fst f1 = fst f2 /\ Bun_hash (binaryString (snd f1)) = Bun_hash (binaryString (snd f2))) /\
  (binaryString (snd f1) = binaryString (snd f2) <-> snd f1 = snd f2).
Proof.
  split; [apply fromString36_toString36 |]. split.
  - split; [apply generateFileHash_inj |].
    unfold generateFileHash. intros [-> ->]. reflexivity.
  - split; [apply binaryString_inj | intros ->; reflexivity].
Qed.

(** X5.  The loop sees no change between two scans exactly when they hold the
    same names with the same hashes, the hash of a file being [Bun.hash]
    of its content read as a binary string: a file that appears,
    disappears or hashes differently is a change, and the order of the
    scan, a file listed twice and an edit that keeps the hash are not. *)
Theorem change_detection_is_exact (scan1 scan2 : list (string * list Byte.byte)) :
  changed (list_to_set (generateHashes scan1)) (list_to_set (generateHashes scan2)) = false <->
  (forall name h,
     (exists bytes, (name, bytes) ∈ scan1 /\ Bun_hash (binaryString bytes) = h) <->
     (exists bytes, (name, bytes) ∈ scan2 /\ Bun_hash (binaryString bytes) = h)).
Proof.
  assert (Hin : forall scan name h,
            (exists bytes, (name, bytes) ∈ scan /\ Bun_hash (binaryString bytes) = h) <->
            name +:+ ":" +:+ JS.toString36 h
              ∈ (list_to_set (generateHashes scan) : gset string)).
  { intros scan name h. rewrite elem_of_list_to_set. unfold generateHashes.
    rewrite list_elem_of_fmap. split.
    - intros (bytes & Hb & <-). exists (name, bytes). split; [reflexivity | exact Hb].
    - intros (f & Heq & Hf).
      exists (snd f).
      assert (Hk : generateFileHash f = name +:+ ":" +:+ JS.toString36 h) by (symmetry; exact Heq).
      unfold generateFileHash in Hk. apply cut_at_last in Hk as [Hn Hd].
      + split; [rewrite <- Hn; destruct f; exact Hf |].
        rewrite <- (fromString36_toString36 (Bun_hash (binaryString (snd f)))), Hd.
        apply fromString36_toString36.
      + apply freeOf_colon_base36, allChars_toString36From. reflexivity.
      + apply freeOf_colon_base36, allChars_toString36From. reflexivity. }
  split.
  - intros Hc name h. rewrite !Hin.
    assert (Heq : symmetricDifference (list_to_set (generateHashes scan1))
                    (list_to_set (generateHashes scan2)) = ∅).
    { destruct (decide (symmetricDifference (list_to_set (generateHashes scan1))
                          (list_to_set (generateHashes scan2)) = ∅)) as [Heq | Hne];
        [exact Heq |].
      apply changed_iff in Hne. congruence. }
    unfold symmetricDifference in Heq.
    assert (Hempty : forall x : string,
              ~ x ∈ (list_to_set (generateHashes scan1) ∖ list_to_set (generateHashes scan2))
                    ∪ (list_to_set (generateHashes scan2) ∖ list_to_set (generateHashes scan1)
                       : gset string)).
    { intros x. rewrite Heq. apply not_elem_of_empty. }
    split; intros Hx.
    + destruct (decide (name +:+ ":" +:+ JS.toString36 h
                        ∈ (list_to_set (generateHashes scan2) : gset string))) as [Hy | Hy];
        [exact Hy |].
      destruct (Hempty (name +:+ ":" +:+ JS.toString36 h)).
      apply elem_of_union. left. apply elem_of_difference. split; assumption.
    + destruct (decide (name +:+ ":" +:+ JS.toString36 h
                        ∈ (list_to_set (generateHashes scan1) : gset string))) as [Hy | Hy];
        [exact Hy |].
      destruct (Hempty (name +:+ ":" +:+ JS.toString36 h)).
      apply elem_of_union. right. apply elem_of_difference. split; assumption.
  - intros Hsame. apply not_true_is_false. intros Hc. apply changed_iff in Hc. apply Hc.
    assert (Hsets : forall x : string,
              x ∈ (list_to_set (generateHashes scan1) : gset string) <->
              x ∈ (list_to_set (generateHashes scan2) : gset string)).
    { intros x. rewrite !elem_of_list_to_set. unfold generateHashes.
      rewrite !list_elem_of_fmap. split.
      - intros ([name bytes] & -> & Hf).
        destruct (proj1 (Hsame name (Bun_hash (binaryString bytes)))) as (bytes' & Hf' & Hh);
          [eauto |].
        exists (name, bytes'). split; [| exact Hf'].
        unfold generateFileHash. simpl. rewrite Hh. reflexivity.
      - intros ([name bytes] & -> & Hf).
        destruct (proj2 (Hsame name (Bun_hash (binaryString bytes)))) as (bytes' & Hf' & Hh);
          [eauto |].
        exists (name, bytes'). split; [| exact Hf'].
        unfold generateFileHash. simpl. rewrite Hh. reflexivity. }
    unfold symmetricDifference. apply set_eq. intros x.
    rewrite elem_of_union, !elem_of_difference, Hsets.
    split; [tauto | intros Hx; destruct (not_elem_of_empty (C := gset string) x Hx)].
Qed.

End Fingerprints.

(** *** Paths: where an artifact is written and where it is served *)

Lemma split_nonempty (sep : ascii) (s : string) : JS.split sep s <> [].
Proof.
  pose proof (split_head sep s) as H. destruct (JS.split sep s); [discriminate | congruence].
Qed.

Lemma split_app_sep (sep : ascii) (x y : string) :
  JS.split sep (x +:+ String sep y) = JS.split sep x ++ JS.split sep y.
Proof.
  induction x as [| c x IH].
  - change ("" +:+ String sep y) with (String sep y). simpl.
    rewrite Ascii.eqb_refl. reflexivity.
  - rewrite append_cons. simpl. destruct (Ascii.eqb c sep).
    + rewrite IH. reflexivity.
    + rewrite IH. pose proof (split_nonempty sep x) as Hne.
      destruct (JS.split sep x) as [| p ps]; [congruence | reflexivity].
Qed.

Lemma split_concat (parts : list string) :
  parts <> [] ->
  JS.split "/" (String.concat "/" parts) = List.concat (map (JS.split "/") parts).
Proof.
  induction parts as [| x parts IH]; [congruence |]. intros _.
  destruct parts as [| y parts].
  - simpl. rewrite app_nil_r. reflexivity.
  - change (String.concat "/" (x :: y :: parts))
      with (x +:+ String "/" (String.concat "/" (y :: parts))).
    rewrite split_app_sep, IH by discriminate. reflexivity.
Qed.

Lemma fold_pushSegment_filter (b : bool) (l kept : list string) :
  fold_left (Path.pushSegment b) (filter (fun s => s <> "") l) kept
  = fold_left (Path.pushSegment b) l kept.
Proof.
  revert kept. induction l as [| s l IH]; intros kept; [reflexivity |].
  destruct (decide (s = "")) as [-> | Hne].
  - rewrite filter_cons_False by (intros H; apply H; reflexivity). simpl. apply IH.
  - rewrite filter_cons_True by exact Hne. simpl. apply IH.
Qed.

(** The segments of a joined path that count: the non-empty ones of its
    non-empty arguments. *)
Lemma segments_filter (args : list string) :
  filter (fun s => s <> "") (List.concat (map (JS.split "/") (filter (fun a => a <> "") args)))
  = filter (fun s => s <> "") (List.concat (map (JS.split "/") args)).
Proof.
  induction args as [| a args IH]; [reflexivity |].
  destruct (decide (a = "")) as [-> | Hne].
  - rewrite filter_cons_False by (intros H; apply H; reflexivity).
    simpl. rewrite filter_cons_False by (intros H; apply H; reflexivity). exact IH.
  - rewrite filter_cons_True by exact Hne. simpl. rewrite !filter_app, IH. reflexivity.
Qed.

Lemma revOnto_spec (s acc : string) : JS.revOnto s acc = JS.rev s +:+ acc.
Proof.
  unfold JS.rev. revert acc. induction s as [| c s IH]; intros acc; [reflexivity |].
  simpl. rewrite IH, (IH (String c "")), append_assoc. reflexivity.
Qed.

Lemma rev_cons (c : ascii) (s : string) : JS.rev (String c s) = JS.rev s +:+ String c "".
Proof. unfold JS.rev at 1. simpl. apply revOnto_spec. Qed.

Lemma rev_app (s t : string) : JS.rev (s +:+ t) = JS.rev t +:+ JS.rev s.
Proof.
  induction s as [| c s IH].
  - change ("" +:+ t) with t. change (JS.rev "") with "". rewrite append_nil_r. reflexivity.
  - rewrite append_cons, !rev_cons, IH, append_assoc. reflexivity.
Qed.

Lemma rev_involutive (s : string) : JS.rev (JS.rev s) = s.
Proof.
  induction s as [| c s IH]; [reflexivity |].
  rewrite rev_cons, rev_app, IH. reflexivity.
Qed.

Lemma lastChar_app (s t : string) : t <> "" -> Path.lastChar (s +:+ t) = Path.lastChar t.
Proof.
  intros Ht. unfold Path.lastChar. rewrite rev_app.
  destruct (JS.rev t) as [| c r] eqn:Hr; [| reflexivity].
  apply (f_equal JS.rev) in Hr. rewrite rev_involutive in Hr. contradiction.
Qed.

Lemma lastChar_concat (l : list string) (x : string) :
  x <> "" -> Path.lastChar (String.concat "/" (l ++ [x])) = Path.lastChar x.
Proof.
  intros Hx. induction l as [| a l IH]; [reflexivity |].
  destruct l as [| b l].
  - change (String.concat "/" ([a] ++ [x])) with (a +:+ String "/" x).
    change (String "/" x) with ("/" +:+ x). rewrite <- append_assoc. apply lastChar_app, Hx.
  - change (String.concat "/" ((a :: b :: l) ++ [x]))
      with (a +:+ String "/" (String.concat "/" ((b :: l) ++ [x]))).
    change (String "/" (String.concat "/" ((b :: l) ++ [x])))
      with ("/" +:+ String.concat "/" ((b :: l) ++ [x])).
    rewrite <- append_assoc, lastChar_app; [exact IH |].
    intros H. rewrite H in IH. unfold Path.lastChar in IH. simpl in IH.
    destruct (JS.rev x) as [| c r] eqn:Hr; [| discriminate].
    apply (f_equal JS.rev) in Hr. rewrite rev_involutive in Hr. contradiction.
Qed.

Lemma concat_head (c : ascii) (s : string) (l : list string) :
  exists t, String.concat "/" (String c s :: l) = String c t.
Proof. destruct l; simpl; eauto. Qed.

(** Two non-empty paths with the same first character, the same last
    character and the same segments that count normalize alike. *)
Lemma normalize_eq (c : ascii) (p q : string) :
  Path.lastChar (String c p) = Path.lastChar (String c q) ->
  filter (fun s => s <> "") (JS.split "/" (String c p))
  = filter (fun s => s <> "") (JS.split "/" (String c q)) ->
  Path.normalize (String c p) = Path.normalize (String c q).
Proof.
  intros Hlast Hsegs. unfold Path.normalize, Path.normalizeString.
  rewrite Hlast.
  rewrite <- (fold_pushSegment_filter _ (JS.split "/" (String c p))), Hsegs,
    fold_pushSegment_filter.
  reflexivity.
Qed.

Section Routes.
Context {E : Env}.

Lemma join_nonempty_head (c : ascii) (s : string) (rest : list string) :
  Path.join (String c s :: rest)
  = Path.normalize (String.concat "/" (String c s :: filter (fun a => a <> "") rest)).
Proof. unfold Path.join. rewrite filter_cons_True by discriminate. reflexivity. Qed.

(** X6.  The route under which an artifact is entered in the table, resolved
    below the bundle directory, is the path the artifact is written to:
    a server that serves [bundleDir] at [/] finds the file at its
    route. *)
Theorem route_names_written_file (resourcePath hash : string) :
  cwd <> "" ->
  outPath (generateRoute resourcePath hash)
  = Path.join [cwd; bundleDir config; route (generateRoute resourcePath hash)].
Proof.
  intros Hcwd. unfold generateRoute. simpl.
  set (outName := Path.name (Path.parse resourcePath) +:+ "." +:+ hash
                  +:+ Path.ext (Path.parse resourcePath)).
  set (A := assetsDir config). set (B := bundleDir config).
  assert (Hout : outName <> "").
  { unfold outName. destruct (Path.name (Path.parse resourcePath)); discriminate. }
  destruct cwd as [| c0 s0]; [congruence |]. clear Hcwd.
  rewrite !join_nonempty_head.
  destruct (concat_head c0 s0 (filter (fun a => a <> "") [B; A; outName])) as [p Hp].
  destruct (concat_head c0 s0 (filter (fun a => a <> "") [B; "/" +:+ A +:+ "/" +:+ outName]))
    as [q Hq].
  rewrite Hp, Hq. apply normalize_eq; rewrite <- Hp, <- Hq.
  - assert (HL : String c0 s0 :: filter (fun a => a <> "") [B; A; outName]
                 = (String c0 s0 :: filter (fun a => a <> "") [B; A]) ++ [outName]).
    { change [B; A; outName] with ([B; A] ++ [outName]). rewrite filter_app.
      rewrite (filter_cons_True _ outName []) by exact Hout. reflexivity. }
    assert (HR : String c0 s0 :: filter (fun a => a <> "") [B; "/" +:+ A +:+ "/" +:+ outName]
                 = (String c0 s0 :: filter (fun a => a <> "") [B])
                     ++ ["/" +:+ A +:+ "/" +:+ outName]).
    { change [B; "/" +:+ A +:+ "/" +:+ outName] with ([B] ++ ["/" +:+ A +:+ "/" +:+ outName]).
      rewrite filter_app.
      rewrite (filter_cons_True _ ("/" +:+ A +:+ "/" +:+ outName) []) by discriminate.
      reflexivity. }
    rewrite HL, HR.
    rewrite !lastChar_concat by (exact Hout || discriminate).
    symmetry.
    rewrite <- (append_assoc A "/" outName), <- (append_assoc "/" (A +:+ "/") outName).
    apply lastChar_app, Hout.
  - rewrite !split_concat by discriminate.
    change (String c0 s0 :: filter (fun a => a <> "") [B; A; outName])
      with (filter (fun a => a <> "") [String c0 s0; B; A; outName]).
    change (String c0 s0 :: filter (fun a => a <> "") [B; "/" +:+ A +:+ "/" +:+ outName])
      with (filter (fun a => a <> "") [String c0 s0; B; "/" +:+ A +:+ "/" +:+ outName]).
    rewrite !segments_filter. cbn [map List.concat]. rewrite !app_nil_r.
    change ("/" +:+ A +:+ "/" +:+ outName) with ("" +:+ String "/" (A +:+ String "/" outName)).
    rewrite !split_app_sep. change (JS.split "/" "") with [""].
    rewrite !filter_app.
    rewrite (filter_cons_False _ "" []) by (intros H; apply H; reflexivity).
    reflexivity.
Qed.

End Routes.

Lemma route_names_written_file_witness :
  @cwd Example.page <> "" /\
  outPath (@generateRoute Example.page "/project/frontend/img/a.png" "1x2y3z")
  = "/project/.bundle/assets/a.1x2y3z.png" /\
  @Path.join [@cwd Example.page; bundleDir (@config Example.page);
              route (@generateRoute Example.page "/project/frontend/img/a.png" "1x2y3z")]
  = "/project/.bundle/assets/a.1x2y3z.png".
Proof.
  split; [discriminate |]. split; [vm_compute; reflexivity |].
  rewrite <- (@route_names_written_file Example.page) by discriminate.
  vm_compute. reflexivity.
Defined.

(** *** Paths: the name of an artifact *)

Lemma allChars_app (f : ascii -> bool) (s t : string) :
  allChars f (s +:+ t) = allChars f s && allChars f t.
Proof.
  induction s as [| c s IH]; [reflexivity |]. rewrite append_cons. simpl.
  rewrite IH, andb_assoc. reflexivity.
Qed.

Lemma freeOf_allChars (m : ascii) (s : string) :
  freeOf m s = allChars (fun c => negb (Ascii.eqb c m)) s.
Proof. induction s as [| c s IH]; [reflexivity |]. simpl. rewrite IH. reflexivity. Qed.

Lemma freeOf_rev (m : ascii) (s : string) : freeOf m (JS.rev s) = freeOf m s.
Proof.
  induction s as [| c s IH]; [reflexivity |].
  rewrite rev_cons, freeOf_app, IH. simpl. rewrite andb_true_r. apply andb_comm.
Qed.

Lemma length_rev (s : string) : String.length (JS.rev s) = String.length s.
Proof.
  induction s as [| c s IH]; [reflexivity |].
  rewrite rev_cons, length_append, IH. simpl. lia.
Qed.

Lemma freeOf_takeWhile (m : ascii) (s : string) :
  freeOf m (JS.takeWhile (fun c => negb (Ascii.eqb c m)) s) = true.
Proof.
  induction s as [| c s IH]; [reflexivity |]. simpl.
  destruct (Ascii.eqb c m) eqn:Hc; simpl; [reflexivity |]. rewrite Hc. exact IH.
Qed.

(** A text is its longest prefix without [m] followed by nothing or by
    [m] and the rest. *)
Lemma takeWhile_cut (m : ascii) (s : string) :
  let head := JS.takeWhile (fun c => negb (Ascii.eqb c m)) s in
  JS.drop (String.length head) s = "" /\ s = head \/
  exists rest, JS.drop (String.length head) s = String m rest /\ s = head +:+ String m rest.
Proof.
  induction s as [| c s IH]; simpl; [left; split; reflexivity |].
  destruct (Ascii.eqb_spec c m) as [-> | Hne]; simpl.
  - right. exists s. split; reflexivity.
  - destruct IH as [[Hd Hs] | (rest & Hd & Hs)].
    + left. split; [exact Hd | congruence].
    + right. exists rest. split; [exact Hd |]. rewrite append_cons. congruence.
Qed.

Lemma takeWhile_free (m : ascii) (s t : string) :
  freeOf m s = true ->
  JS.takeWhile (fun c => negb (Ascii.eqb c m)) (s +:+ String m t) = s.
Proof.
  induction s as [| c s IH].
  - intros _. change ("" +:+ String m t) with (String m t). simpl.
    rewrite Ascii.eqb_refl. reflexivity.
  - intros H. simpl in H. apply andb_true_iff in H as [Hc Hs]. rewrite append_cons. simpl.
    rewrite Hc, (IH Hs). reflexivity.
Qed.

Lemma takeWhile_all (m : ascii) (s : string) :
  freeOf m s = true -> JS.takeWhile (fun c => negb (Ascii.eqb c m)) s = s.
Proof.
  induction s as [| c s IH]; simpl; [reflexivity |].
  intros H. apply andb_true_iff in H as [Hc Hs]. rewrite Hc, (IH Hs). reflexivity.
Qed.

Lemma split_free (sep : ascii) (s : string) : freeOf sep s = true -> JS.split sep s = [s].
Proof.
  induction s as [| c s IH]; simpl; [reflexivity |].
  intros H. apply andb_true_iff in H as [Hc Hs].
  apply negb_true_iff in Hc. rewrite Hc, (IH Hs). reflexivity.
Qed.

Lemma dropWhile_isSlash_free (s t : string) :
  freeOf "/" s = true -> s <> "" -> JS.dropWhile Path.isSlash (s +:+ t) = s +:+ t.
Proof.
  destruct s as [| c s]; [congruence |]. intros H _. simpl in H.
  apply andb_true_iff in H as [Hc _]. apply negb_true_iff in Hc.
  rewrite append_cons. simpl. unfold Path.isSlash. rewrite Hc. reflexivity.
Qed.

(** [basename] of a text that ends with a segment: the segment. *)
Lemma basename_segment (pre seg : string) :
  freeOf "/" seg = true -> seg <> "" ->
  pre = "" \/ (exists pre', pre = pre' +:+ "/") ->
  Path.basename (pre +:+ seg) = seg.
Proof.
  intros Hfree Hne Hpre. unfold Path.basename. rewrite rev_app.
  assert (Hrfree : freeOf "/" (JS.rev seg) = true) by (rewrite freeOf_rev; exact Hfree).
  assert (Hrne : JS.rev seg <> "").
  { intros H. apply (f_equal JS.rev) in H. rewrite rev_involutive in H. contradiction. }
  rewrite dropWhile_isSlash_free by assumption.
  change (fun c => negb (Path.isSlash c)) with (fun c => negb (Ascii.eqb c "/")).
  destruct Hpre as [-> | (pre' & ->)].
  - change (JS.rev "") with "". rewrite append_nil_r, takeWhile_all by exact Hrfree.
    apply rev_involutive.
  - rewrite rev_app. change (JS.rev "/") with "/".
    change ("/" +:+ JS.rev pre') with (String "/" (JS.rev pre')).
    rewrite takeWhile_free by exact Hrfree. apply rev_involutive.
Qed.

Lemma freeOf_basename (p : string) : freeOf "/" (Path.basename p) = true.
Proof.
  unfold Path.basename. rewrite freeOf_rev.
  change (fun c => negb (Path.isSlash c)) with (fun c => negb (Ascii.eqb c "/")).
  apply freeOf_takeWhile.
Qed.

(** What [splitExt] returns: the two parts of [base]; the extension is
    empty or a dot and a text without dots, after a name that is not
    empty. *)
Lemma splitExt_shape (base : string) :
  base = fst (Path.splitExt base) +:+ snd (Path.splitExt base) /\
  (snd (Path.splitExt base) = "" \/
   exists x, snd (Path.splitExt base) = String "." x /\ freeOf "." x = true /\
             fst (Path.splitExt base) <> "").
Proof.
  unfold Path.splitExt.
  pose proof (takeWhile_cut "." (JS.rev base)) as Hcut. simpl in Hcut.
  pose proof (freeOf_takeWhile "." (JS.rev base)) as Hfree.
  set (h := JS.takeWhile (fun c => negb (Ascii.eqb c ".")) (JS.rev base)) in *.
  destruct Hcut as [[Hd Hs] | (rest & Hd & Hs)]; rewrite Hd.
  - simpl. rewrite append_nil_r. split; [reflexivity | left; reflexivity].
  - destruct (String.eqb rest "" || String.eqb base "..") eqn:Hcase; simpl.
    + rewrite append_nil_r. split; [reflexivity | left; reflexivity].
    + apply orb_false_iff in Hcase as [Hrest _]. apply String.eqb_neq in Hrest.
      split.
      * rewrite <- (rev_involutive base) at 1. rewrite Hs, rev_app, rev_cons.
        rewrite append_assoc. reflexivity.
      * right. eexists. split; [reflexivity |]. split; [rewrite freeOf_rev; exact Hfree |].
        intros H. apply (f_equal JS.rev) in H. rewrite rev_involutive in H. contradiction.
Qed.

(** [splitExt] of a name with a digest put before its extension. *)
Lemma splitExt_digest (n hash x : string) :
  freeOf "." hash = true -> hash <> "" -> freeOf "." x = true ->
  Path.splitExt (n +:+ "." +:+ hash +:+ String "." x) = (n +:+ "." +:+ hash, String "." x).
Proof.
  intros Hh Hne Hx. unfold Path.splitExt.
  assert (Hrev : JS.rev (n +:+ "." +:+ hash +:+ String "." x)
                 = JS.rev x +:+ String "." (JS.rev (n +:+ "." +:+ hash))).
  { rewrite <- (append_assoc "." hash), <- (append_assoc n).
    rewrite rev_app, rev_cons, append_assoc. reflexivity. }
  rewrite Hrev, takeWhile_free by (rewrite freeOf_rev; exact Hx).
  rewrite drop_app_length.
  assert (Hname : String.eqb (JS.rev (n +:+ "." +:+ hash)) "" = false).
  { apply String.eqb_neq. intros H. apply (f_equal String.length) in H.
    rewrite length_rev, !length_append in H. simpl in H. lia. }
  assert (Hdots : String.eqb (n +:+ "." +:+ hash +:+ String "." x) ".." = false).
  { apply String.eqb_neq. intros H. apply (f_equal String.length) in H.
    rewrite !length_append in H. simpl in H.
    destruct hash; [congruence | simpl in H; lia]. }
  rewrite Hname, Hdots. simpl. rewrite !rev_involutive. reflexivity.
Qed.

Lemma concat_snoc (l : list string) (x : string) :
  exists pre, String.concat "/" (l ++ [x]) = pre +:+ x /\
              (pre = "" \/ exists pre', pre = pre' +:+ "/").
Proof.
  induction l as [| a l IH].
  - exists "". split; [reflexivity | left; reflexivity].
  - destruct IH as (pre & Hp & Hpre).
    exists (a +:+ "/" +:+ pre). split.
    + change ((a :: l) ++ [x]) with (a :: (l ++ [x])).
      destruct (l ++ [x]) as [| y ys] eqn:Hl; [destruct l; discriminate |].
      change (String.concat "/" (a :: y :: ys)) with (a +:+ "/" +:+ String.concat "/" (y :: ys)).
      rewrite Hp, !append_assoc. reflexivity.
    + right. destruct Hpre as [-> | (pre' & ->)].
      * exists a. reflexivity.
      * exists (a +:+ "/" +:+ pre'). rewrite !append_assoc. reflexivity.
Qed.

Lemma pushSegment_normal (b : bool) (kept : list string) (seg : string) :
  seg <> "" -> seg <> "." -> seg <> ".." -> Path.pushSegment b kept seg = seg :: kept.
Proof.
  intros H1 H2 H3. unfold Path.pushSegment.
  apply String.eqb_neq in H1, H2, H3. rewrite H1, H2, H3. reflexivity.
Qed.

Lemma lastChar_free (seg : string) :
  freeOf "/" seg = true ->
  match Path.lastChar seg with Some c => Path.isSlash c | None => false end = false.
Proof.
  intros H. rewrite <- freeOf_rev in H. unfold Path.lastChar.
  destruct (JS.rev seg) as [| c r]; [reflexivity |]. simpl in H.
  apply andb_true_iff in H as [Hc _]. apply negb_true_iff in Hc. exact Hc.
Qed.

(** A path joined from arguments the last of which is one segment ends
    with that segment. *)
Lemma basename_join (args : list string) (seg : string) :
  freeOf "/" seg = true -> seg <> "" -> seg <> "." -> seg <> ".." ->
  Path.basename (Path.join (args ++ [seg])) = seg.
Proof.
  intros Hfree H1 H2 H3. unfold Path.join. rewrite filter_app.
  rewrite (filter_cons_True _ seg []) by exact H1.
  change (filter (fun a => a <> "") []) with (@nil string).
  set (parts := filter (fun a => a <> "") args).
  destruct (parts ++ [seg]) as [| y ys] eqn:Hparts; [destruct parts; discriminate |].
  rewrite <- Hparts. clear y ys Hparts.
  destruct (concat_snoc parts seg) as (pre & Hpre & Hshape).
  assert (Hlast : match Path.lastChar (String.concat "/" (parts ++ [seg])) with
                  | Some c => Path.isSlash c
                  | None => false
                  end = false).
  { rewrite lastChar_concat by exact H1. apply lastChar_free, Hfree. }
  assert (Hbody : forall b, exists pre2,
            Path.normalizeString (String.concat "/" (parts ++ [seg])) b = pre2 +:+ seg /\
            (pre2 = "" \/ exists pre', pre2 = pre' +:+ "/")).
  { intros b. unfold Path.normalizeString.
    rewrite split_concat by (destruct parts; discriminate).
    rewrite map_app, concat_app. cbn [map List.concat].
    rewrite (split_free "/" seg Hfree), app_nil_r, fold_left_app. cbn [fold_left].
    rewrite pushSegment_normal by assumption. rewrite reverse_cons.
    apply concat_snoc. }
  unfold Path.normalize.
  destruct (String.concat "/" (parts ++ [seg])) as [| c0 rest] eqn:HP.
  { apply (f_equal String.length) in Hpre. rewrite length_append in Hpre.
    destruct seg; [congruence | simpl in Hpre; lia]. }
  rewrite Hlast. destruct (Hbody (negb (Path.isSlash c0))) as (pre2 & -> & Hshape2).
  destruct (pre2 +:+ seg) as [| c1 body] eqn:Hb.
  { apply (f_equal String.length) in Hb. rewrite length_append in Hb.
    destruct seg; [congruence | simpl in Hb; lia]. }
  rewrite <- Hb. destruct (Path.isSlash c0).
  - rewrite <- append_assoc. apply basename_segment; [exact Hfree | exact H1 |].
    right. destruct Hshape2 as [-> | (pre' & ->)].
    + exists "". reflexivity.
    + exists ("/" +:+ pre'). rewrite append_assoc. reflexivity.
  - apply basename_segment; assumption.
Qed.

Lemma freeOf_base36 (m : ascii) (s : string) :
  isBase36 m = false -> allChars isBase36 s = true -> freeOf m s = true.
Proof.
  intros Hm. induction s as [| c s IH]; [reflexivity |]. simpl. intros H.
  apply andb_true_iff in H as [Hc Hs]. rewrite (IH Hs), andb_true_r.
  destruct (Ascii.eqb_spec c m) as [-> |]; [congruence | reflexivity].
Qed.

Lemma length_toString36From_acc (fuel : nat) (n : N) (acc : string) :
  (String.length acc <= String.length (JS.toString36From fuel n acc))%nat.
Proof.
  revert n acc. induction fuel as [| fuel IH]; intros n acc; simpl; [lia |].
  destruct (n <? 36)%N; simpl; [lia |].
  etransitivity; [| apply IH]. simpl. lia.
Qed.

Lemma toString36_nonempty (n : N) : JS.toString36 n <> "".
Proof.
  unfold JS.toString36. intros H. apply (f_equal String.length) in H.
  simpl in H. destruct (n <? 36)%N; [discriminate |].
  pose proof (length_toString36From_acc (N.to_nat (N.log2 n)) (n / 36)
                (String (JS.digit36 (n mod 36)) "")) as Hle.
  rewrite H in Hle. simpl in Hle. lia.
Qed.

Section ArtifactName.
Context {E : Env}.

Lemma generateHash_shape (content : data) :
  generateHash content <> "" /\ allChars isBase36 (generateHash content) = true.
Proof.
  unfold generateHash, JS.slice. split.
  - pose proof (toString36_nonempty (Bun_hash (bytesOf content))) as Hne.
    destruct (JS.toString36 (Bun_hash (bytesOf content))); [congruence | discriminate].
  - apply allChars_take. change (JS.drop 0 (JS.toString36 (Bun_hash (bytesOf content))))
      with (JS.toString36 (Bun_hash (bytesOf content))). unfold JS.toString36. apply allChars_toString36From. reflexivity.
Qed.

(** The resource's name and extension, as [path.parse] gives them, hold
    no slash; the extension is empty or a dot and a text without dots. *)
Lemma parse_shape (resourcePath : string) :
  Path.basename resourcePath
  = Path.name (Path.parse resourcePath) +:+ Path.ext (Path.parse resourcePath) /\
  Path.ext (Path.parse resourcePath) = Path.extname resourcePath /\
  freeOf "/" (Path.name (Path.parse resourcePath)) = true /\
  freeOf "/" (Path.ext (Path.parse resourcePath)) = true /\
  (Path.ext (Path.parse resourcePath) = "" \/
   exists x, Path.ext (Path.parse resourcePath) = String "." x /\ freeOf "." x = true).
Proof.
  assert (Hparse : Path.parse resourcePath
                   = {| Path.name := fst (Path.splitExt (Path.basename resourcePath));
                        Path.ext := snd (Path.splitExt (Path.basename resourcePath)) |}).
  { unfold Path.parse. destruct (Path.splitExt (Path.basename resourcePath)). reflexivity. }
  rewrite Hparse. cbn [Path.name Path.ext].
  destruct (splitExt_shape (Path.basename resourcePath)) as [Hbase Hext].
  pose proof (freeOf_basename resourcePath) as Hslash.
  rewrite Hbase, freeOf_app in Hslash. apply andb_true_iff in Hslash as [Hn He].
  split; [exact Hbase |]. split; [reflexivity |]. split; [exact Hn |]. split; [exact He |].
  destruct Hext as [Hempty | (x & Hx & Hfree & _)]; [left; exact Hempty | right; eauto].
Qed.

(** The last segment of the path an artifact is written to. *)
Lemma basename_outPath (resourcePath : string) (content : data) :
  Path.basename (outPath (generateRoute resourcePath (generateHash content)))
  = Path.name (Path.parse resourcePath) +:+ "." +:+ generateHash content
      +:+ Path.ext (Path.parse resourcePath).
Proof.
  destruct (generateHash_shape content) as [Hne H36].
  destruct (parse_shape resourcePath) as (_ & _ & Hn & He & _).
  unfold generateRoute. cbn [outPath].
  set (hash := generateHash content) in *.
  set (n := Path.name (Path.parse resourcePath)) in *.
  set (e := Path.ext (Path.parse resourcePath)) in *.
  assert (Hdot : freeOf "." hash = true) by (apply freeOf_base36; [reflexivity | exact H36]).
  apply (basename_join [cwd; bundleDir config; assetsDir config]).
  - rewrite !freeOf_app, Hn, He. simpl.
    rewrite (freeOf_base36 "/" hash) by (reflexivity || exact H36). reflexivity.
  - intros H. apply (f_equal String.length) in H. rewrite !length_append in H.
    simpl in H. lia.
  - intros H. apply (f_equal String.length) in H. rewrite !length_append in H.
    simpl in H. destruct hash; [congruence | simpl in H; lia].
  - intros H. apply (f_equal (allChars (fun c => Ascii.eqb c "."))) in H.
    rewrite !allChars_app in H. simpl in H.
    destruct hash as [| h hs]; [congruence |]. simpl in Hdot.
    apply andb_true_iff in Hdot as [Hh _]. apply negb_true_iff in Hh.
    simpl in H. rewrite Hh in H. simpl in H.
    rewrite andb_false_r in H. discriminate.
Qed.

(** [splitExt] of that segment, when the resource has an extension. *)
Lemma splitExt_outPath (resourcePath : string) (content : data) (x : string) :
  Path.ext (Path.parse resourcePath) = String "." x -> freeOf "." x = true ->
  Path.splitExt (Path.basename (outPath (generateRoute resourcePath (generateHash content))))
  = (Path.name (Path.parse resourcePath) +:+ "." +:+ generateHash content, String "." x).
Proof.
  intros Hx Hxfree. destruct (generateHash_shape content) as [Hne H36].
  rewrite basename_outPath, Hx. apply splitExt_digest;
    [apply freeOf_base36; [reflexivity | exact H36] | exact Hne | exact Hxfree].
Qed.

(** X7.  The file an artifact is written to is named [name.hash.ext] after the
    resource, the last segment of its route; when the resource has an
    extension the artifact has the same one, and its name without the
    extension is the resource's with the digest added. *)
Theorem artifact_keeps_name_and_extension (resourcePath : string) (content : data) :
  Path.basename (outPath (generateRoute resourcePath (generateHash content)))
  = Path.name (Path.parse resourcePath) +:+ "." +:+ generateHash content
      +:+ Path.ext (Path.parse resourcePath) /\
  route (generateRoute resourcePath (generateHash content))
  = "/" +:+ assetsDir config +:+ "/"
      +:+ Path.basename (outPath (generateRoute resourcePath (generateHash content))) /\
  (Path.extname resourcePath <> "" ->
   Path.extname (outPath (generateRoute resourcePath (generateHash content)))
   = Path.extname resourcePath /\
   Path.name (Path.parse (outPath (generateRoute resourcePath (generateHash content))))
   = Path.name (Path.parse resourcePath) +:+ "." +:+ generateHash content).
Proof.
  pose proof (basename_outPath resourcePath content) as Hbn.
  destruct (generateHash_shape content) as [Hne H36].
  destruct (parse_shape resourcePath) as (_ & Hextname & _ & _ & Hext).
  split; [exact Hbn |]. split; [rewrite Hbn; reflexivity |].
  intros Hhas. rewrite <- Hextname in *.
  destruct Hext as [Hempty | (x & Hx & Hxfree)]; [contradiction |].
  pose proof (splitExt_outPath resourcePath content x Hx Hxfree) as Hsp.
  split.
  - unfold Path.extname. rewrite Hsp. symmetry. exact Hx.
  - unfold Path.parse at 1. rewrite Hsp. reflexivity.
Qed.

End ArtifactName.

(** *** [replace]: the first occurrence *)

Lemma replaceFrom_eq (k v before s : string) :
  JS.replaceFrom k v before s =
  if String.prefix k s
  then JS.getSubstitution k before (JS.drop (String.length k) s) v
         +:+ JS.drop (String.length k) s
  else match s with
       | EmptyString => EmptyString
       | String c s' => String c (JS.replaceFrom k v (before +:+ String c EmptyString) s')
       end.
Proof. destruct s; reflexivity. Qed.

Lemma getSubstitution_noPattern (k before after v : string) :
  noPattern v = true -> JS.getSubstitution k before after v = v.
Proof.
  induction v as [| c v IH]; [reflexivity |].
  intros H. simpl in H. apply andb_true_iff in H as [Hc Hv]. simpl.
  destruct (Ascii.eqb c "$").
  - destruct v as [| d v']; [reflexivity |].
    apply negb_true_iff in Hc. apply orb_false_iff in Hc as [Hc H4].
    apply orb_false_iff in Hc as [Hc H3]. apply orb_false_iff in Hc as [H1 H2].
    rewrite H1, H2, H3, H4. rewrite (IH Hv). reflexivity.
  - rewrite (IH Hv). reflexivity.
Qed.

(** Where [k] occurs in [s], [replace] rewrites its first occurrence:
    the one with the shortest text before it. *)
Lemma replace_first (k v before s a0 b0 : string) :
  s = a0 +:+ k +:+ b0 ->
  exists a b,
    s = a +:+ k +:+ b /\
    (forall a' b', s = a' +:+ k +:+ b' -> (String.length a <= String.length a')%nat) /\
    JS.replaceFrom k v before s
    = a +:+ JS.getSubstitution k (before +:+ a) b v +:+ b.
Proof.
  revert before a0. induction s as [| c s IH]; intros before a0 Hs.
  - exists "", "". destruct a0; [| discriminate].
    change ("" +:+ k +:+ b0) with (k +:+ b0) in Hs.
    destruct k; [| discriminate]. destruct b0; [| discriminate].
    split; [reflexivity |]. split; [intros; simpl; lia |].
    rewrite replaceFrom_eq. simpl. rewrite !append_nil_r. reflexivity.
  - rewrite replaceFrom_eq. destruct (String.prefix k (String c s)) eqn:Hp.
    + apply prefix_iff in Hp as [t Ht]. exists "", t.
      split; [exact Ht |]. split; [intros; simpl; lia |].
      rewrite Ht, drop_app_length, append_nil_r. reflexivity.
    + destruct a0 as [| d a0].
      { change ("" +:+ k +:+ b0) with (k +:+ b0) in Hs.
        assert (String.prefix k (String c s) = true) by (apply prefix_iff; eauto).
        congruence. }
      rewrite append_cons in Hs. injection Hs as <- Hs.
      destruct (IH (before +:+ String c "") a0 Hs) as (a & b & Hab & Hmin & Hrep).
      exists (String c a), b. split; [rewrite append_cons; congruence |]. split.
      * intros a' b' H'. destruct a' as [| d a'].
        { change ("" +:+ k +:+ b') with (k +:+ b') in H'.
          assert (String.prefix k (String c s) = true) by (apply prefix_iff; eauto).
          congruence. }
        rewrite append_cons in H'. injection H' as _ H'.
        specialize (Hmin a' b' H'). simpl. lia.
      * rewrite Hrep, append_cons, append_assoc. reflexivity.
Qed.

Lemma includes_eq (s k : string) :
  JS.includes s k
  = String.prefix k s || match s with EmptyString => false | String _ s' => JS.includes s' k end.
Proof. destruct s; reflexivity. Qed.

Lemma includes_iff (s k : string) :
  JS.includes s k = true <-> exists a b, s = a +:+ k +:+ b.
Proof.
  induction s as [| c s IH]; rewrite includes_eq.
  - rewrite orb_false_r. split.
    + intros H. apply prefix_iff in H as [t Ht]. exists "", t. exact Ht.
    + intros (a & b & H). destruct a; [| discriminate].
      apply prefix_iff. exists b. exact H.
  - rewrite orb_true_iff, IH. split.
    + intros [H | (a & b & ->)].
      * apply prefix_iff in H as [t Ht]. exists "", t. exact Ht.
      * exists (String c a), b. reflexivity.
    + intros (a & b & H). destruct a as [| d a].
      * left. apply prefix_iff. exists b. exact H.
      * right. rewrite append_cons in H. injection H as _ ->. eauto.
Qed.

Lemma replace_absent (k v before s : string) :
  JS.includes s k = false -> JS.replaceFrom k v before s = s.
Proof.
  revert before. induction s as [| c s IH]; intros before H;
    rewrite replaceFrom_eq; rewrite includes_eq in H.
  - rewrite orb_false_r in H. rewrite H. reflexivity.
  - apply orb_false_iff in H as [Hp Hs]. rewrite Hp, (IH _ Hs). reflexivity.
Qed.

Lemma dropWhile_cut (g : ascii -> bool) (s : string) :
  exists pre, s = pre +:+ JS.dropWhile g s.
Proof.
  induction s as [| c s IH]; [exists ""; reflexivity |]. simpl.
  destruct (g c); [| exists ""; reflexivity].
  destruct IH as [pre Hpre]. exists (String c pre). rewrite append_cons. congruence.
Qed.

Lemma takeWhile_prefix (f : ascii -> bool) (s : string) :
  exists post, s = JS.takeWhile f s +:+ post.
Proof.
  induction s as [| c s IH]; [exists ""; reflexivity |]. simpl.
  destruct (f c); [| exists (String c s); reflexivity].
  destruct IH as [post Hpost]. exists post. rewrite append_cons. congruence.
Qed.

(** The extension is a part of the path. *)
Lemma extname_occurs (p : string) : exists x y, p = x +:+ Path.extname p +:+ y.
Proof.
  unfold Path.extname.
  destruct (splitExt_shape (Path.basename p)) as [Hbase _].
  set (n := fst (Path.splitExt (Path.basename p))) in *.
  set (e := snd (Path.splitExt (Path.basename p))) in *.
  destruct (dropWhile_cut Path.isSlash (JS.rev p)) as [pre Hpre].
  destruct (takeWhile_prefix (fun c => negb (Path.isSlash c))
              (JS.dropWhile Path.isSlash (JS.rev p))) as [post Hpost].
  assert (Hp : p = JS.rev post +:+ Path.basename p +:+ JS.rev pre).
  { rewrite <- (rev_involutive p) at 1. rewrite Hpre, Hpost.
    rewrite !rev_app, append_assoc. reflexivity. }
  exists (JS.rev post +:+ n), (JS.rev pre).
  rewrite Hp at 1. rewrite Hbase, !append_assoc. reflexivity.
Qed.

Section MarkupFile.
Context {E : Env}.

(** What [writeMarkup] does when the formatter answers. *)
Lemma writeMarkup_Done inlines name html st st' :
  writeMarkup inlines (name, html) st = Done tt st' ->
  exists formatted,
    prettier_format
      (if (0 <? length inlines)%nat
       then JS.replace (substituteAll (replacers st) html) "</head>"
              (String.concat "" inlines +:+ "</head>")
       else substituteAll (replacers st) html) = Some formatted /\
    st' = replay [EvSubstitute (Markup name) (replacers st);
                  EvWrite (Path.join [cwd; bundleDir config;
                                      JS.replace name (Path.extname name) ".html"])
                    (Text formatted)] st.
Proof.
  unfold writeMarkup, substitute, bind, getReplacers, emit, ret. simpl.
  destruct (prettier_format _) as [formatted |] eqn:Hf; simpl; [| discriminate].
  intros H. injection H as <-. exists formatted. split; reflexivity.
Qed.

(** X8.  The markup of a template is written below the bundle directory under
    the template's name with the first occurrence of its extension
    replaced by [.html]; a name without an extension gets [.html] put
    before it. *)
Theorem markup_file_name inlines name html st st' :
  writeMarkup inlines (name, html) st = Done tt st' ->
  exists stem rest formatted,
    name = stem +:+ Path.extname name +:+ rest /\
    (forall stem' rest',
       name = stem' +:+ Path.extname name +:+ rest' ->
       (String.length stem <= String.length stem')%nat) /\
    (Path.extname name = "" -> stem = "" /\ rest = name) /\
    log st' = log st ++
      [EvSubstitute (Markup name) (replacers st);
       EvWrite (Path.join [cwd; bundleDir config; stem +:+ ".html" +:+ rest]) (Text formatted)] /\
    diskGet (disk st') (Path.join [cwd; bundleDir config; stem +:+ ".html" +:+ rest])
    = Some (Text formatted).
Proof.
  intros H. apply writeMarkup_Done in H as (formatted & _ & ->).
  destruct (extname_occurs name) as (x & y & Hxy).
  destruct (replace_first (Path.extname name) ".html" "" name x y Hxy)
    as (stem & rest & Hname & Hmin & Hrep).
  exists stem, rest, formatted.
  assert (Hout : JS.replace name (Path.extname name) ".html" = stem +:+ ".html" +:+ rest).
  { unfold JS.replace. rewrite Hrep. reflexivity. }
  rewrite Hout. split; [exact Hname |]. split; [exact Hmin |]. split; [| split].
  - intros Hext. rewrite Hext in *.
    assert (Hstem : stem = "").
    { specialize (Hmin "" name eq_refl). destruct stem; [reflexivity | simpl in Hmin; lia]. }
    subst stem. split; [reflexivity |]. symmetry. exact Hname.
  - rewrite log_replay. reflexivity.
  - simpl. rewrite diskGet_write, String.eqb_refl. reflexivity.
Qed.

End MarkupFile.

Lemma markup_file_name_witness :
  @writeMarkup Example.page [] ("templates/pages.ts/index.ts", "<p>hello</p>")
    Example.emptyState
  = Done tt (Example.stateOf
               (@writeMarkup Example.page [] ("templates/pages.ts/index.ts", "<p>hello</p>")
                  Example.emptyState)) /\
  diskGet (disk (Example.stateOf
                   (@writeMarkup Example.page [] ("templates/pages.ts/index.ts", "<p>hello</p>")
                      Example.emptyState)))
    "/project/.bundle/templates/pages.html/index.ts"
  = Some (Text "<p>hello</p>") /\
  exists stem rest formatted,
    "templates/pages.ts/index.ts" = stem +:+ Path.extname "templates/pages.ts/index.ts" +:+ rest /\
    (forall stem' rest',
       "templates/pages.ts/index.ts"
       = stem' +:+ Path.extname "templates/pages.ts/index.ts" +:+ rest' ->
       (String.length stem <= String.length stem')%nat) /\
    (Path.extname "templates/pages.ts/index.ts" = "" ->
     stem = "" /\ rest = "templates/pages.ts/index.ts") /\
    log (Example.stateOf
           (@writeMarkup Example.page [] ("templates/pages.ts/index.ts", "<p>hello</p>")
              Example.emptyState))
    = log Example.emptyState ++
      [EvSubstitute (Markup "templates/pages.ts/index.ts") (replacers Example.emptyState);
       EvWrite (Path.join [@cwd Example.page; bundleDir (@config Example.page);
                           stem +:+ ".html" +:+ rest]) (Text formatted)] /\
    diskGet (disk (Example.stateOf
                     (@writeMarkup Example.page [] ("templates/pages.ts/index.ts", "<p>hello</p>")
                        Example.emptyState)))
      (Path.join [@cwd Example.page; bundleDir (@config Example.page);
                  stem +:+ ".html" +:+ rest])
    = Some (Text formatted).
Proof.
  split; [vm_compute; reflexivity |]. split; [vm_compute; reflexivity |].
  apply (@markup_file_name Example.page [] "templates/pages.ts/index.ts" "<p>hello</p>").
  vm_compute. reflexivity.
Defined.

(** *** The reload snippet *)

Lemma app_length_inj (a a' x x' : string) :
  a +:+ x = a' +:+ x' -> String.length a = String.length a' -> a = a' /\ x = x'.
Proof.
  revert a'. induction a as [| c a IH]; intros [| d a'] H Hlen; try discriminate.
  - split; [reflexivity | exact H].
  - rewrite !append_cons in H. injection H as -> H. injection Hlen as Hlen.
    destruct (IH a' H Hlen) as [-> ->]. split; reflexivity.
Qed.

Lemma noPattern_closing (code : string) :
  noPattern code = true -> noPattern (code +:+ "</script></head>") = true.
Proof.
  induction code as [| c code IH]; [reflexivity |].
  intros H. simpl in H. apply andb_true_iff in H as [Hc Hrest].
  rewrite append_cons. simpl. rewrite (IH Hrest), andb_true_r.
  destruct (Ascii.eqb c "$"); [| reflexivity].
  destruct code as [| d code]; [reflexivity |]. rewrite append_cons. exact Hc.
Qed.

Section ReloadSnippet.
Context {E : Env}.

(** X9.  What is written for a template is the formatter's answer on its
    substituted markup with the inline snippets put in.  With no snippet,
    or when the markup has no [</head>], nothing is put in; otherwise the
    snippet goes right before the first [</head>], as it is when its code
    holds none of the patterns [$$], [$&], [$`] and [$']. *)
Theorem reload_snippet_injection inlines name html st st' :
  writeMarkup inlines (name, html) st = Done tt st' ->
  exists injected formatted path,
    prettier_format injected = Some formatted /\
    log st' = log st ++ [EvSubstitute (Markup name) (replacers st);
                         EvWrite path (Text formatted)] /\
    (inlines = [] -> injected = substituteAll (replacers st) html) /\
    (JS.includes (substituteAll (replacers st) html) "</head>" = false ->
     injected = substituteAll (replacers st) html) /\
    (forall code before after,
       inlines = ["<script>" +:+ code +:+ "</script>"] ->
       noPattern code = true ->
       substituteAll (replacers st) html = before +:+ "</head>" +:+ after ->
       (forall before' after',
          substituteAll (replacers st) html = before' +:+ "</head>" +:+ after' ->
          (String.length before <= String.length before')%nat) ->
       injected = before +:+ "<script>" +:+ code +:+ "</script>" +:+ "</head>" +:+ after).
Proof.
  intros H. apply writeMarkup_Done in H as (formatted & Hf & ->).
  set (output := substituteAll (replacers st) html) in *.
  eexists _, formatted, _. split; [exact Hf |]. split; [rewrite log_replay; reflexivity |].
  split; [intros ->; reflexivity |]. split.
  - intros Hnone. destruct (0 <? length inlines)%nat; [| reflexivity].
    unfold JS.replace. apply replace_absent, Hnone.
  - intros code before after -> Hcode Hout Hmin.
    change (0 <? length ["<script>" +:+ code +:+ "</script>"])%nat with true. cbv iota.
    change (String.concat "" ["<script>" +:+ code +:+ "</script>"])
      with ("<script>" +:+ code +:+ "</script>").
    destruct (replace_first "</head>"
                (("<script>" +:+ code +:+ "</script>") +:+ "</head>") "" output before after Hout)
      as (a & b & Hab & Hmin' & Hrep).
    assert (Hlen : String.length a = String.length before).
    { specialize (Hmin a b Hab). specialize (Hmin' before after Hout). lia. }
    rewrite Hab in Hout. destruct (app_length_inj _ _ _ _ Hout Hlen) as [-> Hrest].
    apply append_inj_l in Hrest. subst b.
    unfold JS.replace. rewrite Hrep, getSubstitution_noPattern.
    + rewrite !append_assoc. reflexivity.
    + rewrite !append_assoc. change ("</script>" +:+ "</head>") with "</script></head>".
      change ("<script>" +:+ code +:+ "</script></head>")
        with (String "<" (String "s" (String "c" (String "r" (String "i" (String "p"
               (String "t" (String ">" (code +:+ "</script></head>"))))))))).
      simpl. apply noPattern_closing, Hcode.
Qed.

End ReloadSnippet.

Lemma reload_snippet_injection_witness :
  exists st',
    @writeMarkup Example.page ["<script>" +:+ "let u = `ws://${location.hostname}:7999/ws`" +:+ "</script>"]
      ("templates/index.ts", "<html><head><title>t</title></head><body></body></html>")
      Example.emptyState = Done tt st' /\
    diskGet (disk st') "/project/.bundle/templates/index.html"
    = Some (Text "<html><head><title>t</title><script>let u = `ws://${location.hostname}:7999/ws`</script></head><body></body></html>").
Proof.
  eexists. split; [vm_compute; reflexivity |].
  destruct (@reload_snippet_injection Example.page
              ["<script>" +:+ "let u = `ws://${location.hostname}:7999/ws`" +:+ "</script>"]
              "templates/index.ts" "<html><head><title>t</title></head><body></body></html>"
              Example.emptyState _ eq_refl)
    as (injected & formatted & path & Hf & Hlog & _ & _ & Hinj).
  specialize (Hinj "let u = `ws://${location.hostname}:7999/ws`"
                "<html><head><title>t</title>" "<body></body></html>" eq_refl eq_refl eq_refl).
  vm_compute. reflexivity.
Defined.

(** *** A build that throws *)

#[export] Instance anyEvent_process : ProcessProp (everyEvent (fun _ => True)).
Proof. split; intros; repeat constructor. Qed.

Lemma traced_Thrown (Q : TraceProp) {A} (m : M A) st st' :
  traced Q m -> m st = Thrown st' -> exists evs, st' = replay evs st /\ holds evs.
Proof. intros Hm H. specialize (Hm st). rewrite H in Hm. exact Hm. Qed.

Section FailedBuild.
Context {E : Env}.

Lemma traced_rmSync (p : string) : traced (everyEvent (fun _ => True)) (rmSync p).
Proof. apply (traced_events [EvRemove p]); [repeat constructor | reflexivity]. Qed.

Lemma traced_writeMarkup inlines entry :
  traced (everyEvent (fun _ => True)) (writeMarkup inlines entry).
Proof.
  destruct entry as [name html]. unfold writeMarkup, substitute.
  apply traced_bind; [| intros output].
  - apply traced_bind; [apply traced_getReplacers | intros table].
    apply traced_bind; [| intros _; apply traced_ret].
    apply traced_emit; [repeat constructor | reflexivity].
  - apply traced_bind; [apply traced_try | intros output2].
    apply traced_write. repeat constructor.
Qed.

(** What follows the removal of the output directory and the new table:
    the rest of [bundle] changes the state by its trace only. *)
Lemma traced_bundle_rest fuel :
  traced (everyEvent (fun _ => True))
    (let* rawHTMLs := processAll fuel in
     rmSync (Path.join [cwd; bundleDir config; tempDir config]) ;;
     let* inlines :=
       (if isAutoReload then
          let codePath := Path.join [moduleDir; "inline-scripts/auto-reload.ts"] in
          emit (EvRead codePath) ;;
          let* code := try (readText codePath) in
          ret ["<script>" +:+ code +:+ "</script>"]
        else ret []) in
     forEach rawHTMLs (writeMarkup inlines)).
Proof.
  apply traced_bind; [apply traced_processAll | intros rawHTMLs].
  apply traced_bind; [apply traced_rmSync | intros _].
  apply traced_bind; [| intros inlines; apply traced_forEach; intros; apply traced_writeMarkup].
  destruct isAutoReload; [| apply traced_ret].
  apply traced_bind; [apply traced_emit; [repeat constructor | reflexivity] | intros _].
  apply traced_bind; [apply traced_try | intros code; apply traced_ret].
Qed.


End FailedBuild.


(** *** Text without references *)

Lemma replaceAllFrom_cons (k v before : string) (c : ascii) (s : string) :
  JS.replaceAllFrom k v 0 before (String c s) =
  if String.prefix k (String c s)
  then JS.getSubstitution k before (JS.drop (String.length k) (String c s)) v
         +:+ JS.replaceAllFrom k v (String.length k - 1) (before +:+ String c "") s
  else String c (JS.replaceAllFrom k v 0 (before +:+ String c "") s).
Proof. reflexivity. Qed.

Lemma replaceAllFrom_absent (k v before s : string) :
  JS.includes s k = false -> JS.replaceAllFrom k v 0 before s = s.
Proof.
  revert before. induction s as [| c s IH]; intros before H; [reflexivity |].
  rewrite includes_eq in H. apply orb_false_iff in H as [Hp Hs].
  rewrite replaceAllFrom_cons, Hp, (IH _ Hs). reflexivity.
Qed.

Lemma replaceAll_absent (s k v : string) :
  JS.includes s k = false -> JS.replaceAll s k v = s.
Proof.
  intros H. unfold JS.replaceAll. destruct k as [| c k].
  - rewrite includes_eq in H. destruct s; discriminate.
  - apply replaceAllFrom_absent, H.
Qed.

(** X11.  A text in which no key of the table occurs passes through the
    substitution loop as it is, whatever the table's values and order. *)
Theorem substitution_leaves_plain_text (table : list (string * string)) (text : string) :
  (forall key, key ∈ keys table -> JS.includes text key = false) ->
  substituteAll table text = text.
Proof.
  unfold substituteAll. induction table as [| [k v] table IH]; intros H; [reflexivity |].
  simpl. rewrite replaceAll_absent by (apply H; left).
  apply IH. intros key Hkey. apply H. right. exact Hkey.
Qed.

Lemma substitution_leaves_plain_text_witness :
  (forall key, key ∈ keys (replacers Example.pageBuilt) ->
               JS.includes "<p>no reference here: @ /img/a.png</p>" key = false) /\
  substituteAll (replacers Example.pageBuilt)
    "<p>no reference here: @ /img/a.png</p>"
  = "<p>no reference here: @ /img/a.png</p>".
Proof.
  assert (H : forall key, key ∈ keys (replacers Example.pageBuilt) ->
                JS.includes "<p>no reference here: @ /img/a.png</p>" key = false).
  { intros key Hkey. vm_compute in Hkey.
    repeat (apply elem_of_cons in Hkey as [-> | Hkey]; [vm_compute; reflexivity |]).
    inversion Hkey. }
  split; [exact H |].
  apply substitution_leaves_plain_text. exact H.
Defined.

(** *** What [resourceRegex] finds *)

Lemma allChars_takeWhile (f : ascii -> bool) (s : string) :
  allChars f (JS.takeWhile f s) = true.
Proof.
  induction s as [| c s IH]; [reflexivity |]. simpl.
  destruct (f c) eqn:Hc; [| reflexivity]. simpl. rewrite Hc. exact IH.
Qed.

Lemma append_nil_l (s : string) : "" +:+ s = s.
Proof. reflexivity. Qed.

Ltac norm_append := repeat first [rewrite append_assoc | rewrite append_cons | rewrite append_nil_l].

Section References.
Context {E : Env}.

Lemma matchHere_shape (s : string) (m : string * string) :
  matchHere s = Some m ->
  exists q1 q2 run rest,
    s = fst m +:+ rest /\
    isQuote q1 = true /\ isQuote q2 = true /\ run <> "" /\
    allChars isTokenChar run = true /\
    snd m = aliasFind +:+ "/" +:+ run /\
    fst m = String q1 (snd m +:+ String q2 "").
Proof.
  unfold matchHere. destruct s as [| q rest0]; [discriminate |].
  destruct (isQuote q) eqn:Hq; [| discriminate]. rewrite andb_true_l. cbv zeta.
  destruct (String.prefix (aliasFind +:+ "/") rest0) eqn:Hp; [| discriminate].
  apply prefix_iff in Hp as [body ->].
  replace (String.length aliasFind + 1)%nat with (String.length (aliasFind +:+ "/"))
    by (rewrite length_append; reflexivity).
  rewrite drop_app_length.
  destruct (takeWhile_prefix isTokenChar body) as [post Hpost].
  pose proof (allChars_takeWhile isTokenChar body) as Hrun.
  set (run := JS.takeWhile isTokenChar body) in *.
  clearbody run. subst body.
  destruct run as [| r0 run']; [discriminate |]. rewrite drop_app_length.
  destruct post as [| q2 tail]; [discriminate |].
  destruct (isQuote q2) eqn:Hq2; [| discriminate].
  intros H. injection H as <-. cbn [fst snd].
  exists q, q2, (String r0 run'), tail.
  split; [norm_append; reflexivity |].
  split; [exact Hq |]. split; [exact Hq2 |]. split; [discriminate |].
  split; [exact Hrun |]. split; [reflexivity |].
  norm_append. reflexivity.
Qed.

Lemma matchAllFrom_cons (skip : nat) (c : ascii) (s : string) :
  matchAllFrom skip (String c s) =
  match skip with
  | S n => matchAllFrom n s
  | O =>
      match matchHere (String c s) with
      | Some m => m :: matchAllFrom (String.length (fst m) - 1) s
      | None => matchAllFrom O s
      end
  end.
Proof. reflexivity. Qed.

Lemma matchAllFrom_occurs (skip : nat) (s : string) (m : string * string) :
  m ∈ matchAllFrom skip s ->
  exists pre post, s = pre +:+ post /\ matchHere post = Some m.
Proof.
  revert skip. induction s as [| c s IH]; intros skip Hm; [inversion Hm |].
  rewrite matchAllFrom_cons in Hm. destruct skip as [| n].
  - destruct (matchHere (String c s)) as [m0 |] eqn:Hhere.
    + apply elem_of_cons in Hm as [-> | Hm].
      * exists "", (String c s). split; [reflexivity | exact Hhere].
      * destruct (IH _ Hm) as (pre & post & -> & Hpost).
        exists (String c pre), post. split; [reflexivity | exact Hpost].
    + destruct (IH _ Hm) as (pre & post & -> & Hpost).
      exists (String c pre), post. split; [reflexivity | exact Hpost].
  - destruct (IH _ Hm) as (pre & post & -> & Hpost).
    exists (String c pre), post. split; [reflexivity | exact Hpost].
Qed.

(** X12.  With an alias that holds no syntax character of a RegExp, every
    reference [matchAll] finds stands in the text between two quote
    characters, which need not be the same; the token is the alias, a
    slash and a non-empty run of characters other than the quotes and the
    asterisk. *)
Theorem references_found_in_text (text : string) (m : string * string) :
  plainPattern aliasFind = true ->
  m ∈ matchAll text ->
  exists q1 q2 run,
    isQuote q1 = true /\ isQuote q2 = true /\ run <> "" /\
    allChars isTokenChar run = true /\
    snd m = aliasFind +:+ "/" +:+ run /\
    fst m = String q1 (snd m +:+ String q2 "") /\
    JS.includes text (fst m) = true.
Proof.
  intros _ Hm. apply matchAllFrom_occurs in Hm as (pre & post & -> & Hhere).
  apply matchHere_shape in Hhere as (q1 & q2 & run & rest & -> & H1 & H2 & H3 & H4 & H5 & H6).
  exists q1, q2, run. repeat split; auto.
  apply includes_iff. exists pre, rest. reflexivity.
Qed.

End References.

Lemma references_found_in_text_witness :
  plainPattern (@aliasFind Example.page) = true /\
  ("'@/img/a.png" +:+ String quote "", "@/img/a.png")
    ∈ @matchAll Example.page ("<img src='@/img/a.png" +:+ String quote ">") /\
  exists q1 q2 run,
    isQuote q1 = true /\ isQuote q2 = true /\ run <> "" /\
    allChars isTokenChar run = true /\
    "@/img/a.png" = @aliasFind Example.page +:+ "/" +:+ run /\
    "'@/img/a.png" +:+ String quote "" = String q1 ("@/img/a.png" +:+ String q2 "") /\
    JS.includes ("<img src='@/img/a.png" +:+ String quote ">")
      ("'@/img/a.png" +:+ String quote "") = true.
Proof.
  assert (H : ("'@/img/a.png" +:+ String quote "", "@/img/a.png")
                ∈ @matchAll Example.page ("<img src='@/img/a.png" +:+ String quote ">")).
  { vm_compute. left. }
  split; [reflexivity |]. split; [exact H |].
  exact (@references_found_in_text Example.page _ _ eq_refl H).
Defined.

(** *** Templates and their markup files *)

Section Templates.
Context {E : Env}.

Lemma processTemplate_Done fuel version hs ss name st hs' ss' st' :
  processTemplate fuel version (hs, ss) name st = Done (hs', ss') st' ->
  (Bun_build (Path.join [cwd; frontendDir config; name]) = Some None /\ hs' = hs) \/
  (exists text rendered,
     Bun_build (Path.join [cwd; frontendDir config; name]) = Some (Some text) /\
     importDefault text = Some rendered /\
     hs' = mapSet hs name (default "" rendered)).
Proof.
  unfold processTemplate. intros H.
  apply bind_Done in H as (moduleBuild & st1 & H1 & H).
  destruct (Bun_build _) as [[text |] |] eqn:Hb; try discriminate; injection H1 as <- <-.
  - right. apply bind_Done in H as ([] & st2 & _ & H).
    apply bind_Done in H as (rendered & st3 & H3 & H).
    destruct (importDefault text) as [r |] eqn:Hi; [| discriminate]. injection H3 as <- <-.
    apply bind_Done in H as (ss1 & st4 & _ & H). injection H as <- _ _.
    exists text, r. repeat split; [exact Hi].
  - left. injection H as <- _ _. split; reflexivity.
Qed.

(** The templates that get markup: those of the scan whose build has an
    output. *)
Lemma foldM_processTemplate fuel version names hs ss st hs' ss' st' :
  foldM names (hs, ss) (processTemplate fuel version) st = Done (hs', ss') st' ->
  forall name,
    mapHas hs' name = true <->
    mapHas hs name = true \/
    (name ∈ names /\
     exists text, Bun_build (Path.join [cwd; frontendDir config; name]) = Some (Some text)).
Proof.
  revert hs ss st. induction names as [| n names IH]; intros hs ss st H name.
  - injection H as <- _ _. split; [auto | intros [? | [Hin _]]; [auto | inversion Hin]].
  - simpl in H. apply bind_Done in H as ([hs1 ss1] & st1 & H1 & H).
    rewrite (IH _ _ _ H name). apply processTemplate_Done in H1.
    destruct H1 as [[Hb ->] | (text & rendered & Hb & _ & ->)].
    + split.
      * intros [? | [Hin Hbuilt]]; [auto | right; split; [right; exact Hin | exact Hbuilt]].
      * intros [? | [Hin Hbuilt]]; [auto |].
        apply elem_of_cons in Hin as [-> | Hin]; [| right; auto].
        destruct Hbuilt as [text Ht]. congruence.
    + rewrite mapHas_set. split.
      * intros [Hset | [Hin Hbuilt]]; [| right; split; [right; exact Hin | exact Hbuilt]].
        apply orb_true_iff in Hset as [Heq | ?]; [| auto].
        apply String.eqb_eq in Heq. subst name. right. split; [left | eauto].
      * intros [Hhas | [Hin Hbuilt]].
        -- left. rewrite Hhas. apply orb_true_r.
        -- apply elem_of_cons in Hin as [-> | Hin]; [| right; auto].
           left. rewrite String.eqb_refl. reflexivity.
Qed.

Lemma processAll_templates fuel st rawHTMLs st' :
  processAll fuel st = Done rawHTMLs st' ->
  forall name,
    name ∈ keys rawHTMLs <->
    name ∈ scanTemplates /\
    exists text, Bun_build (Path.join [cwd; frontendDir config; name]) = Some (Some text).
Proof.
  unfold processAll. intros H name.
  apply bind_Done in H as ([hs ss] & st1 & H1 & H).
  apply bind_Done in H as ([] & st2 & _ & H). injection H as <- _.
  rewrite <- mapHas_keys, (foldM_processTemplate _ _ _ _ _ _ _ _ _ H1 name).
  split; [intros [? | ?]; [discriminate | auto] | auto].
Qed.

(** The events of the loop that writes the markup: for every entry, in
    order, one substitution and one write. *)
Lemma forEach_writeMarkup_events inlines entries st st' :
  forEach entries (writeMarkup inlines) st = Done tt st' ->
  exists evs,
    st' = replay evs st /\
    Forall (markupEvent (replacers st)) evs /\
    (forall name, (exists table, EvSubstitute (Markup name) table ∈ evs) <-> name ∈ keys entries) /\
    (forall p c, EvWrite p c ∈ evs ->
       exists name, name ∈ keys entries /\
         p = Path.join [cwd; bundleDir config; JS.replace name (Path.extname name) ".html"]) /\
    (forall name, name ∈ keys entries ->
       exists c, EvWrite (Path.join [cwd; bundleDir config;
                                     JS.replace name (Path.extname name) ".html"]) c ∈ evs).
Proof.
  revert st. induction entries as [| [name html] entries IH]; intros st; simpl.
  - intros H. injection H as <-. exists []. split; [reflexivity |]. split; [constructor |].
    split; [| split].
    + intros n. split; [intros [t Ht]; inversion Ht | intros Hn; inversion Hn].
    + intros p c Hp. inversion Hp.
    + intros n Hn. inversion Hn.
  - intros H. apply bind_Done in H as ([] & st1 & H1 & H2).
    apply writeMarkup_Done in H1 as (formatted & _ & ->).
    apply IH in H2 as (evs & -> & Hall & Hsub & Hwr & Hhas).
    change (replacers (replay _ st)) with (replacers st) in Hall.
    eexists (_ :: _ :: evs). split; [reflexivity |].
    split; [repeat constructor; exact Hall |]. split; [| split].
    + intros n. rewrite elem_of_cons, <- Hsub. split.
      * intros [t Ht]. apply elem_of_cons in Ht as [Ht | Ht]; [injection Ht as -> _; auto |].
        apply elem_of_cons in Ht as [Ht | Ht]; [discriminate | eauto].
      * intros [-> | [t Ht]]; [eexists; left |]. exists t. right. right. exact Ht.
    + intros p c Hp. apply elem_of_cons in Hp as [Hp | Hp]; [discriminate |].
      apply elem_of_cons in Hp as [Hp | Hp].
      * injection Hp as -> _. exists name. split; [left | reflexivity].
      * destruct (Hwr p c Hp) as (n & Hn & ->). exists n. split; [right; exact Hn | reflexivity].
    + intros n Hn. apply elem_of_cons in Hn as [Hn | Hn].
      * simpl in Hn. subst n. eexists. right. left.
      * destruct (Hhas n Hn) as [c Hc]. exists c. right. right. exact Hc.
Qed.

(** The phases of a completed build, with the markup it collected. *)
Lemma bundle_phases fuel st0 st :
  bundle fuel st0 = Done tt st ->
  exists rawHTMLs evsP evsR inlines,
    let st2 := {| replacers := [];
                  disk := diskRemove (disk st0) (Path.join [cwd; bundleDir config]);
                  log := log st0 ++ [EvRemove (Path.join [cwd; bundleDir config])] |} in
    processAll fuel st2 = Done rawHTMLs (replay evsP st2) /\
    Forall processEvent evsP /\
    Forall (fun e => exists p, e = EvRead p) evsR /\
    forEach rawHTMLs (writeMarkup inlines)
      (replay evsR
         (applyEvent (replay evsP st2)
            (EvRemove (Path.join [cwd; bundleDir config; tempDir config]))))
    = Done tt st.
Proof.
  unfold bundle. intros H.
  apply bind_Done in H as ([] & st1 & H1 & H). injection H1 as <-.
  apply bind_Done in H as ([] & st2 & H2 & H). injection H2 as <-.
  apply bind_Done in H as (rawHTMLs & st3 & H3 & H).
  pose proof H3 as H3'.
  apply (traced_Done (everyEvent processEvent) _ _ _ _ (traced_processAll fuel)) in H3'
    as (evsP & -> & HP).
  apply bind_Done in H as ([] & st4 & H4 & H). injection H4 as <-.
  apply bind_Done in H as (inlines & st5 & H5 & H).
  exists rawHTMLs, evsP.
  destruct isAutoReload.
  - apply bind_Done in H5 as ([] & st6 & H6 & H5). injection H6 as <-.
    apply bind_Done in H5 as (code & st7 & H7 & H5).
    destruct (readText _); [| discriminate]. injection H7 as <- <-. injection H5 as <- <-.
    eexists [EvRead _], _. split; [exact H3 |]. split; [exact HP |].
    split; [repeat constructor; eauto | exact H].
  - injection H5 as <- <-. exists [], []. split; [exact H3 |]. split; [exact HP |].
    split; [constructor | exact H].
Qed.

Lemma log_markup_free evs name table :
  Forall processEvent evs -> ~ EvSubstitute (Markup name) table ∈ evs.
Proof.
  intros Hall Hin. rewrite Forall_forall in Hall. exact (Hall _ Hin).
Qed.

(** A trace that removes nothing leaves on disk a file at every path it
    writes. *)
Lemma written_stays evs st p c :
  Forall (fun e => match e with EvRemove _ => False | _ => True end) evs ->
  EvWrite p c ∈ evs \/ is_Some (diskGet (disk st) p) ->
  is_Some (diskGet (disk (replay evs st)) p).
Proof.
  revert st. induction evs as [| e evs IH]; intros st Hall H.
  - destruct H as [H | H]; [inversion H | exact H].
  - inversion Hall as [| ? ? He Hrest]; subst.
    change (replay (e :: evs) st) with (replay evs (applyEvent st e)).
    apply IH; [exact Hrest |].
    destruct H as [H | H].
    + apply elem_of_cons in H as [<- | H]; [| left; exact H].
      right. simpl. rewrite diskGet_write, String.eqb_refl. eauto.
    + right. destruct e; simpl; try exact H; [| contradiction].
      rewrite diskGet_write. destruct (String.eqb path p); [eauto | exact H].
Qed.

(** X13.  A completed build substitutes and writes markup for exactly the
    templates of the scan whose [Bun.build] has an output, and the file
    of each of them is on disk when the build ends; a template without an
    output is passed over. *)
Theorem markup_for_built_templates (fuel : nat) (st0 st : BuildState) :
  bundle fuel st0 = Done tt st ->
  exists evs,
    log st = log st0 ++ evs /\
    (forall name,
       (exists table, EvSubstitute (Markup name) table ∈ evs) <->
       name ∈ scanTemplates /\
       exists text, Bun_build (Path.join [cwd; frontendDir config; name]) = Some (Some text)) /\
    (forall name text,
       name ∈ scanTemplates ->
       Bun_build (Path.join [cwd; frontendDir config; name]) = Some (Some text) ->
       is_Some (diskGet (disk st)
                  (Path.join [cwd; bundleDir config;
                              JS.replace name (Path.extname name) ".html"]))).
Proof.
  intros H. apply bundle_phases in H as (rawHTMLs & evsP & evsR & inlines & Hall & HP & HR & H).
  cbv zeta in Hall, H.
  pose proof (processAll_templates _ _ _ _ Hall) as Hkeys.
  apply forEach_writeMarkup_events in H as (evsS & -> & HS & Hsub & _ & Hwr).
  exists (EvRemove (Path.join [cwd; bundleDir config])
            :: evsP ++ EvRemove (Path.join [cwd; bundleDir config; tempDir config])
            :: evsR ++ evsS).
  split; [| split].
  - rewrite !log_replay. simpl. rewrite !log_replay. simpl.
    rewrite <- !app_assoc. reflexivity.
  - intros name. rewrite <- Hkeys, <- Hsub. split.
    + intros [table Hin]. exists table.
      apply elem_of_cons in Hin as [Hin | Hin]; [discriminate |].
      apply elem_of_app in Hin as [Hin | Hin]; [destruct (log_markup_free _ _ _ HP Hin) |].
      apply elem_of_cons in Hin as [Hin | Hin]; [discriminate |].
      apply elem_of_app in Hin as [Hin | Hin]; [| exact Hin].
      rewrite Forall_forall in HR. destruct (HR _ Hin) as [p Hp]. discriminate.
    + intros [table Hin]. exists table. right. apply elem_of_app. right. right.
      apply elem_of_app. right. exact Hin.
  - intros name text Hname Hbuilt.
    assert (Hkey : name ∈ keys rawHTMLs) by (apply Hkeys; eauto).
    destruct (Hwr name Hkey) as [c Hc].
    apply (written_stays evsS _ _ c); [| left; exact Hc].
    eapply Forall_impl; [exact HS |]. intros e He. destruct e; simpl in He; tauto.
Qed.


End Templates.

Lemma markup_for_built_templates_witness :
  @bundle Example.page 5 Example.emptyState = Done tt Example.pageBuilt /\
  is_Some (diskGet (disk Example.pageBuilt) "/project/.bundle/templates/index.html") /\
  exists evs,
    log Example.pageBuilt = log Example.emptyState ++ evs /\
    (forall name,
       (exists table, EvSubstitute (Markup name) table ∈ evs) <->
       name ∈ @scanTemplates Example.page /\
       exists text,
         @Bun_build Example.page
           (Path.join [@cwd Example.page; frontendDir (@config Example.page); name])
         = Some (Some text)) /\
    (forall name text,
       name ∈ @scanTemplates Example.page ->
       @Bun_build Example.page
         (Path.join [@cwd Example.page; frontendDir (@config Example.page); name])
       = Some (Some text) ->
       is_Some (diskGet (disk Example.pageBuilt)
                  (Path.join [@cwd Example.page; bundleDir (@config Example.page);
                              JS.replace name (Path.extname name) ".html"]))).
Proof.
  split; [vm_compute; reflexivity |]. split; [vm_compute; eauto |].
  apply (@markup_for_built_templates Example.page 5 Example.emptyState Example.pageBuilt).
  vm_compute. reflexivity.
Defined.


(** *** The entries of the table *)

(** Every insertion is an asset entry or an inline entry, and what is
    hashed is inserted and written under its digest. *)
#[export] Program Instance assetTrace {E : Env} : TraceProp :=
  {| holds := fun evs => Forall tableEvent evs /\ hashedIsWritten evs |}.
Next Obligation.
  intros E. split; [constructor | intros a h H; inversion H].
Qed.
Next Obligation.
  intros E evs1 evs2 [H1 G1] [H2 G2]. split; [apply Forall_app; auto |].
  intros a h Hin. apply elem_of_app in Hin as [Hin | Hin].
  - destruct (G1 a h Hin) as (p & c & Hh & Hs & Hw). exists p, c.
    split; [exact Hh |]. split; apply elem_of_app; left; assumption.
  - destruct (G2 a h Hin) as (p & c & Hh & Hs & Hw). exists p, c.
    split; [exact Hh |]. split; apply elem_of_app; right; assumption.
Qed.

Lemma assetTrace_single {E : Env} (e : event) :
  tableEvent e -> (forall a h, e <> EvHash a h) -> holds (TraceProp := assetTrace) [e].
Proof.
  intros He Hne. split; [constructor; [exact He | constructor] |].
  intros a h Hin. apply list_elem_of_singleton in Hin. destruct (Hne a h). symmetry. exact Hin.
Qed.

Lemma assetTrace_finish {E : Env} (a p : string) (q : option string) (content : data) :
  resolveAlias a = Some (p, q) ->
  supportedExt (JS.toLowerCase (Path.extname p)) = true ->
  holds (TraceProp := assetTrace)
    [EvHash a (generateHash content);
     EvSet a (route (generateRoute p (generateHash content)));
     EvWrite (outPath (generateRoute p (generateHash content))) content].
Proof.
  intros Hres Hsup. split.
  - constructor; [exact I |]. constructor; [| constructor; [exact I | constructor]].
    left. exists p, q. eexists. split; [exact Hres |]. split; [exact Hsup | reflexivity].
  - intros a' h Hin. apply elem_of_cons in Hin as [Hin | Hin].
    + injection Hin as -> ->. exists p, content. split; [reflexivity |].
      split; [right; left | right; right; left].
    + apply elem_of_cons in Hin as [Hin | Hin]; [discriminate |].
      apply list_elem_of_singleton in Hin. discriminate.
Qed.

Ltac table_step :=
  lazymatch goal with
  | |- traced _ (bind _ _) => apply traced_bind; [| intros ?]
  | |- traced _ (ret _) => apply traced_ret
  | |- traced _ throw => apply traced_throw
  | |- traced _ outOfFuel => apply traced_outOfFuel
  | |- traced _ (try _) => apply traced_try
  | |- traced _ (emit _) =>
      apply traced_emit; [apply assetTrace_single; [exact I | intros ? ?; discriminate]
                         | reflexivity]
  | |- traced _ (write _ _) =>
      apply traced_write, assetTrace_single; [exact I | intros ? ?; discriminate]
  | |- traced _ (replacersHas _) => apply traced_replacersHas
  | |- traced _ getReplacers => apply traced_getReplacers
  | |- traced _ (forEach _ _) => apply traced_forEach; intros ?
  | |- traced _ (if ?b then _ else _) => destruct b eqn:?
  | |- traced _ (match ?x with _ => _ end) => destruct x eqn:?
  end.

Lemma supported_script (ext : string) : isScriptExt ext = true -> supportedExt ext = true.
Proof. unfold supportedExt. intros ->. reflexivity. Qed.

Lemma supported_image (ext : string) :
  String.eqb ext ".png" || String.eqb ext ".jpg" || String.eqb ext ".jpeg" = true ->
  supportedExt ext = true.
Proof.
  unfold supportedExt.
  destruct (isScriptExt ext), (String.eqb ext ".png"), (String.eqb ext ".jpg"),
    (String.eqb ext ".jpeg"); simpl; intros; congruence.
Qed.

Lemma supported_css (ext : string) : String.eqb ext ".css" = true -> supportedExt ext = true.
Proof. unfold supportedExt. intros ->. apply orb_true_r. Qed.

Lemma mapGet_In (m : list (string * string)) (k v : string) :
  mapGet m k = Some v -> (k, v) ∈ m.
Proof.
  induction m as [| [a b] m IH]; simpl; [discriminate |].
  destruct (String.eqb_spec a k) as [-> | _].
  - intros H. injection H as ->. left.
  - intros H. right. apply IH, H.
Qed.

Section TableEntries.
Context {E : Env}.

Lemma table_substitute w text : traced (assetTrace) (substitute w text).
Proof. unfold substitute. repeat table_step. Qed.

Lemma table_processImage p q : traced (assetTrace) (processImage p q).
Proof. unfold processImage. repeat table_step. Qed.

Lemma table_processReferences pf text :
  (forall a r, resolveAlias a = Some r -> traced (assetTrace) (pf a r)) ->
  traced (assetTrace) (processReferences pf text).
Proof.
  intros Hpf. unfold processReferences. apply traced_forEach. intros m.
  apply traced_bind; [apply traced_replacersHas | intros known].
  destruct known; [apply traced_ret |].
  apply traced_bind; [table_step | intros _].
  destruct (resolveAlias (snd m)) as [r |] eqn:Hr; [apply Hpf, Hr | apply traced_ret].
Qed.

Lemma table_processCss pf p :
  (forall a r, resolveAlias a = Some r -> traced (assetTrace) (pf a r)) ->
  traced (assetTrace) (processCss pf p).
Proof.
  intros Hpf. unfold processCss.
  do 5 (apply traced_bind; [table_step | intros ?]).
  apply traced_bind; [apply table_processReferences, Hpf | intros _; apply table_substitute].
Qed.

Lemma table_transformHandler pf code id :
  (forall a r, resolveAlias a = Some r -> traced (assetTrace) (pf a r)) ->
  traced (assetTrace) (transformHandler pf code id).
Proof.
  intros Hpf. unfold transformHandler. destruct (negb _); [apply traced_ret |].
  apply traced_bind; [apply table_processReferences, Hpf | intros _; apply table_substitute].
Qed.

Lemma table_transformModules fuel pf inputs done :
  (forall a r, resolveAlias a = Some r -> traced (assetTrace) (pf a r)) ->
  traced (assetTrace) (transformModules fuel pf inputs done).
Proof.
  intros Hpf. revert done. induction fuel as [| fuel IH]; intros done; simpl.
  - repeat table_step.
  - destruct (rolldown_next inputs done) as [[code id] |]; [| apply traced_ret].
    apply traced_bind; [apply table_transformHandler, Hpf | intros c; apply IH].
Qed.

Lemma table_processScript fuel pf input :
  (forall a r, resolveAlias a = Some r -> traced (assetTrace) (pf a r)) ->
  (forall entries p a, input = inr entries -> (p, a) ∈ entries -> scriptAlias a p) ->
  traced (assetTrace) (processScript fuel pf input).
Proof.
  intros Hpf Hentries. unfold processScript.
  apply traced_bind; [table_step | intros _].
  apply traced_bind; [apply table_transformModules, Hpf | intros transformed].
  apply traced_bind; [table_step | intros output].
  apply traced_bind; [apply traced_forEach; intros item; table_step | intros _].
  destruct input as [entry | entries].
  - destruct output; [apply traced_throw | apply traced_ret].
  - apply traced_bind; [| intros _; apply traced_ret].
    apply traced_forEach. intros chunk.
    destruct (isChunk chunk && isEntry chunk && stringTruthy (facadeModuleId chunk));
      [| apply traced_ret].
    destruct (mapGet entries (default "" (facadeModuleId chunk))) as [a |] eqn:Hget;
      [| apply traced_ret].
    destruct (stringTruthy (Some a)); [| apply traced_ret].
    apply traced_replacersSet, assetTrace_single; [| intros ? ?; discriminate]. left.
    apply mapGet_In in Hget.
    destruct (Hentries entries _ a eq_refl Hget) as [[q Hq] Hext].
    exists (default "" (facadeModuleId chunk)), q, (fileName chunk).
    split; [exact Hq |]. split; [apply supported_script, Hext | reflexivity].
Qed.

Lemma table_processFile fuel a rpq :
  resolveAlias a = Some rpq -> traced (assetTrace) (processFile fuel a rpq).
Proof.
  revert a rpq.
  assert (Hfinish : forall a p q content,
            resolveAlias a = Some (p, q) ->
            supportedExt (JS.toLowerCase (Path.extname p)) = true ->
            traced (assetTrace)
              (emit (EvHash a (generateHash content)) ;;
               replacersSet a (route (generateRoute p (generateHash content))) ;;
               write (outPath (generateRoute p (generateHash content))) content)).
  { intros a p q content Hres Hsup.
    apply (traced_events
             [EvHash a (generateHash content);
              EvSet a (route (generateRoute p (generateHash content)));
              EvWrite (outPath (generateRoute p (generateHash content))) content]);
      [apply (assetTrace_finish a p q content Hres Hsup) | reflexivity]. }
  induction fuel as [| fuel IH]; intros a [p q] Hres;
    cbn -[dataTruthy generateRoute generateHash processScript processCss processImage];
    (apply traced_bind; [apply traced_replacersHas | intros known]);
    (destruct known; [apply traced_ret |]).
  - destruct (String.eqb _ ".js" || String.eqb _ ".ts") eqn:Hjs.
    + destruct (JS.has _ "worker"); [apply traced_outOfFuel | apply traced_ret].
    + destruct (String.eqb _ ".png" || String.eqb _ ".jpg" || String.eqb _ ".jpeg") eqn:Himg.
      * apply traced_bind; [apply table_processImage | intros content].
        destruct (dataTruthy (Some content)); [| apply traced_ret].
        apply (Hfinish a p q content Hres). apply supported_image, Himg.
      * destruct (String.eqb _ ".css"); [apply traced_outOfFuel | apply traced_ret].
  - destruct (String.eqb _ ".js" || String.eqb _ ".ts") eqn:Hjs.
    + destruct (JS.has _ "worker"); [| apply traced_ret].
      apply traced_bind; [| intros _; apply traced_ret].
      apply table_processScript; [exact IH |].
      intros entries p' a' Heq Hin. injection Heq as <-.
      apply list_elem_of_singleton in Hin. injection Hin as -> ->.
      split; [eauto | exact Hjs].
    + destruct (String.eqb _ ".png" || String.eqb _ ".jpg" || String.eqb _ ".jpeg") eqn:Himg.
      * apply traced_bind; [apply table_processImage | intros content].
        destruct (dataTruthy (Some content)); [| apply traced_ret].
        apply (Hfinish a p q content Hres). apply supported_image, Himg.
      * destruct (String.eqb _ ".css") eqn:Hcss; [| apply traced_ret].
        apply traced_bind; [apply table_processCss, IH | intros text].
        destruct (dataTruthy (Some (Text text))); [| apply traced_ret].
        apply (Hfinish a p q (Text text) Hres). apply supported_css, Hcss.
Qed.

End TableEntries.

Section TracedR.
Context {Q : TraceProp}.

Lemma tracedR_of_traced {A} (m : M A) : traced Q m -> tracedR Q (fun _ => True) m.
Proof.
  intros Hm st. specialize (Hm st). destruct (m st); auto.
Qed.

Lemma traced_of_tracedR {A} (R : A -> Prop) (m : M A) : tracedR Q R m -> traced Q m.
Proof.
  intros Hm st. specialize (Hm st). destruct (m st); [apply Hm | exact Hm | exact I].
Qed.

Lemma tracedR_ret {A} (R : A -> Prop) (a : A) : R a -> tracedR Q R (ret a).
Proof.
  intros Ha st. split; [| exact Ha]. exists []. split; [reflexivity | apply holds_nil].
Qed.

Lemma tracedR_bind {A B} (R : A -> Prop) (R' : B -> Prop) (m : M A) (k : A -> M B) :
  tracedR Q R m -> (forall a, R a -> tracedR Q R' (k a)) -> tracedR Q R' (bind m k).
Proof.
  intros Hm Hk st. unfold bind. specialize (Hm st).
  destruct (m st) as [a st1 | st1 |]; [| exact Hm | exact I].
  destruct Hm as [(evs1 & -> & H1) Ha]. specialize (Hk a Ha (replay evs1 st)).
  destruct (k a (replay evs1 st)) as [b st2 | st2 |]; [| | exact I].
  - destruct Hk as [(evs2 & -> & H2) Hb]. split; [| exact Hb].
    exists (evs1 ++ evs2). split; [symmetry; apply replay_app | apply holds_app; auto].
  - destruct Hk as (evs2 & -> & H2).
    exists (evs1 ++ evs2). split; [symmetry; apply replay_app | apply holds_app; auto].
Qed.

Lemma tracedR_foldM {A B} (Inv : B -> Prop) (xs : list A) (acc : B) (body : B -> A -> M B) :
  Inv acc ->
  (forall b x, Inv b -> x ∈ xs -> tracedR Q Inv (body b x)) ->
  tracedR Q Inv (foldM xs acc body).
Proof.
  revert acc. induction xs as [| x xs IH]; intros acc Hacc Hbody; simpl.
  - apply tracedR_ret, Hacc.
  - apply (tracedR_bind Inv).
    + apply Hbody; [exact Hacc | left].
    + intros b Hb. apply IH; [exact Hb |]. intros b' x' Hb' Hx'. apply Hbody; [exact Hb' |].
      right. exact Hx'.
Qed.

End TracedR.

Lemma In_mapSet (m : list (string * string)) (k v : string) (e : string * string) :
  e ∈ mapSet m k v -> e = (k, v) \/ e ∈ m.
Proof.
  induction m as [| [a b] m IH]; simpl.
  - intros H. apply list_elem_of_singleton in H. auto.
  - destruct (String.eqb a k).
    + intros H. apply elem_of_cons in H as [H | H]; [auto | right; right; exact H].
    + intros H. apply elem_of_cons in H as [H | H]; [subst e; right; left |].
      destruct (IH H); [auto | right; right; assumption].
Qed.

Lemma mapGet_mapSet (m : list (string * string)) (k v k' : string) :
  mapGet (mapSet m k v) k' = if String.eqb k k' then Some v else mapGet m k'.
Proof.
  induction m as [| [a b] m IH]; simpl; [reflexivity |].
  destruct (String.eqb_spec a k) as [-> | Hne]; simpl.
  - destruct (String.eqb k k'); reflexivity.
  - rewrite IH. destruct (String.eqb_spec a k') as [-> | _]; [| reflexivity].
    destruct (String.eqb_spec k k') as [-> | _]; [congruence | reflexivity].
Qed.

(** An entry found in the table after a trace was set by it or was there
    before. *)
Lemma mapGet_replay evs st k v :
  mapGet (replacers (replay evs st)) k = Some v ->
  EvSet k v ∈ evs \/ mapGet (replacers st) k = Some v.
Proof.
  revert st. induction evs as [| e evs IH]; intros st; [auto |].
  change (replay (e :: evs) st) with (replay evs (applyEvent st e)).
  intros H. destruct (IH _ H) as [Hin | Hget]; [left; right; exact Hin |].
  destruct e; simpl in Hget; auto.
  rewrite mapGet_mapSet in Hget. destruct (String.eqb_spec key k) as [-> | _]; [| auto].
  injection Hget as ->. left. left.
Qed.

Lemma replacers_replay_reads evs st :
  Forall (fun e => exists p, e = EvRead p) evs -> replacers (replay evs st) = replacers st.
Proof.
  revert st. induction evs as [| e evs IH]; intros st Hall; [reflexivity |].
  inversion Hall as [| ? ? [p ->] Hrest]; subst.
  change (replay (EvRead p :: evs) st) with (replay evs (applyEvent st (EvRead p))).
  rewrite IH by exact Hrest. reflexivity.
Qed.

Section TableOfBundle.
Context {E : Env}.

Lemma table_processMatch fuel ss m html :
  m ∈ matchAll html -> scriptEntries ss ->
  tracedR (assetTrace) scriptEntries (processMatch fuel ss m).
Proof.
  intros Hm Hss. unfold processMatch.
  apply (tracedR_bind (fun _ => True));
    [apply tracedR_of_traced; table_step | intros _ _].
  destruct (resolveAlias (snd m)) as [[p q] |] eqn:Hres; [| apply tracedR_ret, Hss].
  destruct (String.eqb _ ".js" || String.eqb _ ".ts") eqn:Hjs.
  - apply (tracedR_bind (fun _ => True));
      [apply tracedR_of_traced, traced_replacersHas | intros known _].
    destruct known; [apply tracedR_ret, Hss |].
    destruct (JS.has _ "inline") eqn:Hinline.
    + apply (tracedR_bind (fun _ => True)).
      * apply tracedR_of_traced, table_processScript.
        -- intros a r Hr. apply table_processFile, Hr.
        -- intros entries p' a' Heq. discriminate.
      * intros code _. destruct code as [text |]; [| apply tracedR_ret, Hss].
        apply (tracedR_bind (fun _ => True)); [| intros _ _; apply tracedR_ret, Hss].
        apply tracedR_of_traced, traced_replacersSet, assetTrace_single;
          [| intros ? ?; discriminate].
        right.
        apply matchAllFrom_occurs in Hm as (pre & post & _ & Hhere).
        apply matchHere_shape in Hhere as (q1 & q2 & run & rest & _ & H1 & H2 & _ & _ & _ & H6).
        exists q1, q2, (snd m), p, q. repeat split; assumption.
    + apply tracedR_ret. intros p' a' Hin.
      apply In_mapSet in Hin as [Heq | Hin]; [| apply Hss, Hin].
      injection Heq as -> ->. split; [eauto | exact Hjs].
  - apply (tracedR_bind (fun _ => True)); [| intros _ _; apply tracedR_ret, Hss].
    apply tracedR_of_traced, table_processFile, Hres.
Qed.

Lemma table_processTemplate fuel version acc name :
  scriptEntries (snd acc) ->
  tracedR (assetTrace) (fun acc' => scriptEntries (snd acc'))
    (processTemplate fuel version acc name).
Proof.
  intros Hacc. unfold processTemplate. destruct acc as [hs ss]. simpl in Hacc.
  apply (tracedR_bind (fun _ => True)); [apply tracedR_of_traced, traced_try | intros b _].
  destruct b as [text |]; [| apply tracedR_ret, Hacc].
  apply (tracedR_bind (fun _ => True)); [apply tracedR_of_traced; table_step | intros _ _].
  apply (tracedR_bind (fun _ => True)); [apply tracedR_of_traced, traced_try | intros r _].
  apply (tracedR_bind scriptEntries); [| intros ss' Hss'; apply tracedR_ret, Hss'].
  apply tracedR_foldM; [exact Hacc |].
  intros b m Hb Hm. apply (table_processMatch fuel b m (default "" r) Hm Hb).
Qed.

Lemma table_processAll fuel : traced (assetTrace) (processAll fuel).
Proof.
  unfold processAll.
  apply (traced_of_tracedR (fun _ => True)).
  apply (tracedR_bind (fun acc => scriptEntries (snd acc))).
  - apply tracedR_foldM.
    + intros p a Hin. inversion Hin.
    + intros b name Hb _. apply table_processTemplate, Hb.
  - intros [hs ss] Hss. simpl in Hss. apply tracedR_of_traced.
    apply traced_bind; [| intros _; apply traced_ret].
    destruct (0 <? length ss)%nat; [| apply traced_ret].
    apply traced_bind; [| intros _; apply traced_ret].
    apply table_processScript.
    + intros a r Hr. apply table_processFile, Hr.
    + intros entries p a Heq Hin. injection Heq as <-. apply Hss, Hin.
Qed.

(** X15.  When a build completes, every entry of the table is of one of two
    kinds.  An asset entry maps a token that resolves to an existing
    image, stylesheet or script to a route below the assets directory; an
    inline entry has for key a whole match, quotes included, of a token
    that resolves to a script and asks for [inline].  A reference to a
    file of another kind has no entry. *)
Theorem table_entries_are_assets_or_inline_scripts (fuel : nat) (st0 st : BuildState) :
  bundle fuel st0 = Done tt st ->
  forall k v, mapGet (replacers st) k = Some v -> assetEntry k v \/ inlineEntry k.
Proof.
  intros H k v Hget.
  apply bundle_phases in H as (rawHTMLs & evsP & evsR & inlines & Hall & _ & HR & H).
  cbv zeta in Hall, H.
  apply forEach_writeMarkup_events in H as (evsS & -> & HS & _).
  rewrite (replacers_replay_markup _ _ _ HS), (replacers_replay_reads _ _ HR) in Hget.
  change (replacers (applyEvent ?s (EvRemove ?p))) with (replacers s) in Hget.
  apply (traced_Done (assetTrace) _ _ _ _ (table_processAll fuel)) in Hall
    as (evs & Heq & Hevs).
  rewrite Heq in Hget. apply mapGet_replay in Hget as [Hin | Hget]; [| discriminate].
  destruct Hevs as [Hevs _]. rewrite Forall_forall in Hevs. exact (Hevs _ Hin).
Qed.

(** X22.  Whatever a completed build hashed, it entered and wrote under that
    digest: for every digest taken there is a content with that digest
    whose route, carrying the digest in the file name, was put in the
    table for the token, and which was written to the path of that
    route. *)
Theorem hashed_content_is_written_under_its_digest (fuel : nat) (st0 st : BuildState) :
  bundle fuel st0 = Done tt st ->
  exists evs,
    log st = log st0 ++ evs /\
    forall a h,
      EvHash a h ∈ evs ->
      exists p c,
        h = generateHash c /\
        EvSet a (route (generateRoute p h)) ∈ evs /\
        EvWrite (outPath (generateRoute p h)) c ∈ evs.
Proof.
  intros H.
  apply bundle_phases in H as (rawHTMLs & evsP & evsR & inlines & Hall & _ & HR & H).
  cbv zeta in Hall, H.
  apply forEach_writeMarkup_events in H as (evsS & -> & HS & _).
  pose proof Hall as Hall'.
  apply (traced_Done assetTrace _ _ _ _ (table_processAll fuel)) in Hall'
    as (evs & Heq & _ & Hevs).
  assert (evs = evsP).
  { apply (f_equal log) in Heq. rewrite !log_replay in Heq.
    apply app_inv_head in Heq. symmetry. exact Heq. }
  subst evs.
  exists (EvRemove (Path.join [cwd; bundleDir config])
            :: evsP ++ EvRemove (Path.join [cwd; bundleDir config; tempDir config])
            :: evsR ++ evsS).
  split.
  - rewrite !log_replay. simpl. rewrite !log_replay. simpl.
    rewrite <- !app_assoc. reflexivity.
  - intros a h Hin.
    assert (Hp : EvHash a h ∈ evsP).
    { apply elem_of_cons in Hin as [Hin | Hin]; [discriminate |].
      apply elem_of_app in Hin as [Hin | Hin]; [exact Hin |].
      apply elem_of_cons in Hin as [Hin | Hin]; [discriminate |].
      apply elem_of_app in Hin as [Hin | Hin].
      - rewrite Forall_forall in HR. destruct (HR _ Hin) as [q Hq]. discriminate.
      - rewrite Forall_forall in HS. specialize (HS _ Hin). destruct HS. }
    destruct (Hevs a h Hp) as (p & c & Hh & Hs & Hw). exists p, c.
    split; [exact Hh |].
    split; right; apply elem_of_app; left; assumption.
Qed.

End TableOfBundle.

Lemma table_entries_are_assets_or_inline_scripts_witness :
  @bundle Example.page 5 Example.emptyState = Done tt Example.pageBuilt /\
  mapGet (replacers Example.pageBuilt) "@/style.css" = Some "/assets/style.2efyem4a.css" /\
  mapGet (replacers Example.pageBuilt) "@/font.woff2" = None /\
  (@assetEntry Example.page "@/style.css" "/assets/style.2efyem4a.css" \/
   @inlineEntry Example.page "@/style.css").
Proof.
  split; [vm_compute; reflexivity |]. split; [vm_compute; reflexivity |].
  split; [vm_compute; reflexivity |].
  apply (@table_entries_are_assets_or_inline_scripts Example.page 5 Example.emptyState
           Example.pageBuilt); vm_compute; reflexivity.
Defined.

Lemma hashed_content_is_written_under_its_digest_witness :
  @bundle Example.page 5 Example.emptyState = Done tt Example.pageBuilt /\
  EvHash "@/img/b.png" "65xfm3dp" ∈ log Example.pageBuilt /\
  exists evs,
    log Example.pageBuilt = log Example.emptyState ++ evs /\
    forall a h,
      EvHash a h ∈ evs ->
      exists p c,
        h = @generateHash Example.page c /\
        EvSet a (route (@generateRoute Example.page p h)) ∈ evs /\
        EvWrite (outPath (@generateRoute Example.page p h)) c ∈ evs.
Proof.
  split; [vm_compute; reflexivity |].
  split; [vm_compute; repeat (first [left | right]) |].
  apply (@hashed_content_is_written_under_its_digest Example.page 5 Example.emptyState
           Example.pageBuilt).
  vm_compute. reflexivity.
Defined.

(** *** The table starts empty *)

(** X16.  The table of a build holds only what this build put in it: whether
    the build completes or throws, every entry found afterwards was set
    after the output directory was removed, and no entry of the state
    before is carried over. *)
Theorem table_is_rebuilt {E : Env} (fuel : nat) (st0 st : BuildState) :
  bundle fuel st0 = Done tt st \/ bundle fuel st0 = Thrown st ->
  exists evs,
    log st = log st0 ++ EvRemove (Path.join [cwd; bundleDir config]) :: evs /\
    forall k v, mapGet (replacers st) k = Some v -> EvSet k v ∈ evs.
Proof.
  unfold bundle. unfold bind at 1. unfold rmSync at 1. unfold bind at 1. unfold newReplacers.
  intros H.
  assert (Hevs : exists evs,
            st = replay evs
                   {| replacers := [];
                      disk := diskRemove (disk st0) (Path.join [cwd; bundleDir config]);
                      log := log st0 ++ [EvRemove (Path.join [cwd; bundleDir config])] |}).
  { destruct H as [H | H].
    - apply (traced_Done _ _ _ _ _ (traced_bundle_rest fuel)) in H as (evs & -> & _). eauto.
    - apply (traced_Thrown _ _ _ _ (traced_bundle_rest fuel)) in H as (evs & -> & _). eauto. }
  destruct Hevs as [evs ->]. exists evs. split.
  - rewrite log_replay. simpl. rewrite <- app_assoc. reflexivity.
  - intros k v Hget. apply mapGet_replay in Hget as [Hin | Hget]; [exact Hin | discriminate].
Qed.

Lemma table_is_rebuilt_witness :
  mapGet (replacers {| replacers := [("@/gone.png", "/assets/gone.0.png")]; disk := []; log := [] |})
    "@/gone.png" = Some "/assets/gone.0.png" /\
  mapGet (replacers (Example.stateOf
            (@bundle Example.page 5
               {| replacers := [("@/gone.png", "/assets/gone.0.png")]; disk := []; log := [] |})))
    "@/gone.png" = None /\
  exists evs,
    log (Example.stateOf
           (@bundle Example.page 5
              {| replacers := [("@/gone.png", "/assets/gone.0.png")]; disk := []; log := [] |}))
    = [] ++ EvRemove (Path.join [@cwd Example.page; bundleDir (@config Example.page)]) :: evs /\
    forall k v,
      mapGet (replacers (Example.stateOf
                (@bundle Example.page 5
                   {| replacers := [("@/gone.png", "/assets/gone.0.png")];
                      disk := []; log := [] |}))) k = Some v ->
      EvSet k v ∈ evs.
Proof.
  split; [reflexivity |]. split; [vm_compute; reflexivity |].
  apply (@table_is_rebuilt Example.page 5
           {| replacers := [("@/gone.png", "/assets/gone.0.png")]; disk := []; log := [] |}).
  left. vm_compute. reflexivity.
Defined.

(** *** The report: sizes *)

Lemma roundDiv_spec (a b : Z) :
  (0 < b)%Z -> (- b <= 2 * (roundDiv a b * b - a) <= b)%Z.
Proof.
  intros Hb. unfold roundDiv.
  pose proof (Z.div_mod a b ltac:(lia)) as Hdm.
  pose proof (Z.mod_pos_bound a b Hb) as Hr.
  set (q := (a / b)%Z) in *. set (r := (a mod b)%Z) in *.
  destruct (Z.ltb_spec (2 * r) b); [nia |].
  destruct (Z.ltb_spec b (2 * r)); [nia |].
  destruct (Z.even q); nia.
Qed.

Lemma decimalFrom_acc (fuel : nat) (n : N) (acc : string) :
  decimalFrom fuel n acc = decimalFrom fuel n "" +:+ acc.
Proof.
  revert n acc. induction fuel as [| fuel IH]; intros n acc; simpl; [reflexivity |].
  destruct (n <? 10)%N; [reflexivity |].
  rewrite IH, (IH _ (String _ "")), append_assoc. reflexivity.
Qed.

Lemma decimalFrom_fuel (fuel extra : nat) (n : N) (acc : string) :
  (n < 2 ^ N.of_nat fuel)%N -> (0 < fuel)%nat ->
  decimalFrom (fuel + extra) n acc = decimalFrom fuel n acc.
Proof.
  revert n acc. induction fuel as [| fuel IH]; intros n acc Hn Hpos; [lia |].
  simpl. destruct (N.ltb_spec n 10) as [Hlt | Hge]; [reflexivity |].
  replace (N.of_nat (S fuel)) with (N.succ (N.of_nat fuel)) in Hn by lia.
  rewrite N.pow_succ_r' in Hn.
  apply IH.
  - apply N.Div0.div_lt_upper_bound. lia.
  - destruct fuel; [| lia]. change (2 ^ N.of_nat 0)%N with 1%N in Hn. lia.
Qed.

Lemma decimal_snoc (n : N) :
  (10 <= n)%N -> decimal n = decimal (n / 10) +:+ String (digit10 (n mod 10)) "".
Proof.
  intros Hn. unfold decimal at 1. simpl.
  destruct (N.ltb_spec n 10) as [Hlt | _]; [lia |].
  rewrite decimalFrom_acc. f_equal. unfold decimal.
  assert (Hlog : (N.log2 (n / 10) < N.log2 n)%N).
  { assert (Hpos : (0 < n / 10)%N).
    { assert (1 <= n / 10)%N by (apply N.div_le_lower_bound; lia). lia. }
    apply (N.log2_lt_pow2 _ _ Hpos).
    pose proof (N.log2_spec n ltac:(lia)) as [_ Hhi].
    rewrite N.pow_succ_r' in Hhi.
    apply N.Div0.div_lt_upper_bound. lia. }
  replace (N.to_nat (N.log2 n))
    with (S (N.to_nat (N.log2 (n / 10))) + (N.to_nat (N.log2 n) - S (N.to_nat (N.log2 (n / 10)))))%nat
    by lia.
  apply decimalFrom_fuel; [apply lt_pow2_log2 | lia].
Qed.

Lemma length_decimal_pos (n : N) : (1 <= String.length (decimal n))%nat.
Proof.
  unfold decimal. simpl. destruct (n <? 10)%N; [simpl; lia |].
  rewrite decimalFrom_acc, length_append. simpl. lia.
Qed.

Lemma take_app_length (a b : string) : JS.take (String.length a) (a +:+ b) = a.
Proof. induction a as [| c a IH]; [destruct b; reflexivity |]. rewrite append_cons. simpl. rewrite IH. reflexivity. Qed.

(** Where [toFixed] puts the point when there are digits enough. *)
Lemma point_insert (f : nat) (a b : string) :
  String.length b = f -> a <> "" ->
  JS.take (String.length (replicate (S f - String.length (a +:+ b)) "0" +:+ (a +:+ b)) - f)
    (replicate (S f - String.length (a +:+ b)) "0" +:+ (a +:+ b))
  +:+ "." +:+
  JS.drop (String.length (replicate (S f - String.length (a +:+ b)) "0" +:+ (a +:+ b)) - f)
    (replicate (S f - String.length (a +:+ b)) "0" +:+ (a +:+ b))
  = a +:+ "." +:+ b.
Proof.
  intros Hb Ha.
  assert (Hlen : (S f - String.length (a +:+ b) = 0)%nat).
  { rewrite length_append. destruct a; [congruence | simpl; lia]. }
  rewrite Hlen. change (replicate 0 "0" +:+ (a +:+ b)) with (a +:+ b).
  replace (String.length (a +:+ b) - f)%nat with (String.length a)
    by (rewrite length_append; lia).
  rewrite take_app_length, drop_app_length. reflexivity.
Qed.

Lemma decimal_nonempty (n : N) : decimal n <> "".
Proof.
  intros H. pose proof (length_decimal_pos n) as Hl. rewrite H in Hl. simpl in Hl. lia.
Qed.

(** The digits [toFixed] prints for a quotient [n / d] of at least one:
    they are [10^f * n / d] rounded to an integer, up to the error
    of the division. *)
Lemma fixedDigits_divide (f : nat) (n d : Z) :
  (0 < d <= n)%Z -> (Z.log2 (n / d) <= 52)%Z ->
  let S := (2 ^ (52 - Z.log2 (n / d)))%Z in
  let dg := fixedDigits f (divide n d) in
  (0 <= dg)%Z /\
  (2 * S * (d * dg - 10 ^ Z.of_nat f * n) <= d * S + 10 ^ Z.of_nat f * d)%Z /\
  (2 * S * (10 ^ Z.of_nat f * n - d * dg) <= d * S + 10 ^ Z.of_nat f * d)%Z.
Proof.
  intros Hnd He. cbv zeta.
  unfold divide, binade.
  destruct (Z.eqb_spec n 0) as [-> | _]; [lia |].
  destruct (Z.leb_spec d n) as [_ | Hlt]; [| lia].
  pose proof (Z.log2_nonneg (n / d)) as He0.
  set (e := Z.log2 (n / d)) in *.
  destruct (Z.leb_spec (e - 52) 0) as [_ | Hk]; [| lia].
  unfold fixedDigits. cbn [mant expo].
  destruct (Z.leb_spec 0 (e - 52)) as [Hk0 | Hk0].
  - assert (e = 52)%Z by lia.
    replace (e - 52)%Z with 0%Z by lia. replace (52 - e)%Z with 0%Z by lia.
    change (- 0)%Z with 0%Z. change (2 ^ 0)%Z with 1%Z.
    rewrite !Z.mul_1_r.
    pose proof (roundDiv_spec n d ltac:(lia)) as Hm.
    set (m := roundDiv n d) in *.
    assert (Hp : (0 < 10 ^ Z.of_nat f)%Z) by (apply Z.pow_pos_nonneg; lia).
    set (P := (10 ^ Z.of_nat f)%Z) in *.
    assert (0 <= m)%Z by nia.
    repeat split; nia.
  - replace (- (e - 52))%Z with (52 - e)%Z by lia.
    replace (1 - (e - 52))%Z with (Z.succ (52 - e)) by lia.
    rewrite Z.pow_succ_r by lia.
    assert (HS : (0 < 2 ^ (52 - e))%Z) by (apply Z.pow_pos_nonneg; lia).
    set (S := (2 ^ (52 - e))%Z) in *.
    pose proof (roundDiv_spec (n * S) d ltac:(lia)) as Hm.
    set (m := roundDiv (n * S) d) in *.
    assert (Hp : (0 < 10 ^ Z.of_nat f)%Z) by (apply Z.pow_pos_nonneg; lia).
    set (P := (10 ^ Z.of_nat f)%Z) in *.
    assert (Hm0 : (0 <= m)%Z) by nia.
    pose proof (Z.div_mod (2 * m * P + S) (2 * S) ltac:(lia)) as Hdm.
    pose proof (Z.mod_pos_bound (2 * m * P + S) (2 * S) ltac:(lia)) as Hr.
    set (dg := ((2 * m * P + S) / (2 * S))%Z) in *.
    set (r := ((2 * m * P + S) mod (2 * S))%Z) in *.
    assert (Hdg0 : (0 <= dg)%Z) by (apply Z.div_pos; nia).
    split; [exact Hdg0 |]. split.
    + assert (H1 : (d * (2 * S * dg) <= d * (2 * m * P + S))%Z) by nia.
      assert (H2 : (2 * P * (m * d) <= 2 * P * (n * S) + P * d)%Z) by nia.
      nia.
    + assert (H1 : (d * (2 * m * P + S) <= d * (2 * S * dg) + d * (2 * S))%Z) by nia.
      assert (H2 : (2 * P * (n * S) <= 2 * P * (m * d) + P * d)%Z) by nia.
      nia.
Qed.

Lemma formatFileSize_KB (n : N) :
  (1000 <= n < 1000000)%N ->
  exists tenths : N,
    (100 * tenths <= n + 50)%N /\ (n <= 100 * tenths + 50)%N /\
    formatFileSize n
    = decimal (tenths / 10) +:+ "." +:+ String (digit10 (tenths mod 10)) " KB".
Proof.
  intros [Hlo Hhi]. unfold formatFileSize. cbv zeta.
  destruct (N.leb_spec (1000 * 1000) n) as [Hmb | _]; [lia |].
  destruct (N.leb_spec 1000 n) as [_ | Hkb]; [| lia].
  change (Z.of_N 1000) with 1000%Z.
  assert (He : (Z.log2 (Z.of_N n / 1000) <= 9)%Z).
  { assert (Hq : (Z.of_N n / 1000 < 2 ^ 10)%Z)
      by (apply Z.div_lt_upper_bound; lia).
    assert (Hpos : (0 < Z.of_N n / 1000)%Z).
    { assert (1 <= Z.of_N n / 1000)%Z by (apply Z.div_le_lower_bound; lia). lia. }
    apply (Z.log2_lt_pow2 _ _ Hpos) in Hq. lia. }
  destruct (fixedDigits_divide 1 (Z.of_N n) 1000 ltac:(lia) ltac:(lia)) as (Hdg0 & Hup & Hdown).
  cbv zeta in Hup, Hdown.
  pose proof (Z.log2_nonneg (Z.of_N n / 1000)) as He0.
  assert (HS : (2 ^ 43 <= 2 ^ (52 - Z.log2 (Z.of_N n / 1000)))%Z)
    by (apply Z.pow_le_mono_r; lia).
  set (S := (2 ^ (52 - Z.log2 (Z.of_N n / 1000)))%Z) in *.
  set (dg := fixedDigits 1 (divide (Z.of_N n) 1000)) in *.
  change (10 ^ Z.of_nat 1)%Z with 10%Z in Hup, Hdown.
  change (2 ^ 43)%Z with 8796093022208%Z in HS.
  assert (Hx1 : (100 * dg - Z.of_N n <= 50)%Z) by nia.
  assert (Hx2 : (Z.of_N n - 100 * dg <= 50)%Z) by nia.
  exists (Z.to_N dg). split; [lia |]. split; [lia |].
  unfold toFixed. fold dg.
  assert (Hten : (10 <= Z.to_N dg)%N) by lia.
  rewrite (decimal_snoc _ Hten).
  rewrite (point_insert 1 (decimal (Z.to_N dg / 10)) (String (digit10 (Z.to_N dg mod 10)) ""))
    by (reflexivity || apply decimal_nonempty).
  rewrite !append_assoc. reflexivity.
Qed.

Lemma formatFileSize_MB (n : N) :
  (1000000 <= n < 2 ^ 53)%N ->
  exists hundredths : N,
    (10000 * hundredths <= n + 5000)%N /\ (n <= 10000 * hundredths + 5000)%N /\
    formatFileSize n
    = decimal (hundredths / 100) +:+ "." +:+
      String (digit10 (hundredths / 10 mod 10)) (String (digit10 (hundredths mod 10)) " MB").
Proof.
  intros [Hlo Hhi]. unfold formatFileSize. cbv zeta.
  destruct (N.leb_spec (1000 * 1000) n) as [_ | Hmb]; [| lia].
  change (Z.of_N (1000 * 1000)) with 1000000%Z.
  change (2 ^ 53)%N with 9007199254740992%N in Hhi.
  assert (He : (Z.log2 (Z.of_N n / 1000000) <= 33)%Z).
  { assert (Hq : (Z.of_N n / 1000000 < 2 ^ 34)%Z).
    { apply Z.div_lt_upper_bound; [lia |]. change (2 ^ 34)%Z with 17179869184%Z. lia. }
    assert (Hpos : (0 < Z.of_N n / 1000000)%Z).
    { assert (1 <= Z.of_N n / 1000000)%Z by (apply Z.div_le_lower_bound; lia). lia. }
    apply (Z.log2_lt_pow2 _ _ Hpos) in Hq. lia. }
  destruct (fixedDigits_divide 2 (Z.of_N n) 1000000 ltac:(lia) ltac:(lia))
    as (Hdg0 & Hup & Hdown).
  cbv zeta in Hup, Hdown.
  pose proof (Z.log2_nonneg (Z.of_N n / 1000000)) as He0.
  assert (HS : (2 ^ 19 <= 2 ^ (52 - Z.log2 (Z.of_N n / 1000000)))%Z)
    by (apply Z.pow_le_mono_r; lia).
  set (S := (2 ^ (52 - Z.log2 (Z.of_N n / 1000000)))%Z) in *.
  set (dg := fixedDigits 2 (divide (Z.of_N n) 1000000)) in *.
  change (10 ^ Z.of_nat 2)%Z with 100%Z in Hup, Hdown.
  change (2 ^ 19)%Z with 524288%Z in HS.
  assert (Hx1 : (10000 * dg - Z.of_N n <= 5000)%Z) by nia.
  assert (Hx2 : (Z.of_N n - 10000 * dg <= 5000)%Z) by nia.
  exists (Z.to_N dg). split; [lia |]. split; [lia |].
  unfold toFixed. fold dg.
  assert (Hhun : (100 <= Z.to_N dg)%N) by lia.
  assert (Hten : (10 <= Z.to_N dg / 10)%N) by (apply N.div_le_lower_bound; lia).
  rewrite (decimal_snoc (Z.to_N dg)) by lia.
  rewrite (decimal_snoc _ Hten), N.Div0.div_div. change (10 * 10)%N with 100%N.
  rewrite (append_assoc (decimal (Z.to_N dg / 100))
             (String (digit10 (Z.to_N dg / 10 mod 10)) "")
             (String (digit10 (Z.to_N dg mod 10)) "")).
  rewrite (point_insert 2 (decimal (Z.to_N dg / 100))
             (String (digit10 (Z.to_N dg / 10 mod 10)) "" +:+
              String (digit10 (Z.to_N dg mod 10)) ""))
    by (reflexivity || apply decimal_nonempty).
  rewrite !append_assoc. reflexivity.
Qed.

(** X17.  The size the report shows for a file.  Below 1000 bytes it is the
    byte count.  From 1000 bytes on it is the count in thousands with one
    decimal, from a million on the count in millions with two: the
    figure is the size rounded to the nearest hundred, or ten thousand,
    bytes, and a size halfway between two figures gets one or the other
    as the double division falls.  So 1050 bytes and 1150 bytes are both
    [1.1 KB], and 999950 bytes are [1000.0 KB]. *)
Theorem file_size_is_rounded (byteLength : N) :
  ((byteLength < 1000)%N -> formatFileSize byteLength = decimal byteLength +:+ " bytes") /\
  ((1000 <= byteLength < 1000000)%N ->
   exists tenths : N,
     (100 * tenths <= byteLength + 50)%N /\ (byteLength <= 100 * tenths + 50)%N /\
     formatFileSize byteLength
     = decimal (tenths / 10) +:+ "." +:+ String (digit10 (tenths mod 10)) " KB") /\
  ((1000000 <= byteLength < 2 ^ 53)%N ->
   exists hundredths : N,
     (10000 * hundredths <= byteLength + 5000)%N /\
     (byteLength <= 10000 * hundredths + 5000)%N /\
     formatFileSize byteLength
     = decimal (hundredths / 100) +:+ "." +:+
       String (digit10 (hundredths / 10 mod 10))
         (String (digit10 (hundredths mod 10)) " MB")) /\
  formatFileSize 1050 = "1.1 KB" /\
  formatFileSize 1150 = "1.1 KB" /\
  formatFileSize 999950 = "1000.0 KB".
Proof.
  split; [| split; [apply formatFileSize_KB | split; [apply formatFileSize_MB |]]].
  - intros H. unfold formatFileSize. cbv zeta.
    destruct (N.leb_spec (1000 * 1000) byteLength); [lia |].
    destruct (N.leb_spec 1000 byteLength); [lia | reflexivity].
  - repeat split; vm_compute; reflexivity.
Qed.

(** *** The report: colours and columns *)

Lemma toLowerCase_nonempty (s : string) : JS.toLowerCase s <> "" -> s <> "".
Proof. destruct s; [intros H; exact H | discriminate]. Qed.

(** X18.  The report colours a written artifact by the extension of the
    resource it was made from: a stylesheet is listed in lime, an image,
    for which [getColor] has no case, in lightgrey. *)
Theorem report_colour_of_artifact {E : Env} (resourcePath : string) (content : data) :
  (Path.extname resourcePath <> "" ->
   getColor (outPath (generateRoute resourcePath (generateHash content)))
   = getColor resourcePath) /\
  (JS.toLowerCase (Path.extname resourcePath) = ".css" ->
   getColor (outPath (generateRoute resourcePath (generateHash content))) = "lime") /\
  (isImageExt (JS.toLowerCase (Path.extname resourcePath)) = true ->
   getColor (outPath (generateRoute resourcePath (generateHash content))) = "lightgrey").
Proof.
  assert (Hsame : Path.extname resourcePath <> "" ->
                  Path.extname (outPath (generateRoute resourcePath (generateHash content)))
                  = Path.extname resourcePath).
  { intros Hhas. destruct (parse_shape resourcePath) as (_ & Hextname & _ & _ & Hext).
    rewrite <- Hextname in *.
    destruct Hext as [Hempty | (x & Hx & Hxfree)]; [contradiction |].
    unfold Path.extname. rewrite (splitExt_outPath resourcePath content x Hx Hxfree).
    symmetry. exact Hx. }
  split; [| split].
  - intros Hhas. unfold getColor. rewrite (Hsame Hhas). reflexivity.
  - intros Hcss. unfold getColor. rewrite Hsame, Hcss; [reflexivity |].
    apply toLowerCase_nonempty. rewrite Hcss. discriminate.
  - intros Himg. unfold getColor. rewrite Hsame.
    + unfold isImageExt in Himg.
      destruct (String.eqb_spec (JS.toLowerCase (Path.extname resourcePath)) ".png") as [-> | _];
        [reflexivity |].
      destruct (String.eqb_spec (JS.toLowerCase (Path.extname resourcePath)) ".jpg") as [-> | _];
        [reflexivity |].
      destruct (String.eqb_spec (JS.toLowerCase (Path.extname resourcePath)) ".jpeg") as [-> | _];
        [reflexivity | discriminate].
    + apply toLowerCase_nonempty. intros Hempty. rewrite Hempty in Himg. discriminate.
Qed.

Lemma length_replicate (n : nat) (c : ascii) : String.length (replicate n c) = n.
Proof. induction n as [| n IH]; [reflexivity |]. simpl. rewrite IH. reflexivity. Qed.

Lemma maxLength_from (entries : list string) (m : nat) :
  (m <= fold_left (fun m name => if (m <? String.length name)%nat then String.length name else m)
          entries m)%nat /\
  (forall name, name ∈ entries ->
     (String.length name
      <= fold_left (fun m name => if (m <? String.length name)%nat then String.length name else m)
           entries m)%nat).
Proof.
  revert m. induction entries as [| e entries IH]; intros m; simpl.
  - split; [lia | intros name H; inversion H].
  - destruct (IH (if (m <? String.length e)%nat then String.length e else m)) as [Hge Hall].
    destruct (Nat.ltb_spec m (String.length e)); split; try lia.
    + intros name Hin. apply elem_of_cons in Hin as [-> | Hin]; [lia | apply Hall, Hin].
    + intros name Hin. apply elem_of_cons in Hin as [-> | Hin]; [lia | apply Hall, Hin].
Qed.

Lemma maxLength_attained (entries : list string) (m : nat) :
  let result :=
    fold_left (fun m name => if (m <? String.length name)%nat then String.length name else m)
      entries m in
  result = m \/ exists name, name ∈ entries /\ String.length name = result.
Proof.
  revert m. induction entries as [| e entries IH]; intros m; simpl; [left; reflexivity |].
  destruct (IH (if (m <? String.length e)%nat then String.length e else m)) as [Heq | Hex].
  - destruct (Nat.ltb_spec m (String.length e)).
    + right. exists e. split; [left | symmetry; exact Heq].
    + left. exact Heq.
  - right. destruct Hex as (name & Hin & Hlen). exists name. split; [right; exact Hin | exact Hlen].
Qed.

Lemma allChars_replicate (n : nat) (c : ascii) :
  allChars (Ascii.eqb c) (replicate n c) = true.
Proof.
  induction n as [| n IH]; [reflexivity |].
  simpl. rewrite Ascii.eqb_refl. exact IH.
Qed.

(** X19.  The names of the report (taken in ASCII) are filled with spaces to
    the length of the longest one, so that the sizes line up: the length
    filled to is the length of some name and no name is longer, and every
    line is the colour of its file, [> ], the name, as many spaces as the
    name is short of that length, a space and the size in brackets. *)
Theorem report_columns_align (Bun_color : string -> string) (entries : list string)
    (byteLength : string -> N) (line : string) :
  Forall (fun name => isAscii name = true) entries ->
  line ∈ reportLines Bun_color entries byteLength ->
  (exists longest, longest ∈ entries /\ String.length longest = maxLength entries) /\
  (forall name, name ∈ entries -> (String.length name <= maxLength entries)%nat) /\
  exists name pad,
    name ∈ entries /\
    allChars (Ascii.eqb " ") pad = true /\
    String.length pad = (maxLength entries - String.length name)%nat /\
    String.length (name +:+ pad) = maxLength entries /\
    line = Bun_color (getColor name) +:+ "> " +:+ name +:+ pad +:+ " (" +:+
           formatFileSize (byteLength name) +:+ ")" +:+ Bun_color "lightgrey".
Proof.
  unfold reportLines. intros _ Hline. apply list_elem_of_fmap in Hline as (name & -> & Hname).
  pose proof (proj2 (maxLength_from entries 0)) as Hle. fold (maxLength entries) in Hle.
  split; [| split; [exact Hle |]].
  - destruct (maxLength_attained entries 0) as [Hzero | Hex]; fold (maxLength entries) in *.
    + exists name. split; [exact Hname |]. specialize (Hle name Hname). lia.
    + exact Hex.
  - exists name, (replicate (maxLength entries - String.length name) " ").
    split; [exact Hname |]. split; [apply allChars_replicate |].
    split; [apply length_replicate |].
    split; [rewrite length_append, length_replicate; specialize (Hle name Hname); lia |].
    unfold color, padEnd. rewrite !append_assoc. reflexivity.
Qed.

Lemma report_columns_align_witness :
  Forall (fun name => isAscii name = true) ["a.css"; "index.html"] /\
  (fun c => "[" +:+ c +:+ "]") "lime" +:+ "> " +:+ "a.css     " +:+ " (" +:+ "1.0 KB" +:+ ")"
    +:+ "[lightgrey]"
    ∈ reportLines (fun c => "[" +:+ c +:+ "]") ["a.css"; "index.html"] (fun _ => 1000%N) /\
  exists longest,
    longest ∈ ["a.css"; "index.html"] /\
    String.length longest = maxLength ["a.css"; "index.html"].
Proof.
  assert (Hascii : Forall (fun name => isAscii name = true) ["a.css"; "index.html"])
    by (repeat constructor).
  assert (H : (fun c => "[" +:+ c +:+ "]") "lime" +:+ "> " +:+ "a.css     " +:+ " (" +:+ "1.0 KB"
                +:+ ")" +:+ "[lightgrey]"
              ∈ reportLines (fun c => "[" +:+ c +:+ "]") ["a.css"; "index.html"]
                  (fun _ => 1000%N)).
  { vm_compute. left. }
  split; [exact Hascii |]. split; [exact H |].
  exact (proj1 (report_columns_align _ _ _ _ Hascii H)).
Defined.

(** *** Query flags *)

Lemma split_first (sep : ascii) (s : string) :
  exists rest, JS.split sep s = JS.takeWhile (fun c => negb (Ascii.eqb c sep)) s :: rest.
Proof.
  pose proof (split_head sep s) as H. destruct (JS.split sep s) as [| p ps]; [discriminate |].
  injection H as ->. eauto.
Qed.

Lemma has_worker_value (value : string) :
  JS.has (JS.URLSearchParams (Some ("worker=" +:+ value))) "worker" = true.
Proof.
  unfold JS.has, JS.URLSearchParams, JS.parseUrlencoded.
  change ("worker=" +:+ value)
    with (String "w" (String "o" (String "r" (String "k" (String "e" (String "r"
           (String "=" value))))))).
  cbv iota beta. change (Ascii.eqb "w" "?") with false. cbv iota.
  destruct (split_first "&" (String "w" (String "o" (String "r" (String "k" (String "e"
              (String "r" (String "=" value)))))))) as [rest ->].
  cbn [JS.takeWhile Ascii.eqb Bool.eqb negb].
  rewrite filter_cons_True by discriminate.
  cbn [map JS.cutAtEquals Ascii.eqb Bool.eqb].
  reflexivity.
Qed.

Lemma has_inline_value (value : string) :
  JS.has (JS.URLSearchParams (Some ("inline=" +:+ value))) "inline" = true.
Proof.
  unfold JS.has, JS.URLSearchParams, JS.parseUrlencoded.
  change ("inline=" +:+ value)
    with (String "i" (String "n" (String "l" (String "i" (String "n" (String "e"
           (String "=" value))))))).
  cbv iota beta. change (Ascii.eqb "i" "?") with false. cbv iota.
  destruct (split_first "&" (String "i" (String "n" (String "l" (String "i" (String "n"
              (String "e" (String "=" value)))))))) as [rest ->].
  cbn [JS.takeWhile Ascii.eqb Bool.eqb negb].
  rewrite filter_cons_True by discriminate.
  cbn [map JS.cutAtEquals Ascii.eqb Bool.eqb].
  reflexivity.
Qed.

(** X20.  A flag of the query string counts as soon as its name is there,
    whatever value it is given: a script referred to with
    [worker=false], or with any other value, is bundled as a worker just
    like one referred to with [worker], and [inline=...] is [inline]. *)
Theorem query_flag_is_presence_only {E : Env}
    (fuel : nat) (resourceAlias resourcePath value : string) (st : BuildState) :
  isScriptExt (JS.toLowerCase (Path.extname resourcePath)) = true ->
  JS.has (JS.URLSearchParams (Some ("worker=" +:+ value))) "worker" = true /\
  JS.has (JS.URLSearchParams (Some ("inline=" +:+ value))) "inline" = true /\
  processFile fuel resourceAlias (resourcePath, Some ("worker=" +:+ value)) st
  = processFile fuel resourceAlias (resourcePath, Some "worker") st.
Proof.
  intros Hscript. split; [apply has_worker_value |]. split; [apply has_inline_value |].
  unfold isScriptExt in Hscript.
  destruct fuel as [| fuel];
    cbn -[JS.has JS.URLSearchParams processScript dataTruthy];
    unfold bind, replacersHas; destruct (mapHas (replacers st) resourceAlias);
    try reflexivity; rewrite Hscript, has_worker_value; reflexivity.
Qed.

Lemma query_flag_is_presence_only_witness :
  isScriptExt (JS.toLowerCase (Path.extname "/project/frontend/worker.ts")) = true /\
  @processFile Example.page 3 "@/worker.ts?worker=false"
    ("/project/frontend/worker.ts", Some "worker=false") Example.emptyState
  = @processFile Example.page 3 "@/worker.ts?worker=false"
      ("/project/frontend/worker.ts", Some "worker") Example.emptyState.
Proof.
  split; [reflexivity |].
  apply (@query_flag_is_presence_only Example.page 3 "@/worker.ts?worker=false"
           "/project/frontend/worker.ts" "false" Example.emptyState).
  reflexivity.
Defined.

(** *** An iteration that finds nothing changed *)

Section Idle.
Context {E : Env}.

Lemma changed_false_eq (a b : gset string) : changed a b = false -> a = b.
Proof.
  intros H.
  assert (Heq : symmetricDifference a b = ∅).
  { destruct (decide (symmetricDifference a b = ∅)) as [Heq | Hne]; [exact Heq |].
    apply changed_iff in Hne. congruence. }
  unfold symmetricDifference in Heq.
  assert (Hempty : forall x : string, ~ x ∈ (a ∖ b) ∪ (b ∖ a))
    by (intros x; rewrite Heq; apply not_elem_of_empty).
  apply set_eq. intros x. split; intros Hx.
  - destruct (decide (x ∈ b)) as [Hy | Hy]; [exact Hy |].
    destruct (Hempty x). apply elem_of_union. left. apply elem_of_difference. auto.
  - destruct (decide (x ∈ a)) as [Hy | Hy]; [exact Hy |].
    destruct (Hempty x). apply elem_of_union. right. apply elem_of_difference. auto.
Qed.

(** X21.  An iteration that finds the frontend as it was, and the backend and
    the bundle as they were (or has no backend to look at), does nothing:
    it records the processes that ended, clears the flag of the last
    iteration and goes back to sleep. *)
Theorem idle_iteration_changes_nothing (t : Tick) (s : DevState) :
  pc s = AtSleep ->
  changed (list_to_set (generateHashes (frontendFiles t))) (previousFrontend s) = false ->
  backendLanguage config = None \/
  changed (list_to_set (generateHashes (bundleFiles t) ++ generateHashes (backendFiles t)))
    (previousBackend s) = false ->
  step t s = setIsFrontendChanged false (applyExits (exited t) s).
Proof.
  intros Hpc Hfront Hback. rewrite (step_AtSleep t s Hpc), Hfront.
  apply changed_false_eq in Hfront. rewrite Hfront.
  unfold superviseBackend.
  destruct (backendLanguage config) as [[] |].
  - destruct Hback as [Hnone | Hback]; [discriminate |].
    cbn [isFrontendChanged setPreviousBackend setIsFrontendChanged setPreviousFrontend
         previousBackend applyExits setProcs orb].
    rewrite Hback. apply changed_false_eq in Hback. rewrite Hback.
    destruct s. simpl in *. subst. reflexivity.
  - destruct s. simpl in *. subst. reflexivity.
Qed.

End Idle.

Lemma idle_iteration_changes_nothing_witness :
  pc (@dev Example.frontendOnly
        [Example.tick Example.mainV1 true; Example.tick Example.mainV1 true]) = AtSleep /\
  @step Example.frontendOnly (Example.tick Example.mainV1 true)
    (@dev Example.frontendOnly
       [Example.tick Example.mainV1 true; Example.tick Example.mainV1 true])
  = setIsFrontendChanged false
      (applyExits (exited (Example.tick Example.mainV1 true))
         (@dev Example.frontendOnly
            [Example.tick Example.mainV1 true; Example.tick Example.mainV1 true])).
Proof.
  split; [vm_compute; reflexivity |].
  apply (@idle_iteration_changes_nothing Example.frontendOnly).
  - vm_compute. reflexivity.
  - vm_compute. reflexivity.
  - left. reflexivity.
Defined.

(** *** References that always get an entry *)

Section Completeness.
Context {E : Env}.

Lemma keys_kept {A} (m : M A) st a st' k :
  traced (everyEvent (fun _ => True)) m -> m st = Done a st' ->
  mapHas (replacers st) k = true -> mapHas (replacers st') k = true.
Proof.
  intros Hm H Hk. apply (traced_Done _ _ _ _ _ Hm) in H as (evs & -> & _).
  rewrite mapHas_replay, Hk. reflexivity.
Qed.

Lemma processScript_inline_Done fuel pf entry st r st' :
  processScript fuel pf (inl entry) st = Done r st' -> exists text, r = Some text.
Proof.
  unfold processScript. intros H.
  apply bind_Done in H as ([] & st1 & _ & H).
  apply bind_Done in H as (transformed & st2 & _ & H).
  apply bind_Done in H as (output & st3 & _ & H).
  apply bind_Done in H as ([] & st4 & _ & H).
  destruct output; [discriminate |]. injection H as <- _. eauto.
Qed.

Lemma processMatch_key fuel ss m st ss' st' p q :
  processMatch fuel ss m st = Done ss' st' ->
  resolveAlias (snd m) = Some (p, q) ->
  (isImageExt (JS.toLowerCase (Path.extname p)) = true ->
   mapHas (replacers st') (snd m) = true) /\
  (isScriptExt (JS.toLowerCase (Path.extname p)) = true ->
   JS.has (JS.URLSearchParams q) "inline" = true ->
   mapHas (replacers st') (fst m) = true).
Proof.
  unfold processMatch. intros H Hres.
  apply bind_Done in H as ([] & st1 & H1 & H). injection H1 as <-.
  rewrite Hres in H. split.
  - intros Himg. rewrite (image_not_script _ Himg) in H.
    apply bind_Done in H as ([] & st2 & H2 & H). injection H as _ <-.
    exact (processFile_image_key _ _ _ _ _ _ Himg H2).
  - intros Hscript Hinline. unfold isScriptExt in Hscript. rewrite Hscript, Hinline in H.
    unfold bind at 1 in H. unfold replacersHas at 1 in H.
    destruct (mapHas _ (fst m)) eqn:Hk.
    + injection H as _ <-. exact Hk.
    + apply bind_Done in H as (code & st2 & H2 & H).
      apply processScript_inline_Done in H2 as [text ->].
      apply bind_Done in H as ([] & st3 & H3 & H). injection H3 as <-.
      injection H as _ <-. cbn [replacers]. rewrite mapHas_set, String.eqb_refl. reflexivity.
Qed.

(** The key the markup loop enters for a reference that always gets one:
    the token of an image, the whole match of an inline script. *)
Lemma foldM_processMatch_keys fuel ms ss st ss' st' :
  foldM ms ss (processMatch fuel) st = Done ss' st' ->
  forall m p q,
    m ∈ ms -> resolveAlias (snd m) = Some (p, q) ->
    (isImageExt (JS.toLowerCase (Path.extname p)) = true ->
     mapHas (replacers st') (snd m) = true) /\
    (isScriptExt (JS.toLowerCase (Path.extname p)) = true ->
     JS.has (JS.URLSearchParams q) "inline" = true ->
     mapHas (replacers st') (fst m) = true).
Proof.
  revert ss st. induction ms as [| m0 ms IH]; intros ss st H m p q Hm Hres; [inversion Hm |].
  simpl in H. apply bind_Done in H as (ss1 & st1 & H1 & H).
  apply elem_of_cons in Hm as [-> | Hm]; [| exact (IH _ _ H m p q Hm Hres)].
  destruct (processMatch_key _ _ _ _ _ _ _ _ H1 Hres) as [Himg Hinl].
  assert (Hkept : forall k, mapHas (replacers st1) k = true -> mapHas (replacers st') k = true).
  { intros k. apply (keys_kept _ _ _ _ _ (traced_foldM _ _ _ (fun b x => traced_processMatch fuel b x)) H). }
  split; [intros Hi; apply Hkept, Himg, Hi | intros Hs Hq; apply Hkept, Hinl; assumption].
Qed.

Lemma processTemplate_matches fuel version hs ss name st hs' ss' st' text rendered :
  processTemplate fuel version (hs, ss) name st = Done (hs', ss') st' ->
  Bun_build (Path.join [cwd; frontendDir config; name]) = Some (Some text) ->
  importDefault text = Some rendered ->
  exists st1, foldM (matchAll (default "" rendered)) ss (processMatch fuel) st1 = Done ss' st'.
Proof.
  unfold processTemplate. intros H Hb Hi. rewrite Hb in H.
  apply bind_Done in H as (moduleBuild & st1 & H1 & H). injection H1 as <- <-.
  apply bind_Done in H as ([] & st2 & _ & H).
  rewrite Hi in H.
  apply bind_Done in H as (r & st3 & H3 & H). injection H3 as <- <-.
  apply bind_Done in H as (ss1 & st4 & H4 & H). injection H as _ <- <-.
  eauto.
Qed.

Lemma foldM_processTemplate_keys fuel version names acc st acc' st' :
  foldM names acc (processTemplate fuel version) st = Done acc' st' ->
  forall name text rendered m p q,
    name ∈ names ->
    Bun_build (Path.join [cwd; frontendDir config; name]) = Some (Some text) ->
    importDefault text = Some rendered ->
    m ∈ matchAll (default "" rendered) ->
    resolveAlias (snd m) = Some (p, q) ->
    (isImageExt (JS.toLowerCase (Path.extname p)) = true ->
     mapHas (replacers st') (snd m) = true) /\
    (isScriptExt (JS.toLowerCase (Path.extname p)) = true ->
     JS.has (JS.URLSearchParams q) "inline" = true ->
     mapHas (replacers st') (fst m) = true).
Proof.
  revert acc st. induction names as [| n names IH];
    intros acc st H name text rendered m p q Hname Hb Hi Hm Hres; [inversion Hname |].
  simpl in H. apply bind_Done in H as (acc1 & st1 & H1 & H).
  apply elem_of_cons in Hname as [-> | Hname];
    [| exact (IH _ _ H name text rendered m p q Hname Hb Hi Hm Hres)].
  destruct acc as [hs ss], acc1 as [hs1 ss1].
  destruct (processTemplate_matches _ _ _ _ _ _ _ _ _ _ _ H1 Hb Hi) as [st0 Hfold].
  destruct (foldM_processMatch_keys _ _ _ _ _ _ Hfold m p q Hm Hres) as [Himg Hinl].
  assert (Hkept : forall k, mapHas (replacers st1) k = true -> mapHas (replacers st') k = true).
  { intros k. apply (keys_kept _ _ _ _ _
                       (traced_foldM _ _ _ (fun b x => traced_processTemplate fuel version b x)) H). }
  split; [intros Hx; apply Hkept, Himg, Hx | intros Hs Hq; apply Hkept, Hinl; assumption].
Qed.

(** X23.  With an alias that holds no syntax character of a RegExp, a
    completed build has an entry for every image and for every inline
    script that the markup of a built template refers to: the token of
    the image, the whole match of the inline script, is a key of the
    table when the build ends. *)
Theorem image_and_inline_references_get_entries
    (fuel : nat) (st0 st : BuildState) (name text : string) (rendered : option string)
    (m : string * string) (p : string) (q : option string) :
  plainPattern aliasFind = true ->
  bundle fuel st0 = Done tt st ->
  name ∈ scanTemplates ->
  Bun_build (Path.join [cwd; frontendDir config; name]) = Some (Some text) ->
  importDefault text = Some rendered ->
  m ∈ matchAll (default "" rendered) ->
  resolveAlias (snd m) = Some (p, q) ->
  (isImageExt (JS.toLowerCase (Path.extname p)) = true ->
   mapHas (replacers st) (snd m) = true) /\
  (isScriptExt (JS.toLowerCase (Path.extname p)) = true ->
   JS.has (JS.URLSearchParams q) "inline" = true ->
   mapHas (replacers st) (fst m) = true).
Proof.
  intros _ H Hname Hb Hi Hm Hres.
  apply bundle_phases in H as (rawHTMLs & evsP & evsR & inlines & Hall & _ & HR & H).
  cbv zeta in Hall, H.
  apply forEach_writeMarkup_events in H as (evsS & -> & HS & _).
  rewrite (replacers_replay_markup _ _ _ HS), (replacers_replay_reads _ _ HR).
  change (replacers (applyEvent ?s (EvRemove ?x))) with (replacers s).
  unfold processAll in Hall.
  apply bind_Done in Hall as ([hs ss] & st1 & H1 & Hall).
  destruct (foldM_processTemplate_keys _ _ _ _ _ _ _ H1 name text rendered m p q
              Hname Hb Hi Hm Hres) as [Himg Hinl].
  assert (Hkept : forall k, mapHas (replacers st1) k = true ->
                            mapHas (replacers (replay evsP
                              {| replacers := [];
                                 disk := diskRemove (disk st0) (Path.join [cwd; bundleDir config]);
                                 log := log st0 ++ [EvRemove (Path.join [cwd; bundleDir config])] |}))
                              k = true).
  { intros k. refine (keys_kept _ _ _ _ k _ Hall).
    apply traced_bind; [| intros _; apply traced_ret].
    destruct (0 <? length ss)%nat; [| apply traced_ret].
    apply traced_bind; [| intros _; apply traced_ret].
    apply traced_processScript. intros; apply traced_processFile. }
  split; [intros Hx; apply Hkept, Himg, Hx | intros Hs Hq; apply Hkept, Hinl; assumption].
Qed.

End Completeness.

Lemma image_and_inline_references_get_entries_witness :
  plainPattern (@aliasFind Example.page) = true /\
  @bundle Example.page 5 Example.emptyState = Done tt Example.pageBuilt /\
  mapHas (replacers Example.pageBuilt) "@/img/a.png?w=10" = true.
Proof.
  split; [reflexivity |]. split; [vm_compute; reflexivity |].
  refine (proj1 (@image_and_inline_references_get_entries Example.page 5 Example.emptyState
                   Example.pageBuilt "templates/index.ts"
                   "<link href='@/style.css'><img src='@/img/a.png'><img src='@/img/a.png?w=10'><img src='@/img/a.png'><a href='@/font.woff2'><a href='@/font.woff2'>"
                   (Some "<link href='@/style.css'><img src='@/img/a.png'><img src='@/img/a.png?w=10'><img src='@/img/a.png'><a href='@/font.woff2'><a href='@/font.woff2'>")
                   ("'@/img/a.png?w=10'", "@/img/a.png?w=10")
                   "/project/frontend/img/a.png" (Some "w=10") eq_refl _ _ _ _ _ _) _).
  - vm_compute. reflexivity.
  - vm_compute. left.
  - vm_compute. reflexivity.
  - vm_compute. reflexivity.
  - vm_compute. repeat (first [left | right]).
  - vm_compute. reflexivity.
  - vm_compute. reflexivity.
Defined.
